(** * Hunt dispatching: the in-memory hunt mirror, the client scheduler,
      result triage, the hunt API and the hunt runner flow of
      [flows/hunts.go].

    The Go code is embedded shallowly.  Protocol-buffer messages are
    records, [uint64] fields are integers with the wrap-around modulo
    2^64 written out, the datastore is a finite map from URNs to stored
    messages, and every function that talks to the datastore, to the
    gRPC endpoint or to the logger is a state-passing computation over
    [World], which also keeps the trace of the calls that were made.
    Nil-pointer dereferences and loops that never leave are explicit
    outcomes ([Panic], [OutOfFuel]).

    What the code takes from outside is gathered in [Env]: whether a
    datastore can be had, which datastore calls fail (per call and URN),
    what the gRPC endpoint answers, what the random generator yields and
    the time.  The reading of the clock at the head of a function is one
    instant; what the function reads from the clock after that (the
    expiry of a new hunt, the time of a failed launch) is a reading of
    its own.  The two mutexes of the container and the goroutine that
    refreshes it every ten seconds order concurrent callers; the model
    follows one caller at a time. *)

From Stdlib Require Import ZArith List Ascii String Lia Bool.
From stdpp Require Import base option list strings gmap fin_maps.

Local Open Scope string_scope.
Local Open Scope list_scope.
Local Open Scope Z_scope.

(* ================================================================== *)
(** ** Machine integers *)

Module U64.

Definition modulus : Z := 2 ^ 64.

Definition wrap (x : Z) : Z := x mod modulus.

Definition add (a b : Z) : Z := wrap (a + b).
Definition sub (a b : Z) : Z := wrap (a - b).
Definition mul (a b : Z) : Z := wrap (a * b).
(** Go's [/] on unsigned operands; the callers divide by non-zero
    constants only. *)
Definition div (a b : Z) : Z := a / b.

Definition in_range (x : Z) : Prop := 0 <= x < modulus.

End U64.

(* ================================================================== *)
(** ** Strings and paths *)

Definition slash : ascii := "/"%char.

Definition is_slash (c : ascii) : bool := Ascii.eqb c slash.

Definition string_is_empty (s : string) : bool :=
  match s with EmptyString => true | String _ _ => false end.

Fixpoint has_slash (s : string) : bool :=
  match s with
  | EmptyString => false
  | String c r => is_slash c || has_slash r
  end.

(** [strings.HasPrefix(s, prefix)]. *)
Fixpoint strings_HasPrefix (s pre : string) {struct pre} : bool :=
  match pre with
  | EmptyString => true
  | String p pre' =>
      match s with
      | EmptyString => false
      | String c s' => Ascii.eqb c p && strings_HasPrefix s' pre'
      end
  end.

(** What is left of [s] after the prefix [pre], when it has it. *)
Fixpoint strip_prefix (pre s : string) {struct pre} : option string :=
  match pre with
  | EmptyString => Some s
  | String p pre' =>
      match s with
      | EmptyString => None
      | String c s' => if Ascii.eqb c p then strip_prefix pre' s' else None
      end
  end.

(** The first loop of [path.Base]: drop the trailing slashes. *)
Fixpoint strip_trailing_slashes (s : string) : string :=
  match s with
  | EmptyString => EmptyString
  | String c r =>
      let r' := strip_trailing_slashes r in
      if is_slash c && string_is_empty r' then EmptyString else String c r'
  end.

(** The second step of [path.Base]: what follows the last slash. *)
Fixpoint after_last_slash (s : string) : string :=
  match s with
  | EmptyString => EmptyString
  | String c r =>
      if has_slash r then after_last_slash r
      else if is_slash c then r else String c r
  end.

(** Go's [path.Base]. *)
Definition path_Base (p : string) : string :=
  if string_is_empty p then "."
  else
    let q := after_last_slash (strip_trailing_slashes p) in
    if string_is_empty q then "/" else q.

(** [hex.Encode]: two lower-case digits per byte, high nibble first. *)
Definition hextable : string := "0123456789abcdef".

Definition hex_digit (n : N) : ascii :=
  match String.get (N.to_nat n) hextable with
  | Some c => c
  | None => "0"%char
  end.

Fixpoint hex_Encode (src : list N) : string :=
  match src with
  | [] => EmptyString
  | b :: r =>
      String (hex_digit (N.shiftr b 4))
        (String (hex_digit (N.land b 15)) (hex_Encode r))
  end.

(** A byte slice of length [n] filled by [rand.Read] from the stream of
    bytes the generator yields; bytes the generator fails to deliver
    stay zero, as in the freshly made slice. *)
Fixpoint rand_Read (n : nat) (entropy : list N) : list N :=
  match n with
  | O => []
  | S n' =>
      match entropy with
      | [] => 0%N :: rand_Read n' []
      | b :: r => (b mod 256)%N :: rand_Read n' r
      end
  end.

(* ================================================================== *)
(** ** Protocol-buffer messages

    The generated Go structs are not part of the sources; the fields
    below are the ones [hunts.go] reads and writes, with the types its
    expressions force on them (every counter and timestamp takes part in
    [uint64] arithmetic with [now]).  Message-typed fields are pointers
    and may be nil. *)

(** Go's [error] values, identified by their message. *)
Definition error : Type := string.

Definition errors_New (msg : string) : error := msg.

Inductive Hunt_State : Type :=
  | Hunt_UNSET | Hunt_PAUSED | Hunt_RUNNING | Hunt_STOPPED | Hunt_ARCHIVED.

Inductive HuntInfo_State : Type :=
  | HuntInfo_UNSET | HuntInfo_PENDING | HuntInfo_RUNNING
  | HuntInfo_COMPLETED | HuntInfo_ERROR.

Inductive FlowContext_State : Type :=
  | FlowContext_UNSET | FlowContext_RUNNING
  | FlowContext_TERMINATED | FlowContext_ERROR.

#[global] Instance Hunt_State_eq_dec : EqDecision Hunt_State.
Proof. solve_decision. Defined.

#[global] Instance FlowContext_State_eq_dec : EqDecision FlowContext_State.
Proof. solve_decision. Defined.

Module ArtifactCollectorArgs.
(** [Artifacts] is a message holding [Names]. *)
Record t : Type := mk { Artifacts : option (list string) }.
End ArtifactCollectorArgs.

(** A packed [any.Any]: the hunt code only ever unpacks
    [ArtifactCollectorArgs]. *)
Inductive Any : Type :=
  | Any_ArtifactCollectorArgs (a : ArtifactCollectorArgs.t)
  | Any_other (type_url : string).

(** [ptypes.UnmarshalAny(any, &ArtifactCollectorArgs{})]; [None] is the
    type-mismatch error, which a nil [any] gives as well. *)
Definition UnmarshalAny_ArtifactCollectorArgs (any : option Any)
  : option ArtifactCollectorArgs.t :=
  match any with
  | Some (Any_ArtifactCollectorArgs a) => Some a
  | _ => None
  end.

Module FlowRunnerArgs.
Record t : Type := mk {
  ClientId : string;
  FlowName : string;
  Creator : string;
  Args : option Any
}.
End FlowRunnerArgs.

Module FlowContext.
Record t : Type := mk {
  State : FlowContext_State;
  TotalResults : Z;
  CreateTime : Z;
  Backtrace : string
}.
(** [&flows_proto.FlowContext{}] *)
Definition zero : t := mk FlowContext_UNSET 0 0 "".
End FlowContext.

Module HuntInfo.
Record t : Type := mk {
  ClientId : string;
  HuntId : string;
  FlowId : string;
  StartRequest : option FlowRunnerArgs.t;
  State : HuntInfo_State;
  Result : option FlowContext.t
}.
(** [&api_proto.HuntInfo{}] *)
Definition zero : t := mk "" "" "" None HuntInfo_UNSET None.

Definition set_FlowId (v : string) (i : t) : t :=
  mk (ClientId i) (HuntId i) v (StartRequest i) (State i) (Result i).
Definition set_State (v : HuntInfo_State) (i : t) : t :=
  mk (ClientId i) (HuntId i) (FlowId i) (StartRequest i) v (Result i).
Definition set_Result (v : option FlowContext.t) (i : t) : t :=
  mk (ClientId i) (HuntId i) (FlowId i) (StartRequest i) (State i) v.
End HuntInfo.

Module Hunt.
Record t : Type := mk {
  HuntId : string;
  CreateTime : Z;
  Expires : Z;
  State : Hunt_State;
  ClientRate : Z;
  LastUnpauseTime : Z;
  TotalClientsWhenUnpaused : Z;
  TotalClientsScheduled : Z;
  TotalClientsWithResults : Z;
  TotalClientsWithErrors : Z;
  TotalClientsWithoutResults : Z;
  StartRequest : option FlowRunnerArgs.t;
  Artifacts : list string
}.
(** [&api_proto.Hunt{}] *)
Definition zero : t := mk "" 0 0 Hunt_UNSET 0 0 0 0 0 0 0 None [].

Definition set_HuntId (v : string) (h : t) : t :=
  mk v (CreateTime h) (Expires h) (State h) (ClientRate h)
    (LastUnpauseTime h) (TotalClientsWhenUnpaused h)
    (TotalClientsScheduled h) (TotalClientsWithResults h)
    (TotalClientsWithErrors h) (TotalClientsWithoutResults h)
    (StartRequest h) (Artifacts h).
Definition set_CreateTime (v : Z) (h : t) : t :=
  mk (HuntId h) v (Expires h) (State h) (ClientRate h)
    (LastUnpauseTime h) (TotalClientsWhenUnpaused h)
    (TotalClientsScheduled h) (TotalClientsWithResults h)
    (TotalClientsWithErrors h) (TotalClientsWithoutResults h)
    (StartRequest h) (Artifacts h).
Definition set_Expires (v : Z) (h : t) : t :=
  mk (HuntId h) (CreateTime h) v (State h) (ClientRate h)
    (LastUnpauseTime h) (TotalClientsWhenUnpaused h)
    (TotalClientsScheduled h) (TotalClientsWithResults h)
    (TotalClientsWithErrors h) (TotalClientsWithoutResults h)
    (StartRequest h) (Artifacts h).
Definition set_State (v : Hunt_State) (h : t) : t :=
  mk (HuntId h) (CreateTime h) (Expires h) v (ClientRate h)
    (LastUnpauseTime h) (TotalClientsWhenUnpaused h)
    (TotalClientsScheduled h) (TotalClientsWithResults h)
    (TotalClientsWithErrors h) (TotalClientsWithoutResults h)
    (StartRequest h) (Artifacts h).
Definition set_LastUnpauseTime (v : Z) (h : t) : t :=
  mk (HuntId h) (CreateTime h) (Expires h) (State h) (ClientRate h)
    v (TotalClientsWhenUnpaused h)
    (TotalClientsScheduled h) (TotalClientsWithResults h)
    (TotalClientsWithErrors h) (TotalClientsWithoutResults h)
    (StartRequest h) (Artifacts h).
Definition set_TotalClientsWhenUnpaused (v : Z) (h : t) : t :=
  mk (HuntId h) (CreateTime h) (Expires h) (State h) (ClientRate h)
    (LastUnpauseTime h) v
    (TotalClientsScheduled h) (TotalClientsWithResults h)
    (TotalClientsWithErrors h) (TotalClientsWithoutResults h)
    (StartRequest h) (Artifacts h).
Definition set_TotalClientsScheduled (v : Z) (h : t) : t :=
  mk (HuntId h) (CreateTime h) (Expires h) (State h) (ClientRate h)
    (LastUnpauseTime h) (TotalClientsWhenUnpaused h)
    v (TotalClientsWithResults h)
    (TotalClientsWithErrors h) (TotalClientsWithoutResults h)
    (StartRequest h) (Artifacts h).
Definition set_TotalClientsWithResults (v : Z) (h : t) : t :=
  mk (HuntId h) (CreateTime h) (Expires h) (State h) (ClientRate h)
    (LastUnpauseTime h) (TotalClientsWhenUnpaused h)
    (TotalClientsScheduled h) v
    (TotalClientsWithErrors h) (TotalClientsWithoutResults h)
    (StartRequest h) (Artifacts h).
Definition set_TotalClientsWithErrors (v : Z) (h : t) : t :=
  mk (HuntId h) (CreateTime h) (Expires h) (State h) (ClientRate h)
    (LastUnpauseTime h) (TotalClientsWhenUnpaused h)
    (TotalClientsScheduled h) (TotalClientsWithResults h)
    v (TotalClientsWithoutResults h)
    (StartRequest h) (Artifacts h).
Definition set_TotalClientsWithoutResults (v : Z) (h : t) : t :=
  mk (HuntId h) (CreateTime h) (Expires h) (State h) (ClientRate h)
    (LastUnpauseTime h) (TotalClientsWhenUnpaused h)
    (TotalClientsScheduled h) (TotalClientsWithResults h)
    (TotalClientsWithErrors h) v
    (StartRequest h) (Artifacts h).
Definition set_Artifacts (v : list string) (h : t) : t :=
  mk (HuntId h) (CreateTime h) (Expires h) (State h) (ClientRate h)
    (LastUnpauseTime h) (TotalClientsWhenUnpaused h)
    (TotalClientsScheduled h) (TotalClientsWithResults h)
    (TotalClientsWithErrors h) (TotalClientsWithoutResults h)
    (StartRequest h) v.
End Hunt.

(** What a URN of the datastore can hold. *)
Inductive Subject : Type :=
  | SubjectHunt (h : Hunt.t)
  | SubjectHuntInfo (i : HuntInfo.t).

(** [HuntDispatcher]; the configuration pointer is kept as a flag, the
    configuration itself being the environment below. *)
Record HuntDispatcher : Type := mkHuntDispatcher {
  has_config_obj : bool;
  last_timestamp : Z;
  hunts : list Hunt.t
}.

(** [&HuntDispatcher{}] *)
Definition HuntDispatcher_zero : HuntDispatcher :=
  mkHuntDispatcher false 0 [].

(* ================================================================== *)
(** ** The world outside the hunt code *)

(** Calls that leave the process, in the order they are made. *)
Inductive Event : Type :=
  | EvListChildren (urn : string) (offset length : Z)
  | EvGetSubject (urn : string)
  | EvSetSubject (urn : string) (v : Subject)
  | EvDeleteSubject (urn : string)
  | EvLaunchFlow (client_id flow_name : string) (args : HuntInfo.t)
  | EvNotifyClients
  | EvGetFlowResults (client_id flow_id : string) (offset count : Z)
  | EvLogError (msg : string) (err : option error).

Definition is_store_event (e : Event) : bool :=
  match e with
  | EvListChildren _ _ _ | EvGetSubject _ | EvSetSubject _ _
  | EvDeleteSubject _ => true
  | _ => false
  end.

Definition is_store_write (e : Event) : bool :=
  match e with
  | EvSetSubject _ _ | EvDeleteSubject _ => true
  | _ => false
  end.

(** Everything the code takes from its surroundings: the configuration
    (whether [datastore.GetDB] hands out a datastore), the clock, the
    faults of the datastore per call and URN, the gRPC endpoint, the
    random generator and two constants of package [constants].

    Two functions read the clock twice.  [now_micros] is the reading a
    function takes at its head ([CreateHunt] for the creation time,
    [ModifyHunt] for the unpause time, the scheduler for the rate
    limit); [later_micros] is the second reading further down
    ([CreateHunt] for the expiry, the scheduler for the time of a failed
    launch), by the outside calls made up to that point.  Nothing
    relates the second reading to the first. *)
Record Env : Type := mkEnv {
  GetDB_error : option error;
  now_micros : Z;
  ListChildren_fault : string -> option error;
  GetSubject_fault : string -> option error;
  SetSubject_fault : string -> option error;
  DeleteSubject_fault : string -> option error;
  MarshalAny_fault : HuntInfo.t -> option error;
  LaunchFlow_reply : string -> string -> HuntInfo.t -> error + string;
  GetFlowResults_reply : string -> string -> Z -> Z -> error + list string;
  entropy : list N;
  HUNTS_URN : string;
  FileFinderArtifactName : string;
  later_micros : list Event -> Z
}.

(** The mutable part: the datastore, the published dispatcher
    ([dispatch_container.dispatcher], nil before the first use) and the
    trace of outside calls. *)
Record World : Type := mkWorld {
  store : gmap string Subject;
  dispatcher : option HuntDispatcher;
  trace : list Event
}.

Definition set_store (m : gmap string Subject) (w : World) : World :=
  mkWorld m (dispatcher w) (trace w).
Definition set_dispatcher (d : option HuntDispatcher) (w : World) : World :=
  mkWorld (store w) d (trace w).
Definition emit (e : Event) (w : World) : World :=
  mkWorld (store w) (dispatcher w) (trace w ++ [e]).

(** Outcome of a computation: it returns, it dereferences a nil pointer,
    or the loop it spins in has not left after the given number of
    rounds. *)
Inductive Res (A : Type) : Type :=
  | Ret (a : A) (w : World)
  | Panic
  | OutOfFuel.
Arguments Ret {A} a w.
Arguments Panic {A}.
Arguments OutOfFuel {A}.

Definition M (A : Type) : Type := World -> Res A.

Definition ret {A} (a : A) : M A := fun w => Ret a w.

Definition bind {A B} (m : M A) (k : A -> M B) : M B :=
  fun w =>
    match m w with
    | Ret a w' => k a w'
    | Panic => Panic
    | OutOfFuel => OutOfFuel
    end.

Definition panic {A} : M A := fun _ => Panic.
Definition out_of_fuel {A} : M A := fun _ => OutOfFuel.

Notation "'do' x <- m ; k" := (bind m (fun x => k))
  (at level 10, x name, m at level 100, k at level 200, only parsing).
Notation "'do' ' p <- m ; k" := (bind m (fun x => match x with p => k end))
  (at level 10, p strict pattern, m at level 100, k at level 200,
   only parsing).

Definition get_world : M World := fun w => Ret w w.
Definition modify_world (f : World -> World) : M unit :=
  fun w => Ret tt (f w).

(** [api_proto.ListHuntClientsRequest_Type]: the four values the
    [switch] of [ListHuntClients] names, and any other value of the
    enum. *)
Inductive ListHuntClientsRequest_Type : Type :=
  | ListHuntClientsRequest_PENDING
  | ListHuntClientsRequest_SCHEDULED
  | ListHuntClientsRequest_COMPLETED
  | ListHuntClientsRequest_RESULTS
  | ListHuntClientsRequest_other.

(* ================================================================== *)
(** ** Slices and pages *)

(** The first [n] elements, for a count that is a machine integer. *)
Fixpoint takeZ {A} (n : Z) (l : list A) : list A :=
  match l with
  | [] => []
  | x :: r => if n <=? 0 then [] else x :: takeZ (n - 1) r
  end.

(** All but the first [n] elements. *)
Fixpoint dropZ {A} (n : Z) (l : list A) : list A :=
  match l with
  | [] => []
  | x :: r => if n <=? 0 then l else dropZ (n - 1) r
  end.

Definition lenZ {A} (l : list A) : Z := Z.of_nat (length l).

Definition is_nil {A} (l : list A) : bool :=
  match l with [] => true | _ :: _ => false end.

(** [for _, x := range l { s = body(x, s) }] *)
Fixpoint for_each {A S} (body : A -> S -> M S) (l : list A) (s : S) : M S :=
  match l with
  | [] => ret s
  | x :: r => do s' <- body x s; for_each body r s'
  end.

(** Modelled from the spec: package [urns] is not part of the sources.
    The spec gives a hunt id the shape [hunts/H.<hex>] and fixes
    [aff4:/hunts/H.] as the prefix that ids handed to the result readers
    carry, so [BuildURN] joins its elements with [/] under [aff4:/]. *)
Fixpoint path_Join (elems : list string) : string :=
  match elems with
  | [] => EmptyString
  | [e] => e
  | e :: r => e +:+ "/" +:+ path_Join r
  end.

Definition BuildURN (elems : list string) : string :=
  "aff4:/" +:+ path_Join elems.

(** Modelled from the spec: [constants.HUNT_PREFIX], the [H.] that the
    spec's id format [hunts/H.<hex>] puts before the hex digits. *)
Definition HUNT_PREFIX : string := "H.".

(* ================================================================== *)
(** ** The hunt code *)

Section Hunts.

Variable E : Env.

(** The error of [datastore.GetDB(config_obj)]. *)
Definition GetDB : option error := GetDB_error E.

(** [uint64(time.Now().UTC().UnixNano() / 1000)] *)
Definition now : Z := U64.wrap (now_micros E).

(** [time.Now()] read again further on in a call, in microseconds. *)
Definition time_Now : M Z := fun w => Ret (later_micros E (trace w)) w.

Definition log_error (msg : string) (err : option error) : M unit :=
  modify_world (emit (EvLogError msg err)).

(** *** The datastore

    Modelled from the spec: package [datastore] is not part of the
    sources.  The spec's store contract is "list children under a path
    prefix, paginated", "read object at path", "write object at path",
    "delete object at path", each succeeding or failing on its own.  A
    child of [urn] is a URN [urn/name] with one more path component; a
    page is the listing from [offset] on, cut to [length] entries. *)
Definition is_child (urn k : string) : bool :=
  match strip_prefix urn k with
  | Some (String c name) =>
      is_slash c && negb (string_is_empty name) && negb (has_slash name)
  | _ => false
  end.

Definition children (urn : string) (m : gmap string Subject) : list string :=
  List.filter (is_child urn) (List.map fst (map_to_list m)).

Definition ListChildren (urn : string) (offset length : Z)
  : M (list string * option error) :=
  fun w =>
    let w' := emit (EvListChildren urn offset length) w in
    match ListChildren_fault E urn with
    | Some e => Ret ([], Some e) w'
    | None =>
        Ret (takeZ length (dropZ offset (children urn (store w))), None) w'
    end.

(** [db.GetSubject(config_obj, urn, &api_proto.Hunt{})]: the message read,
    or the untouched zero message and the error. *)
Definition GetSubject_Hunt (urn : string) : M (Hunt.t * option error) :=
  fun w =>
    let w' := emit (EvGetSubject urn) w in
    match GetSubject_fault E urn with
    | Some e => Ret (Hunt.zero, Some e) w'
    | None =>
        match store w !! urn with
        | Some (SubjectHunt h) => Ret (h, None) w'
        | Some (SubjectHuntInfo _) =>
            Ret (Hunt.zero, Some (errors_New "wrong message type")) w'
        | None => Ret (Hunt.zero, Some (errors_New "no such subject")) w'
        end
    end.

(** [db.GetSubject(config_obj, urn, &api_proto.HuntInfo{})] *)
Definition GetSubject_HuntInfo (urn : string)
  : M (HuntInfo.t * option error) :=
  fun w =>
    let w' := emit (EvGetSubject urn) w in
    match GetSubject_fault E urn with
    | Some e => Ret (HuntInfo.zero, Some e) w'
    | None =>
        match store w !! urn with
        | Some (SubjectHuntInfo i) => Ret (i, None) w'
        | Some (SubjectHunt _) =>
            Ret (HuntInfo.zero, Some (errors_New "wrong message type")) w'
        | None =>
            Ret (HuntInfo.zero, Some (errors_New "no such subject")) w'
        end
    end.

Definition SetSubject (urn : string) (v : Subject) : M (option error) :=
  fun w =>
    let w' := emit (EvSetSubject urn v) w in
    match SetSubject_fault E urn with
    | Some e => Ret (Some e) w'
    | None => Ret None (set_store (<[urn := v]> (store w)) w')
    end.

Definition DeleteSubject (urn : string) : M (option error) :=
  fun w =>
    let w' := emit (EvDeleteSubject urn) w in
    match DeleteSubject_fault E urn with
    | Some e => Ret (Some e) w'
    | None => Ret None (set_store (delete urn (store w)) w')
    end.

(** [client.LaunchFlow(ctx, flow_runner_args)] with the summary packed
    as the arguments. *)
Definition LaunchFlow (client_id flow_name : string) (args : HuntInfo.t)
  : M (error + string) :=
  fun w =>
    Ret (LaunchFlow_reply E client_id flow_name args)
      (emit (EvLaunchFlow client_id flow_name args) w).

(** [GetFlowResults], the reader of a flow's result rows. *)
Definition GetFlowResults (client_id flow_id : string) (offset count : Z)
  : M (error + list string) :=
  fun w =>
    Ret (GetFlowResults_reply E client_id flow_id offset count)
      (emit (EvGetFlowResults client_id flow_id offset count) w).

(** The deferred loop of both queue movers:
    [for _, urn := range urns { derr := db.DeleteSubject(urn);
     if derr != nil { err = derr } }]. *)
Definition delete_urn (urn : string) (err : option error)
  : M (option error) :=
  do derr <- DeleteSubject urn;
  ret (match derr with Some e => Some e | None => err end).

Definition delete_all (urns : list string) (err : option error)
  : M (option error) :=
  for_each delete_urn urns err.

(** *** The mirror *)

(** [GetApplicableHunts] returns pointers into the mirror; a pointer is
    the position of the hunt in [self.hunts]. *)
Fixpoint GetApplicableHunts_from (idx : nat) (l : list Hunt.t)
    (last_timestamp : Z) : list (nat * Hunt.t) :=
  match l with
  | [] => []
  | hunt :: r =>
      if last_timestamp <? Hunt.CreateTime hunt
      then (idx, hunt) :: GetApplicableHunts_from (S idx) r last_timestamp
      else GetApplicableHunts_from (S idx) r last_timestamp
  end.

Definition GetApplicableHunts (self : HuntDispatcher) (last_timestamp : Z)
  : list (nat * Hunt.t) :=
  GetApplicableHunts_from 0 (hunts self) last_timestamp.

(** *** Result triage *)

(** The queue an entry of [completed] is filed under. *)
Inductive Queue : Type := QErrors | QResults | QNoResults.

Definition queue_name (q : Queue) : string :=
  match q with
  | QErrors => "/errors/"
  | QResults => "/results/"
  | QNoResults => "/no_results/"
  end.

(** The state the loop of [_SortResultsForHunt] carries: the hunt (a
    pointer, updated in place) and the named results [modified],
    [result_count] and [err]. *)
Definition SortState : Type := (Hunt.t * bool * Z * option error)%type.

(** The [if]/[else if] chain of the loop body; [None] is the final
    [else { continue }]. *)
Definition sort_branch (derr : option error) (summary : HuntInfo.t)
  : option Queue :=
  match derr, HuntInfo.Result summary with
  | Some _, _ => Some QErrors
  | None, None => Some QErrors
  | None, Some result =>
      if bool_decide (FlowContext.State result = FlowContext_ERROR)
      then Some QErrors
      else if 0 <? FlowContext.TotalResults result then Some QResults
      else if FlowContext.TotalResults result =? 0 then Some QNoResults
      else None
  end.

Definition count_in (q : Queue) (hunt : Hunt.t) : Hunt.t :=
  match q with
  | QErrors =>
      Hunt.set_TotalClientsWithErrors
        (U64.add (Hunt.TotalClientsWithErrors hunt) 1) hunt
  | QResults =>
      Hunt.set_TotalClientsWithResults
        (U64.add (Hunt.TotalClientsWithResults hunt) 1) hunt
  | QNoResults =>
      Hunt.set_TotalClientsWithoutResults
        (U64.add (Hunt.TotalClientsWithoutResults hunt) 1) hunt
  end.

Definition _SortResultsForHunt_body (urn : string) (s : SortState)
  : M SortState :=
  let '(hunt, modified, result_count, err) := s in
  do '(summary, derr) <- GetSubject_HuntInfo urn;
  match sort_branch derr summary with
  | None => ret s
  | Some q =>
      let destination :=
        Hunt.HuntId hunt +:+ queue_name q +:+ HuntInfo.ClientId summary in
      let hunt := count_in q hunt in
      let err := match q with QErrors => derr | _ => err end in
      do derr <- SetSubject destination (SubjectHuntInfo summary);
      let err := match derr with Some e => Some e | None => err end in
      ret (hunt, true, result_count + 1, err)
  end.

Definition _SortResultsForHunt (hunt : Hunt.t) : M SortState :=
  match GetDB with
  | Some e => ret (hunt, false, 0, Some e)
  | None =>
      let completed_urn := Hunt.HuntId hunt +:+ "/completed" in
      do '(urns, err) <- ListChildren completed_urn 0 100;
      match err with
      | Some e => ret (hunt, false, 0, Some e)
      | None =>
          if is_nil urns then ret (hunt, false, 0, None)
          else
            do '(hunt, modified, result_count, err) <-
              for_each _SortResultsForHunt_body urns (hunt, false, 0, None);
            do err <- delete_all urns err;
            ret (hunt, modified, result_count, err)
      end
  end.

(** *** The client scheduler *)

Definition client_rate_of (hunt : Hunt.t) : Z :=
  if Hunt.ClientRate hunt =? 0 then 20 else Hunt.ClientRate hunt.

Definition last_unpause_time_of (hunt : Hunt.t) : Z :=
  if Hunt.LastUnpauseTime hunt =? 0 then Hunt.CreateTime hunt
  else Hunt.LastUnpauseTime hunt.

Definition seconds_since_unpause_of (hunt : Hunt.t) : Z :=
  U64.div (U64.sub now (last_unpause_time_of hunt)) 1000000.

Definition expected_clients_of (hunt : Hunt.t) : Z :=
  U64.add
    (U64.div (U64.mul (client_rate_of hunt) (seconds_since_unpause_of hunt)) 60)
    (Hunt.TotalClientsWhenUnpaused hunt).

(** The body of the launch loop; the state is the hunt and the named
    result [modified]. *)
Definition _ScheduleClientsForHunt_body (urn : string) (s : Hunt.t * bool)
  : M (Hunt.t * bool) :=
  let '(hunt, modified) := s in
  do '(summary, err) <- GetSubject_HuntInfo urn;
  match err with
  | Some e => do _ <- log_error "" (Some e); ret s
  | None =>
      match MarshalAny_fault E summary with
      | Some e => do _ <- log_error "" (Some e); ret s
      | None =>
          do response <-
            LaunchFlow (HuntInfo.ClientId summary) "HuntRunnerFlow" summary;
          match response with
          | inl e =>
              do _ <- log_error "Cant launch hunt flow" (Some e);
              let summary := HuntInfo.set_State HuntInfo_ERROR summary in
              do later <- time_Now;
              let summary :=
                HuntInfo.set_Result
                  (Some (FlowContext.mk FlowContext_UNSET 0 (U64.wrap later)
                           ("HuntDispatcher: " +:+ e))) summary in
              let hunt :=
                Hunt.set_TotalClientsWithErrors
                  (U64.add (Hunt.TotalClientsWithErrors hunt) 1) hunt in
              let error_urn :=
                Hunt.HuntId hunt +:+ "/errors/" +:+ HuntInfo.ClientId summary in
              do _ <- SetSubject error_urn (SubjectHuntInfo summary);
              ret (hunt, true)
          | inr flow_id =>
              let summary := HuntInfo.set_FlowId flow_id summary in
              let running_urn :=
                Hunt.HuntId hunt +:+ "/running/" +:+ HuntInfo.ClientId summary in
              do _ <- SetSubject running_urn (SubjectHuntInfo summary);
              let hunt :=
                Hunt.set_TotalClientsScheduled
                  (U64.add (Hunt.TotalClientsScheduled hunt) 1) hunt in
              ret (hunt, true)
          end
      end
  end.

(** The [err] that the list call, the loop and the deferred deletions
    assign is the one declared by [urns, err := ...] inside the [if]
    block; the named result stays nil once [GetDB] has succeeded, so the
    function returns no error after a pull. *)
Definition _ScheduleClientsForHunt (hunt : Hunt.t)
  : M (Hunt.t * bool * option error) :=
  match GetDB with
  | Some e => ret (hunt, false, Some e)
  | None =>
      let expected_clients := expected_clients_of hunt in
      if Hunt.TotalClientsScheduled hunt <? expected_clients then
        let clients_to_get :=
          U64.sub expected_clients (Hunt.TotalClientsScheduled hunt) in
        let pending_urn := Hunt.HuntId hunt +:+ "/pending" in
        do '(urns, err) <- ListChildren pending_urn 0 clients_to_get;
        match err with
        | Some e => ret (hunt, false, Some e)
        | None =>
            if is_nil urns then ret (hunt, false, None)
            else
              do '(hunt, modified) <-
                for_each _ScheduleClientsForHunt_body urns (hunt, false);
              do _ <- delete_all urns None;
              ret (hunt, modified, None)
        end
      else ret (hunt, false, None)
  end.

(** *** Update *)

(** [for { ... }] around [_SortResultsForHunt]: it leaves when a round
    reports no entry, and spins for as long as rounds report some. *)
Fixpoint Update_spin (fuel : nat) (hunt : Hunt.t) (modified : bool)
  : M (Hunt.t * bool) :=
  match fuel with
  | O => out_of_fuel
  | S fuel' =>
      do '(hunt, modified2, result_count, err) <- _SortResultsForHunt hunt;
      do _ <- match err with
              | Some e => log_error "_SortResultsForHunt:" (Some e)
              | None => ret tt
              end;
      if result_count =? 0 then ret (hunt, modified)
      else Update_spin fuel' hunt (if modified2 then true else modified)
  end.

(** The body of the loop of [Update] for one hunt of the mirror. *)
Definition Update_hunt (fuel : nat) (hunt : Hunt.t) : M Hunt.t :=
  if negb (bool_decide (Hunt.State hunt = Hunt_RUNNING)) then ret hunt
  else
    do '(hunt, modified, err) <- _ScheduleClientsForHunt hunt;
    do _ <- match err with
            | Some e => log_error "_ScheduleClientsForHunt:" (Some e)
            | None => ret tt
            end;
    do '(hunt, modified) <- Update_spin fuel hunt modified;
    if modified then
      do err <- SetSubject (Hunt.HuntId hunt) (SubjectHunt hunt);
      do _ <- match err with
              | Some e => log_error "" (Some e)
              | None => ret tt
              end;
      ret hunt
    else ret hunt.

Fixpoint Update_hunts (fuel : nat) (l : list Hunt.t) : M (list Hunt.t) :=
  match l with
  | [] => ret []
  | hunt :: r =>
      do hunt' <- Update_hunt fuel hunt;
      do r' <- Update_hunts fuel r;
      ret (hunt' :: r')
  end.

Definition Update (fuel : nat) (self : HuntDispatcher)
  : M (HuntDispatcher * option error) :=
  match GetDB with
  | Some e => ret (self, Some e)
  | None =>
      do hunts' <- Update_hunts fuel (hunts self);
      ret (mkHuntDispatcher (has_config_obj self) (last_timestamp self) hunts',
           None)
  end.

(** *** Building and publishing the mirror *)

(** The loading loop of [NewHuntDispatcher]; a failed read returns from
    the function. *)
Fixpoint load_hunts (hunt_urns : list string) (acc : list Hunt.t)
  : M (error + list Hunt.t) :=
  match hunt_urns with
  | [] => ret (inr acc)
  | hunt_urn :: r =>
      do '(hunt_obj, err) <- GetSubject_Hunt hunt_urn;
      match err with
      | Some e => ret (inl e)
      | None => load_hunts r (acc ++ [hunt_obj])
      end
  end.

Definition NewHuntDispatcher (fuel : nat) : M (error + HuntDispatcher) :=
  match GetDB with
  | Some e => ret (inl e)
  | None =>
      do '(hunt_urns, err) <- ListChildren (HUNTS_URN E) 0 100;
      match err with
      | Some e => ret (inl e)
      | None =>
          do loaded <- load_hunts hunt_urns [];
          match loaded with
          | inl e => ret (inl e)
          | inr hs =>
              do '(result, err) <- Update fuel (mkHuntDispatcher true 0 hs);
              match err with
              | Some e => ret (inl e)
              | None => ret (inr result)
              end
          end
      end
  end.

(** [HuntDispatcherContainer.Refresh]; the two mutexes order concurrent
    callers and have no effect on one caller. *)
Definition Refresh (fuel : nat) : M unit :=
  do r <- NewHuntDispatcher fuel;
  let dispatcher :=
    match r with
    | inl _ => HuntDispatcher_zero
    | inr d => d
    end in
  modify_world (set_dispatcher (Some dispatcher)).

(** [GetHuntDispatcher]; the goroutine it starts calls [Refresh] every
    ten seconds and is a caller of its own. *)
Definition GetHuntDispatcher (fuel : nat) : M (error + HuntDispatcher) :=
  do w <- get_world;
  match dispatcher w with
  | Some d => ret (inr d)
  | None =>
      do r <- NewHuntDispatcher fuel;
      match r with
      | inl e => do _ <- log_error "" (Some e); ret (inl e)
      | inr d =>
          do _ <- modify_world (set_dispatcher (Some d));
          ret (inr d)
      end
  end.

(** *** The hunt API *)

Definition GetNewHuntId : string :=
  let buf := rand_Read 4 (entropy E) in
  let result := hex_Encode buf in
  BuildURN ["hunts"; HUNT_PREFIX +:+ result].

(** [None] is the nil-pointer dereference of [hunt.StartRequest] or of
    [flow_args.Artifacts]. *)
Definition FindCollectedArtifacts (hunt : Hunt.t) : option Hunt.t :=
  match Hunt.StartRequest hunt with
  | None => None
  | Some start_request =>
      if String.eqb (FlowRunnerArgs.FlowName start_request) "ArtifactCollector"
      then
        match UnmarshalAny_ArtifactCollectorArgs
                (FlowRunnerArgs.Args start_request) with
        | Some flow_args =>
            match ArtifactCollectorArgs.Artifacts flow_args with
            | Some names => Some (Hunt.set_Artifacts names hunt)
            | None => None
            end
        | None => Some hunt
        end
      else if String.eqb (FlowRunnerArgs.FlowName start_request) "FileFinder"
      then Some (Hunt.set_Artifacts [FileFinderArtifactName E] hunt)
      else Some hunt
  end.

Definition seven_days_micros : Z := 7 * 24 * 3600 * 1000000.

Definition CreateHunt (fuel : nat) (hunt : Hunt.t) : M (error + string) :=
  match GetDB with
  | Some e => ret (inl e)
  | None =>
      let hunt := Hunt.set_HuntId GetNewHuntId hunt in
      let hunt := Hunt.set_CreateTime now hunt in
      let hunt := Hunt.set_LastUnpauseTime (Hunt.CreateTime hunt) hunt in
      do hunt <-
        (if Hunt.Expires hunt <? Hunt.CreateTime hunt
         then
           do later <- time_Now;
           ret (Hunt.set_Expires (U64.wrap (later + seven_days_micros)) hunt)
         else ret hunt);
      let hunt :=
        if bool_decide (Hunt.State hunt = Hunt_UNSET)
        then Hunt.set_State Hunt_PAUSED hunt
        else hunt in
      do err <- SetSubject (Hunt.HuntId hunt) (SubjectHunt hunt);
      match err with
      | Some e => ret (inl e)
      | None =>
          do _ <- Refresh fuel;
          do _ <- modify_world (emit EvNotifyClients);
          ret (inr (Hunt.HuntId hunt))
      end
  end.

(** The loop of [ListHunts] over the applicable hunts, [idx] counting
    the iterations. *)
Fixpoint ListHunts_loop (Offset Count : Z) (idx : Z)
    (l : list (nat * Hunt.t)) (Items : list Hunt.t) : list Hunt.t :=
  match l with
  | [] => Items
  | (_, hunt) :: r =>
      if idx <? Offset then ListHunts_loop Offset Count (idx + 1) r Items
      else if U64.add Offset Count <=? idx then Items
      else ListHunts_loop Offset Count (idx + 1) r (Items ++ [hunt])
  end.

Definition ListHunts (fuel : nat) (Offset Count : Z)
  : M (error + list Hunt.t) :=
  do r <- GetHuntDispatcher fuel;
  match r with
  | inl e => ret (inl e)
  | inr dispatcher =>
      ret (inr (ListHunts_loop Offset Count 0
                  (GetApplicableHunts dispatcher 0) []))
  end.

(** The loop of [GetHunt]: the first applicable hunt whose id has the
    base [HuntId], as the pointer and the hunt it points to. *)
Fixpoint GetHunt_loop (HuntId : string) (l : list (nat * Hunt.t))
  : option (nat * Hunt.t) :=
  match l with
  | [] => None
  | (ptr, hunt) :: r =>
      if String.eqb (path_Base (Hunt.HuntId hunt)) HuntId
      then Some (ptr, hunt)
      else GetHunt_loop HuntId r
  end.

(** [FindCollectedArtifacts] writes through the pointer, so the hunt of
    the published mirror changes with the one returned. *)
Definition GetHunt (fuel : nat) (HuntId : string) : M (error + Hunt.t) :=
  do r <- GetHuntDispatcher fuel;
  match r with
  | inl e => ret (inl e)
  | inr d =>
      match GetHunt_loop HuntId (GetApplicableHunts d 0) with
      | Some (ptr, hunt) =>
          match FindCollectedArtifacts hunt with
          | None => panic
          | Some hunt' =>
              do _ <- modify_world (fun w =>
                match dispatcher w with
                | Some d' =>
                    set_dispatcher
                      (Some (mkHuntDispatcher (has_config_obj d')
                               (last_timestamp d')
                               (<[ptr := hunt']> (hunts d')))) w
                | None => w
                end);
              ret (inr hunt')
          end
      | None => ret (inl (errors_New "Not found"))
      end
  end.

Definition hunt_id_prefix : string := "aff4:/hunts/H.".

(** The reading loop of [GetHuntInfos] and [ListHuntClients]: unreadable
    entries are skipped. *)
Definition read_info (urn : string) (Items : list HuntInfo.t)
  : M (list HuntInfo.t) :=
  do '(summary, err) <- GetSubject_HuntInfo urn;
  match err with
  | Some _ => ret Items
  | None => ret (Items ++ [summary])
  end.

Definition GetHuntInfos (HuntId : string) (Offset Count : Z)
  : M (error + list HuntInfo.t) :=
  match GetDB with
  | Some e => ret (inl e)
  | None =>
      let Count := if Count =? 0 then 50 else Count in
      if negb (strings_HasPrefix HuntId hunt_id_prefix)
      then ret (inl (errors_New "Invalid hunt id"))
      else
        do '(client_urns, err) <-
          ListChildren (HuntId +:+ "/results") Offset Count;
        match err with
        | Some e => ret (inl e)
        | None =>
            do Items <- for_each read_info client_urns [];
            ret (inr Items)
        end
  end.

(** The inner loop of [GetHuntResults] over one page of the results
    queue.  It either returns from the function ([inl]) or goes on with
    the running [offset] and the items so far ([inr]). *)
Fixpoint GetHuntResults_page (Offset Count : Z) (client_urns : list string)
    (offset : Z) (Items : list string)
  : M ((error + list string) + (Z * list string)) :=
  match client_urns with
  | [] => ret (inr (offset, Items))
  | urn :: r =>
      do '(hunt_info, err) <- GetSubject_HuntInfo urn;
      match err with
      | Some _ => GetHuntResults_page Offset Count r offset Items
      | None =>
          match HuntInfo.Result hunt_info with
          | None => panic
          | Some result =>
              if U64.add offset (FlowContext.TotalResults result) <? Offset
              then GetHuntResults_page Offset Count r
                     (U64.add offset (FlowContext.TotalResults result)) Items
              else
                let first_result := U64.sub Offset offset in
                let count := U64.sub Count offset in
                do flow_results <-
                  GetFlowResults (HuntInfo.ClientId hunt_info)
                    (HuntInfo.FlowId hunt_info) first_result count;
                match flow_results with
                | inl e => ret (inl (inl e))
                | inr flow_items =>
                    let offset := U64.add offset (lenZ flow_items) in
                    let Items := Items ++ flow_items in
                    if Count <=? lenZ Items then ret (inl (inr Items))
                    else GetHuntResults_page Offset Count r offset Items
                end
          end
      end
  end.

(** The outer [for { ... }] of [GetHuntResults], one page of fifty
    children per round. *)
Fixpoint GetHuntResults_pages (fuel : nat) (HuntId : string)
    (Offset Count : Z) (offset children_offset : Z) (Items : list string)
  : M (error + list string) :=
  match fuel with
  | O => out_of_fuel
  | S fuel' =>
      do '(client_urns, err) <-
        ListChildren (HuntId +:+ "/results") children_offset 50;
      match err with
      | Some e => ret (inl e)
      | None =>
          if is_nil client_urns then ret (inr Items)
          else
            let children_offset :=
              U64.add children_offset (lenZ client_urns) in
            do r <- GetHuntResults_page Offset Count client_urns offset Items;
            match r with
            | inl done => ret done
            | inr (offset, Items) =>
                GetHuntResults_pages fuel' HuntId Offset Count
                  offset children_offset Items
            end
      end
  end.

Definition GetHuntResults (fuel : nat) (HuntId : string) (Offset Count : Z)
  : M (error + list string) :=
  match GetDB with
  | Some e => ret (inl e)
  | None =>
      let Count := if Count =? 0 then 50 else Count in
      if negb (strings_HasPrefix HuntId hunt_id_prefix)
      then ret (inl (errors_New "Invalid hunt id"))
      else GetHuntResults_pages fuel HuntId Offset Count 0 0 []
  end.

Definition ModifyHunt (fuel : nat) (hunt_modification : Hunt.t)
  : M (option error) :=
  match GetDB with
  | Some e => ret (Some e)
  | None =>
      do '(hunt_obj, err) <-
        GetSubject_Hunt (Hunt.HuntId hunt_modification);
      match err with
      | Some e => ret (Some e)
      | None =>
          let modified := false in
          let '(hunt_obj, modified) :=
            if negb (bool_decide (Hunt.State hunt_modification = Hunt_UNSET))
            then
              let hunt_obj :=
                Hunt.set_State (Hunt.State hunt_modification) hunt_obj in
              let modified := true in
              let hunt_obj :=
                if bool_decide (Hunt.State hunt_obj = Hunt_PAUSED)
                   && bool_decide (Hunt.State hunt_modification = Hunt_RUNNING)
                then
                  let hunt_obj := Hunt.set_LastUnpauseTime now hunt_obj in
                  Hunt.set_TotalClientsWhenUnpaused
                    (Hunt.TotalClientsScheduled hunt_obj) hunt_obj
                else hunt_obj in
              (hunt_obj, modified)
            else (hunt_obj, modified) in
          if modified then
            do err <-
              SetSubject (Hunt.HuntId hunt_modification) (SubjectHunt hunt_obj);
            match err with
            | Some e => ret (Some e)
            | None => do _ <- Refresh fuel; ret None
            end
          else ret (Some (errors_New "Modification not supported."))
      end
  end.


(** The [switch] of [ListHuntClients] on the type of the request. *)
Definition ListHuntClients_queue (type : ListHuntClientsRequest_Type)
  : string :=
  match type with
  | ListHuntClientsRequest_PENDING => "/pending"
  | ListHuntClientsRequest_SCHEDULED => "/running"
  | ListHuntClientsRequest_COMPLETED => "/completed"
  | ListHuntClientsRequest_RESULTS => "/results"
  | ListHuntClientsRequest_other => "/pending"
  end.

Definition ListHuntClients (HuntId : string)
    (type : ListHuntClientsRequest_Type) (Offset Count : Z)
  : M (error + list HuntInfo.t) :=
  match GetDB with
  | Some e => ret (inl e)
  | None =>
      let count := if Count =? 0 then 50 else Count in
      let queue := ListHuntClients_queue type in
      do '(children, err) <- ListChildren (HuntId +:+ queue) Offset count;
      match err with
      | Some e => ret (inl e)
      | None =>
          do Items <- for_each read_info children [];
          ret (inr Items)
      end
  end.

End Hunts.

(* ================================================================== *)
(** ** The hunt runner flow

    Modelled from the spec: [AFF4FlowObject], the [Flow] interface and
    [GetFlowArgs] are not part of the sources.  The spec's delegate is
    "a nested task of the type the hunt actually requested", driven
    through its message handler, whose "context afterward shows" whether
    it is still running.  The handler of the nested task is any
    computation on the world that hands back an error or none, and the
    context of the nested task afterwards; [GetFlowArgs] unpacks the
    arguments of a flow into a message, or fails. *)

Module AFF4FlowObject.
Record t : Type := mk {
  Urn : string;
  RunnerArgs : option FlowRunnerArgs.t;
  FlowContext : option FlowContext.t
}.
(** [flow_obj.SetContext(context)] *)
Definition SetContext (v : option FlowContext.t) (o : t) : t :=
  mk (Urn o) (RunnerArgs o) v.
End AFF4FlowObject.

(** A [proto.Message] as [GetFlowArgs] returns it: a [HuntInfo], or a
    message of another type. *)
Inductive Message : Type :=
  | Message_HuntInfo (i : HuntInfo.t)
  | Message_other.

Section HuntRunnerFlow.

Variable E : Env.

(** [self.delegate_flow_obj.impl.ProcessMessage(config_obj,
    self.delegate_flow_obj, message)] for the message at hand, from the
    context of the delegate before to its error and context after. *)
Variable delegate_ProcessMessage :
  option FlowContext.t -> M (option error * option FlowContext.t).

Variable GetFlowArgs : option FlowRunnerArgs.t -> error + Message.

(** [delegate_err != nil ||
     self.delegate_flow_obj.FlowContext.State != FlowContext_RUNNING];
    the right operand, evaluated when there is no error, dereferences
    the context. *)
Definition delegate_finished (delegate_err : option error)
    (context : option FlowContext.t) : M bool :=
  match delegate_err with
  | Some _ => ret true
  | None =>
      match context with
      | None => panic
      | Some c =>
          ret (negb (bool_decide (FlowContext.State c = FlowContext_RUNNING)))
      end
  end.

(** [HuntRunnerFlow.ProcessMessage]: the context of the delegate and the
    flow object afterwards, and the error returned. *)
Definition ProcessMessage (delegate_context : option FlowContext.t)
    (flow_obj : AFF4FlowObject.t)
  : M (option FlowContext.t * AFF4FlowObject.t * option error) :=
  do '(delegate_err, delegate_context) <-
    delegate_ProcessMessage delegate_context;
  do finished <- delegate_finished delegate_err delegate_context;
  if finished then
    match GetFlowArgs (AFF4FlowObject.RunnerArgs flow_obj) with
    | inl e => ret (delegate_context, flow_obj, Some e)
    | inr Message_other => panic
    | inr (Message_HuntInfo hunt_summary_args) =>
        let hunt_summary_args :=
          HuntInfo.set_FlowId (AFF4FlowObject.Urn flow_obj)
            hunt_summary_args in
        let urn :=
          HuntInfo.HuntId hunt_summary_args +:+ "/completed/"
          +:+ HuntInfo.ClientId hunt_summary_args in
        let hunt_summary_args :=
          HuntInfo.set_Result delegate_context hunt_summary_args in
        match GetDB E with
        | Some e => ret (delegate_context, flow_obj, Some e)
        | None =>
            do err <- SetSubject E urn (SubjectHuntInfo hunt_summary_args);
            match err with
            | Some e => ret (delegate_context, flow_obj, Some e)
            | None =>
                ret (delegate_context,
                     AFF4FlowObject.SetContext delegate_context flow_obj,
                     delegate_err)
            end
        end
    end
  else ret (delegate_context, flow_obj, delegate_err).

End HuntRunnerFlow.

(* ================================================================== *)
(** ** What the properties are stated with *)

(** What a computation does to the world, whatever it returns. *)
Definition effect {A} (r : Res A) : Res unit :=
  match r with
  | Ret _ w => Ret tt w
  | Panic => Panic
  | OutOfFuel => OutOfFuel
  end.

(** The world a computation ends in, [default] when it does not
    return. *)
Definition world_after {A} (r : Res A) (default : World) : World :=
  match r with
  | Ret _ w => w
  | _ => default
  end.

(** *** Traces *)

Definition is_list_event (e : Event) : bool :=
  match e with EvListChildren _ _ _ => true | _ => false end.

Definition is_get_event (e : Event) : bool :=
  match e with EvGetSubject _ => true | _ => false end.

Definition is_launch_event (e : Event) : bool :=
  match e with EvLaunchFlow _ _ _ => true | _ => false end.

Definition count_events (p : Event -> bool) (evs : list Event) : Z :=
  lenZ (List.filter p evs).

(** *** Hunt ids *)

Definition is_lower_hex (c : ascii) : bool :=
  existsb (Ascii.eqb c) (list_ascii_of_string hextable).

Fixpoint all_lower_hex (s : string) : bool :=
  match s with
  | EmptyString => true
  | String c r => is_lower_hex c && all_lower_hex r
  end.

(** The shape the claim gives an id: [hunts/H.] and sixteen lower-case
    hex digits, after whatever scheme [BuildURN] puts in front. *)
Definition sixteen_digit_hunt_id (id : string) : Prop :=
  exists scheme digits,
    id = scheme +:+ "hunts/H." +:+ digits /\
    String.length digits = 16%nat /\
    all_lower_hex digits = true.

(** *** The scheduler *)

(** The arithmetic of the spec, over the integers: the rate in clients a
    minute, the whole seconds since the unpause and the number of
    clients that should have been scheduled by [now_micros]. *)
Definition spec_effective_rate (hunt : Hunt.t) : Z :=
  if Hunt.ClientRate hunt =? 0 then 20 else Hunt.ClientRate hunt.

Definition spec_since_unpause_seconds (now_micros : Z) (hunt : Hunt.t) : Z :=
  (now_micros -
   (if Hunt.LastUnpauseTime hunt =? 0 then Hunt.CreateTime hunt
    else Hunt.LastUnpauseTime hunt)) / 1000000.

Definition spec_expected (now_micros : Z) (hunt : Hunt.t) : Z :=
  spec_effective_rate hunt * spec_since_unpause_seconds now_micros hunt / 60
  + Hunt.TotalClientsWhenUnpaused hunt.

(** The fields are [uint64] values, the unpause is not after [now], and
    neither the product nor the sum of the formula leaves [uint64]. *)
Record schedule_in_range (now_micros : Z) (hunt : Hunt.t) : Prop := {
  range_now : U64.in_range now_micros;
  range_rate : U64.in_range (Hunt.ClientRate hunt);
  range_unpause : U64.in_range (Hunt.LastUnpauseTime hunt);
  range_create : U64.in_range (Hunt.CreateTime hunt);
  range_when_unpaused : U64.in_range (Hunt.TotalClientsWhenUnpaused hunt);
  range_scheduled : U64.in_range (Hunt.TotalClientsScheduled hunt);
  range_elapsed :
    (if Hunt.LastUnpauseTime hunt =? 0 then Hunt.CreateTime hunt
     else Hunt.LastUnpauseTime hunt) <= now_micros;
  range_product :
    spec_effective_rate hunt * spec_since_unpause_seconds now_micros hunt
      < U64.modulus;
  range_expected : spec_expected now_micros hunt < U64.modulus
}.

(** *** Result triage *)

#[global] Instance Queue_eq_dec : EqDecision Queue.
Proof. solve_decision. Defined.

(** The counter of the hunt that goes with a queue. *)
Definition queue_counter (q : Queue) (hunt : Hunt.t) : Z :=
  match q with
  | QErrors => Hunt.TotalClientsWithErrors hunt
  | QResults => Hunt.TotalClientsWithResults hunt
  | QNoResults => Hunt.TotalClientsWithoutResults hunt
  end.

(** The URN of a client's record in a queue of a hunt. *)
Definition queue_urn (hunt_id : string) (q : Queue) (client_id : string)
  : string :=
  match q with
  | QErrors => hunt_id +:+ "/errors/" +:+ client_id
  | QResults => hunt_id +:+ "/results/" +:+ client_id
  | QNoResults => hunt_id +:+ "/no_results/" +:+ client_id
  end.

(** The classification of the spec, for the outcome [derr] of reading a
    completed record into [summary]. *)
Inductive triage_class (derr : option error) (summary : HuntInfo.t)
  : Queue -> Prop :=
  | class_errors :
      derr <> None \/ HuntInfo.Result summary = None \/
      (exists r, HuntInfo.Result summary = Some r /\
                 FlowContext.State r = FlowContext_ERROR) ->
      triage_class derr summary QErrors
  | class_results (r : FlowContext.t) :
      derr = None -> HuntInfo.Result summary = Some r ->
      FlowContext.State r <> FlowContext_ERROR ->
      0 < FlowContext.TotalResults r ->
      triage_class derr summary QResults
  | class_no_results (r : FlowContext.t) :
      derr = None -> HuntInfo.Result summary = Some r ->
      FlowContext.State r <> FlowContext_ERROR ->
      FlowContext.TotalResults r = 0 ->
      triage_class derr summary QNoResults.

Definition triaged_total (hunt : Hunt.t) : Z :=
  Hunt.TotalClientsWithErrors hunt + Hunt.TotalClientsWithResults hunt
  + Hunt.TotalClientsWithoutResults hunt.

Definition counters_nonneg (hunt : Hunt.t) : Prop :=
  0 <= Hunt.TotalClientsWithErrors hunt /\
  0 <= Hunt.TotalClientsWithResults hunt /\
  0 <= Hunt.TotalClientsWithoutResults hunt.

Definition counters_le (a b : Hunt.t) : Prop :=
  Hunt.TotalClientsWithErrors a <= Hunt.TotalClientsWithErrors b /\
  Hunt.TotalClientsWithResults a <= Hunt.TotalClientsWithResults b /\
  Hunt.TotalClientsWithoutResults a <= Hunt.TotalClientsWithoutResults b.

(** *** Frames *)

(** The value a computation returns, [default] when it does not
    return. *)
Definition value_after {A} (r : Res A) (default : A) : A :=
  match r with
  | Ret a _ => a
  | _ => default
  end.

(** Two hunts that differ at most in the four counters the scheduler and
    the triage step write. *)
Definition same_but_counters (a b : Hunt.t) : Prop :=
  Hunt.HuntId a = Hunt.HuntId b /\
  Hunt.CreateTime a = Hunt.CreateTime b /\
  Hunt.Expires a = Hunt.Expires b /\
  Hunt.State a = Hunt.State b /\
  Hunt.ClientRate a = Hunt.ClientRate b /\
  Hunt.LastUnpauseTime a = Hunt.LastUnpauseTime b /\
  Hunt.TotalClientsWhenUnpaused a = Hunt.TotalClientsWhenUnpaused b /\
  Hunt.StartRequest a = Hunt.StartRequest b /\
  Hunt.Artifacts a = Hunt.Artifacts b.

(** The queues the scheduler and the triage step write into. *)
Definition is_sink_queue (name : string) : Prop :=
  name = "/errors/" \/ name = "/running/" \/
  name = "/results/" \/ name = "/no_results/".

(** Every stored [HuntInfo] has a result count that is a [uint64]. *)
Definition results_in_range (m : gmap string Subject) : Prop :=
  forall k i r,
    m !! k = Some (SubjectHuntInfo i) ->
    HuntInfo.Result i = Some r ->
    0 <= FlowContext.TotalResults r.

(** A datastore after at most one record was filed under a sink queue
    of the hunt [hunt_id]; the record is as well-formed as the datastore
    was. *)
Definition files_one (hunt_id : string) (m m' : gmap string Subject) : Prop :=
  m' = m \/
  exists name client_id i,
    is_sink_queue name /\
    m' = <[hunt_id +:+ name +:+ client_id := SubjectHuntInfo i]> m /\
    (results_in_range m ->
     forall r, HuntInfo.Result i = Some r -> 0 <= FlowContext.TotalResults r).

(** What filing under sink queues keeps of a datastore, seen from the
    queue [queue_urn]: the number of its children, the presence of every
    URN and the well-formedness of the records. *)
Definition keeps (queue_urn : string) (m m' : gmap string Subject) : Prop :=
  length (children queue_urn m') = length (children queue_urn m) /\
  (forall k, is_Some (m !! k) -> is_Some (m' !! k)) /\
  (results_in_range m -> results_in_range m').

(** What a step that files records and deletes URNs keeps of a
    datastore, seen from one queue: its children do not get more and the
    records stay well-formed. *)
Definition shrinks (queue_urn : string) (m m' : gmap string Subject) : Prop :=
  (length (children queue_urn m') <= length (children queue_urn m))%nat /\
  (results_in_range m -> results_in_range m').

(** No sink queue of the hunt [hunt_id] lies directly under
    [queue_urn]. *)
Definition no_sink_child (queue_urn hunt_id : string) : Prop :=
  forall name client_id,
    is_sink_queue name ->
    is_child queue_urn (hunt_id +:+ name +:+ client_id) = false.


(** The deletions of every child of [queue_urn] go through. *)
Definition deletes_children (E : Env) (queue_urn : string) : Prop :=
  forall urn, is_child queue_urn urn = true -> DeleteSubject_fault E urn = None.

(** The deletion of every child of [queue_urn] is refused. *)
Definition refuses_children (E : Env) (queue_urn : string) : Prop :=
  forall urn, is_child queue_urn urn = true -> DeleteSubject_fault E urn <> None.


(** *** Readers *)

(** The summary a read of [urn] hands out, when it hands one out. *)
Definition readable (E : Env) (m : gmap string Subject) (urn : string)
  : option HuntInfo.t :=
  match GetSubject_fault E urn with
  | Some _ => None
  | None =>
      match m !! urn with
      | Some (SubjectHuntInfo i) => Some i
      | _ => None
      end
  end.

(** [w'] is [w] after some more outside calls, none of which wrote to
    the datastore, with the same datastore and the same mirror. *)
Definition only_read (w w' : World) : Prop :=
  store w' = store w /\
  dispatcher w' = dispatcher w /\
  exists later,
    trace w' = trace w ++ later /\
    forall e, In e later -> is_store_write e = false.


(** *** Relations between the world before and after *)

(** [w'] is [w] after some more outside calls. *)
Definition extends (w w' : World) : Prop :=
  exists later, trace w' = trace w ++ later.

(** Whenever [m] returns, the world it ends in is [R]-related to the
    one it started in. *)
Definition respects {A} (R : World -> World -> Prop) (m : M A) : Prop :=
  forall w a w', m w = Ret a w' -> R w w'.


(** The fields of a hunt that [CreateHunt] takes from its caller as
    they are. *)
Definition same_request (a b : Hunt.t) : Prop :=
  Hunt.ClientRate a = Hunt.ClientRate b /\
  Hunt.TotalClientsWhenUnpaused a = Hunt.TotalClientsWhenUnpaused b /\
  Hunt.TotalClientsScheduled a = Hunt.TotalClientsScheduled b /\
  Hunt.TotalClientsWithResults a = Hunt.TotalClientsWithResults b /\
  Hunt.TotalClientsWithErrors a = Hunt.TotalClientsWithErrors b /\
  Hunt.TotalClientsWithoutResults a = Hunt.TotalClientsWithoutResults b /\
  Hunt.StartRequest a = Hunt.StartRequest b /\
  Hunt.Artifacts a = Hunt.Artifacts b.


(** The hunt a read of [urn] hands out, when it hands one out. *)
Definition readable_hunt (E : Env) (m : gmap string Subject) (urn : string)
  : option Hunt.t :=
  match GetSubject_fault E urn with
  | Some _ => None
  | None =>
      match m !! urn with
      | Some (SubjectHunt h) => Some h
      | _ => None
      end
  end.


(** *** Hex digits read back *)

Definition hex_value (c : ascii) : N :=
  match index 0 (String c EmptyString) hextable with
  | Some i => N.of_nat i
  | None => 0%N
  end.

(** The inverse of [hex_Encode] on strings of digit pairs. *)
Fixpoint hex_Decode_pairs (n : nat) (s : string) : list N :=
  match n, s with
  | S n', String hi (String lo r) =>
      (16 * hex_value hi + hex_value lo)%N :: hex_Decode_pairs n' r
  | _, _ => []
  end.

Definition hex_Decode (s : string) : list N :=
  hex_Decode_pairs (String.length s) s.


Definition is_set_event (e : Event) : bool :=
  match e with EvSetSubject _ _ => true | _ => false end.

(** What one round of the launch loop does to the two counters the
    scheduler moves: nothing, or one more client scheduled, or one more
    client with an error. *)
Inductive launch_outcome (hunt hunt' : Hunt.t) : Z -> Prop :=
  | launch_skipped : hunt' = hunt -> launch_outcome hunt hunt' 0
  | launch_scheduled :
      Hunt.TotalClientsScheduled hunt' =
        U64.add (Hunt.TotalClientsScheduled hunt) 1 ->
      Hunt.TotalClientsWithErrors hunt' = Hunt.TotalClientsWithErrors hunt ->
      launch_outcome hunt hunt' 1
  | launch_failed :
      Hunt.TotalClientsScheduled hunt' = Hunt.TotalClientsScheduled hunt ->
      Hunt.TotalClientsWithErrors hunt' =
        U64.add (Hunt.TotalClientsWithErrors hunt) 1 ->
      launch_outcome hunt hunt' 1.


(** *** The hunt runner flow *)

(** A client id that names one child of a queue: not empty, no slash. *)
Definition plain_name (s : string) : Prop :=
  string_is_empty s = false /\ has_slash s = false.

(** The delegate has failed, or its context shows it is no longer
    running. *)
Definition delegate_done (delegate_err : option error)
    (context : option FlowContext.t) : Prop :=
  delegate_err <> None \/
  exists c, context = Some c /\ FlowContext.State c <> FlowContext_RUNNING.

(** The completion record the hunt runner writes for a flow. *)
Definition completion_record (flow_obj : AFF4FlowObject.t)
    (args : HuntInfo.t) (context : option FlowContext.t) : HuntInfo.t :=
  HuntInfo.set_Result context
    (HuntInfo.set_FlowId (AFF4FlowObject.Urn flow_obj) args).

Definition completion_urn (args : HuntInfo.t) : string :=
  HuntInfo.HuntId args +:+ "/completed/" +:+ HuntInfo.ClientId args.


(** *** The triage, entry by entry *)

(** The classification of a completed record by what reading it gave:
    nothing when the read failed, or the summary. *)
Definition spec_triage_class (read : option HuntInfo.t) : Queue :=
  match read with
  | None => QErrors
  | Some summary =>
      match HuntInfo.Result summary with
      | None => QErrors
      | Some r =>
          if bool_decide (FlowContext.State r = FlowContext_ERROR)
          then QErrors
          else if 0 <? FlowContext.TotalResults r then QResults
          else QNoResults
      end
  end.

(** The summary the triage goes on with: the record read, or the
    zero-valued summary a failed read leaves. *)
Definition summary_read (read : option HuntInfo.t) : HuntInfo.t :=
  match read with
  | Some summary => summary
  | None => HuntInfo.zero
  end.

(** The queue of a hunt that holds the records of a class, as the
    directory of the datastore whose children they are. *)
Definition queue_dir (hunt_id : string) (q : Queue) : string :=
  match q with
  | QErrors => hunt_id +:+ "/errors"
  | QResults => hunt_id +:+ "/results"
  | QNoResults => hunt_id +:+ "/no_results"
  end.

(** Where the record of [urn] is written, and the number of [urns]
    whose record is of class [q]. *)
Definition filed_at (hunt_id : string) (read : string -> option HuntInfo.t)
    (urn : string) : string :=
  queue_urn hunt_id (spec_triage_class (read urn))
    (HuntInfo.ClientId (summary_read (read urn))).

Definition filed (read : string -> option HuntInfo.t) (q : Queue)
    (urns : list string) : Z :=
  lenZ (List.filter
          (fun urn => bool_decide (spec_triage_class (read urn) = q)) urns).

(** One read and one write per entry, in the order of the listing. *)
Definition filing_calls (hunt_id : string)
    (read : string -> option HuntInfo.t) (urns : list string) : list Event :=
  flat_map
    (fun urn =>
       [EvGetSubject urn;
        EvSetSubject (filed_at hunt_id read urn)
          (SubjectHuntInfo (summary_read (read urn)))])
    urns.


(** *** The lookup of [GetHunt] *)

(** The first hunt of the mirror, in its order, with a creation time
    above 0 and a stored id whose last path component is [id]. *)
Definition first_match (id : string) (d : HuntDispatcher) : option Hunt.t :=
  List.find
    (fun g =>
       (0 <? Hunt.CreateTime g) && String.eqb (path_Base (Hunt.HuntId g)) id)
    (hunts d).

(* ================================================================== *)
(** ** Sample environments and worlds

    Concrete inputs on which the theorems below are exercised. *)

Definition no_fault {A} : A -> option error := fun _ => None.

(** A clock that has moved on by a microsecond at the second reading,
    and by one more with every outside call made since. *)
Definition sample_clock (evs : list Event) : Z :=
  1700000000000001 + lenZ evs.

(** A working deployment: the datastore answers, every flow launches. *)
Definition sample_env : Env :=
  mkEnv None 1700000000000000 no_fault no_fault no_fault no_fault no_fault
    (fun client_id _ _ => inr ("F." +:+ client_id))
    (fun _ _ _ _ => inr [])
    [222; 173; 190; 239; 1; 2; 3; 4]%N
    "aff4:/hunts" "FileFinder" sample_clock.

(** The same with eight other bytes after the first four from the
    random generator. *)
Definition sample_env_entropy' : Env :=
  mkEnv None 1700000000000000 no_fault no_fault no_fault no_fault no_fault
    (fun client_id _ _ => inr ("F." +:+ client_id))
    (fun _ _ _ _ => inr [])
    [222; 173; 190; 239; 9; 8; 7; 6]%N
    "aff4:/hunts" "FileFinder" sample_clock.

(** No datastore can be had from the configuration. *)
Definition sample_env_no_db : Env :=
  mkEnv (Some "no datastore") 1700000000000000
    no_fault no_fault no_fault no_fault no_fault
    (fun client_id _ _ => inr ("F." +:+ client_id))
    (fun _ _ _ _ => inr [])
    [] "aff4:/hunts" "FileFinder" sample_clock.

(** The record of client [C.2] cannot be read, the flow of [C.3] cannot
    be launched. *)
Definition sample_env_faulty : Env :=
  mkEnv None 1700000000000000 no_fault
    (fun urn =>
       if String.eqb urn "aff4:/hunts/H.deadbeef/pending/C.2"
       then Some "read failed" else None)
    no_fault no_fault no_fault
    (fun client_id _ _ =>
       if String.eqb client_id "C.3" then inl "launch failed"
       else inr ("F." +:+ client_id))
    (fun _ _ _ _ => inr [])
    [] "aff4:/hunts" "FileFinder" sample_clock.

Definition sample_hunt_id : string := "aff4:/hunts/H.deadbeef".

Definition sample_start_request : FlowRunnerArgs.t :=
  FlowRunnerArgs.mk "" "FileFinder" "" None.

(** A hunt created 10^8 seconds before [now] at 60 clients a minute,
    with five clients scheduled so far. *)
Definition sample_hunt (state : Hunt_State) : Hunt.t :=
  Hunt.mk sample_hunt_id 1600000000000000 0 state 60 1600000000000000
    0 5 0 0 0 (Some sample_start_request) [].

(** A hunt unpaused two seconds before [now], when five clients had been
    scheduled. *)
Definition sample_fresh_hunt : Hunt.t :=
  Hunt.mk sample_hunt_id 1600000000000000 0 Hunt_RUNNING 60 1699999998000000
    5 5 0 0 0 (Some sample_start_request) [].

Definition sample_info (client_id : string) (result : option FlowContext.t)
  : HuntInfo.t :=
  HuntInfo.mk client_id sample_hunt_id "" None HuntInfo_PENDING result.

Definition sample_store (hunt : Hunt.t) : gmap string Subject :=
  <[sample_hunt_id := SubjectHunt hunt]>
  (<["aff4:/hunts/H.deadbeef/pending/C.1" :=
       SubjectHuntInfo (sample_info "C.1" None)]>
  (<["aff4:/hunts/H.deadbeef/pending/C.2" :=
       SubjectHuntInfo (sample_info "C.2" None)]>
  (<["aff4:/hunts/H.deadbeef/pending/C.3" :=
       SubjectHuntInfo (sample_info "C.3" None)]>
  (<["aff4:/hunts/H.deadbeef/completed/C.7" :=
       SubjectHuntInfo
         (sample_info "C.7"
            (Some (FlowContext.mk FlowContext_TERMINATED 4 0 "")))]>
  (<["aff4:/hunts/H.deadbeef/completed/C.8" :=
       SubjectHuntInfo
         (sample_info "C.8"
            (Some (FlowContext.mk FlowContext_TERMINATED 0 0 "")))]>
  (<["aff4:/hunts/H.deadbeef/completed/C.9" :=
       SubjectHuntInfo
         (sample_info "C.9"
            (Some (FlowContext.mk FlowContext_ERROR 0 0 "boom")))]>
   ∅)))))).

(** A world before the first use of the dispatcher. *)
Definition sample_world (hunt : Hunt.t) : World :=
  mkWorld (sample_store hunt) None [].

(** A world with nothing stored and nothing published. *)
Definition sample_world_empty : World := mkWorld ∅ None [].

(** A world with a published mirror of one hunt. *)
Definition sample_world_mirrored (hunt : Hunt.t) : World :=
  mkWorld (sample_store hunt) (Some (mkHuntDispatcher true 0 [hunt])) [].

(** The patch of an unpause request. *)
Definition sample_unpause : Hunt.t :=
  Hunt.set_State Hunt_RUNNING (Hunt.set_HuntId sample_hunt_id Hunt.zero).

(** A mirror of four hunts, created at times 10 to 40. *)
Definition sample_mirror : HuntDispatcher :=
  mkHuntDispatcher true 0
    [Hunt.set_CreateTime 10 Hunt.zero; Hunt.set_CreateTime 20 Hunt.zero;
     Hunt.set_CreateTime 30 Hunt.zero; Hunt.set_CreateTime 40 Hunt.zero].

(** A datastore that answers listings and reads and refuses every write
    and deletion. *)
Definition sample_env_read_only : Env :=
  mkEnv None 1700000000000000 no_fault no_fault
    (fun _ => Some "read-only datastore")
    (fun _ => Some "read-only datastore")
    no_fault
    (fun client_id _ _ => inr ("F." +:+ client_id))
    (fun _ _ _ _ => inr [])
    [] "aff4:/hunts" "FileFinder" sample_clock.


(** The world after one pass of [Update] over the running sample hunt:
    [C.7] is filed under [results]. *)
Definition sample_world_triaged : World :=
  world_after
    (Update_hunt sample_env 2 (sample_hunt Hunt_RUNNING)
       (sample_world (sample_hunt Hunt_RUNNING)))
    sample_world_empty.

(** A datastore with two flows under [results], of [C.5] and [C.7]. *)
Definition sample_store_results : gmap string Subject :=
  <[sample_hunt_id := SubjectHunt (sample_hunt Hunt_RUNNING)]>
  (<["aff4:/hunts/H.deadbeef/results/C.5" :=
       SubjectHuntInfo
         (HuntInfo.mk "C.5" sample_hunt_id "F.C.5" None HuntInfo_PENDING
            (Some (FlowContext.mk FlowContext_TERMINATED 2 0 "")))]>
  (<["aff4:/hunts/H.deadbeef/results/C.7" :=
       SubjectHuntInfo
         (HuntInfo.mk "C.7" sample_hunt_id "F.C.7" None HuntInfo_PENDING
            (Some (FlowContext.mk FlowContext_TERMINATED 4 0 "")))]>
   ∅)).

Definition sample_world_results : World :=
  mkWorld sample_store_results None [].

(** Every flow answers with two rows, whatever rows it is asked for. *)
Definition sample_env_rows : Env :=
  mkEnv None 1700000000000000 no_fault no_fault no_fault no_fault no_fault
    (fun client_id _ _ => inr ("F." +:+ client_id))
    (fun client_id _ _ _ => inr [client_id +:+ "-a"; client_id +:+ "-b"])
    [] "aff4:/hunts" "FileFinder" sample_clock.


(** A datastore whose only record under [results] carries no flow
    context. *)
Definition sample_world_no_context : World :=
  mkWorld
    (<[sample_hunt_id := SubjectHunt (sample_hunt Hunt_RUNNING)]>
     (<["aff4:/hunts/H.deadbeef/results/C.4" :=
          SubjectHuntInfo (sample_info "C.4" None)]> ∅))
    None [].


(** A hunt as a caller hands it to [CreateHunt]: a rate, a start
    request, and a count of scheduled clients the caller made up. *)
Definition sample_new_hunt : Hunt.t :=
  Hunt.mk "" 0 0 Hunt_UNSET 7 0 0 3 0 0 0 (Some sample_start_request) [].


(** The record of the sample hunt cannot be read. *)
Definition sample_env_unreadable_hunt : Env :=
  mkEnv None 1700000000000000 no_fault
    (fun urn =>
       if String.eqb urn sample_hunt_id then Some "read failed" else None)
    no_fault no_fault no_fault
    (fun client_id _ _ => inr ("F." +:+ client_id))
    (fun _ _ _ _ => inr [])
    [] "aff4:/hunts" "FileFinder" sample_clock.


(** A delegate that has just ended with four result rows, and one that
    fails with its flow in an unknown state. *)
Definition sample_delegate_ended
  : option FlowContext.t -> M (option error * option FlowContext.t) :=
  fun _ => ret (None, Some (FlowContext.mk FlowContext_TERMINATED 4 0 "")).

Definition sample_delegate_failing
  : option FlowContext.t -> M (option error * option FlowContext.t) :=
  fun context => ret (Some "delegate failed", context).

Definition sample_flow_obj : AFF4FlowObject.t :=
  AFF4FlowObject.mk "aff4:/C.4/flows/F.1" None None.

Definition sample_GetFlowArgs : option FlowRunnerArgs.t -> error + Message :=
  fun _ => inr (Message_HuntInfo (sample_info "C.4" None)).


(** The completed record of [C.9] cannot be read. *)
Definition sample_env_unreadable_result : Env :=
  mkEnv None 1700000000000000 no_fault
    (fun urn =>
       if String.eqb urn "aff4:/hunts/H.deadbeef/completed/C.9"
       then Some "read failed" else None)
    no_fault no_fault no_fault
    (fun client_id _ _ => inr ("F." +:+ client_id))
    (fun _ _ _ _ => inr [])
    [] "aff4:/hunts" "FileFinder" sample_clock.


(** A stored hunt whose creation time is 0, in a world where nothing is
    published yet. *)
Definition sample_unstamped_hunt : Hunt.t :=
  Hunt.mk "aff4:/hunts/H.00000000" 0 0 Hunt_PAUSED 0 0 0 0 0 0 0
    (Some sample_start_request) [].

Definition sample_world_unstamped : World :=
  mkWorld (<["aff4:/hunts/H.00000000" := SubjectHunt sample_unstamped_hunt]> ∅)
    None [].

(* ================================================================== *)
(** * Properties *)

(** ** [path.Base] and [hex.Encode] on examples *)

Example path_Base_urn : path_Base "aff4:/hunts/H.1234abcd" = "H.1234abcd".
Proof. reflexivity. Qed.

Example path_Base_trailing : path_Base "a/b//" = "b".
Proof. reflexivity. Qed.

Example path_Base_slashes : path_Base "///" = "/".
Proof. reflexivity. Qed.

Example path_Base_empty : path_Base "" = ".".
Proof. reflexivity. Qed.

Example hex_Encode_sample : hex_Encode [222; 173; 190; 239]%N = "deadbeef".
Proof. reflexivity. Qed.


(** ** Machine integers *)

Lemma U64_modulus_pos : 0 < U64.modulus.
Proof. reflexivity. Qed.

Lemma U64_wrap_small (x : Z) : U64.in_range x -> U64.wrap x = x.
Proof. intros H. apply Z.mod_small. exact H. Qed.

Lemma U64_wrap_range (x : Z) : U64.in_range (U64.wrap x).
Proof. apply Z.mod_pos_bound. exact U64_modulus_pos. Qed.

Lemma U64_wrap_le (x : Z) : 0 <= x -> U64.wrap x <= x.
Proof. intros H. apply Z.mod_le; [exact H | exact U64_modulus_pos]. Qed.

Lemma U64_succ_le (x : Z) : 0 <= x -> 0 <= U64.add x 1 <= x + 1.
Proof.
  intros H. unfold U64.add. split.
  - apply U64_wrap_range.
  - apply U64_wrap_le. lia.
Qed.

Lemma U64_succ_small (x : Z) :
  0 <= x -> x + 1 < U64.modulus -> U64.add x 1 = x + 1.
Proof. intros H1 H2. apply U64_wrap_small. unfold U64.in_range. lia. Qed.

(** ** Strings *)

Lemma append_String (x : ascii) (a b : string) :
  String x a +:+ b = String x (a +:+ b).
Proof. reflexivity. Qed.

Lemma append_Empty (b : string) : EmptyString +:+ b = b.
Proof. reflexivity. Qed.

Lemma append_assoc (a b c : string) : (a +:+ b) +:+ c = a +:+ (b +:+ c).
Proof.
  induction a as [|x a IH]; [reflexivity|].
  rewrite !append_String. f_equal. exact IH.
Qed.

Lemma append_inv_head (p a b : string) : p +:+ a = p +:+ b -> a = b.
Proof.
  induction p as [|x p IH]; [now rewrite !append_Empty|].
  rewrite !append_String. intros H. injection H as H. now apply IH.
Qed.

Lemma length_append (a b : string) :
  String.length (a +:+ b) = (String.length a + String.length b)%nat.
Proof.
  induction a as [|x a IH]; [reflexivity|].
  rewrite append_String. simpl. now rewrite IH.
Qed.

Lemma strings_HasPrefix_true (s pre : string) :
  strings_HasPrefix s pre = true <-> exists t, s = pre +:+ t.
Proof.
  revert s. induction pre as [|p pre IH]; intros s; simpl.
  - split; [intros _; now exists s | reflexivity].
  - destruct s as [|c s].
    + split; [discriminate | intros [t Ht]; discriminate].
    + rewrite andb_true_iff, Ascii.eqb_eq, IH. split.
      * intros [-> [t ->]]. now exists t.
      * intros [t Ht]. rewrite append_String in Ht.
        injection Ht as -> ->. split; [reflexivity | now exists t].
Qed.

Lemma strings_HasPrefix_false (s pre : string) :
  strings_HasPrefix s pre = false <-> forall t, s <> pre +:+ t.
Proof.
  split.
  - intros H t Ht.
    assert (strings_HasPrefix s pre = true) as H'
        by (apply strings_HasPrefix_true; now exists t).
    congruence.
  - intros H. destruct (strings_HasPrefix s pre) eqn:Hp; [|reflexivity].
    apply strings_HasPrefix_true in Hp as [t Ht]. now destruct (H t).
Qed.

Lemma strip_prefix_Some (pre s t : string) :
  strip_prefix pre s = Some t <-> s = pre +:+ t.
Proof.
  revert s. induction pre as [|p pre IH]; intros s; simpl.
  - rewrite append_Empty. split; [now intros [= ->] | now intros ->].
  - rewrite append_String. destruct s as [|c s]; [split; discriminate|].
    destruct (Ascii.eqb c p) eqn:Hc.
    + apply Ascii.eqb_eq in Hc as ->. rewrite IH. split.
      * now intros ->.
      * now intros [= ->].
    + split; [discriminate|]. intros [= -> _].
      rewrite Ascii.eqb_refl in Hc. discriminate.
Qed.

Lemma has_slash_after_last_slash (s : string) :
  has_slash (after_last_slash s) = false.
Proof.
  induction s as [|c r IH]; simpl; [reflexivity|].
  destruct (has_slash r) eqn:Hr; [exact IH|].
  destruct (is_slash c) eqn:Hc; [exact Hr|].
  simpl. now rewrite Hc, Hr.
Qed.

(** [path.Base] never yields a slash, except for the lone [/] it makes
    of a path of slashes. *)
Lemma path_Base_slash (p : string) :
  has_slash (path_Base p) = true -> path_Base p = "/".
Proof.
  unfold path_Base. destruct (string_is_empty p); [discriminate|].
  destruct (string_is_empty (after_last_slash (strip_trailing_slashes p)));
    [reflexivity|].
  now rewrite has_slash_after_last_slash.
Qed.

Lemma has_slash_append_l (a b : string) :
  has_slash a = true -> has_slash (a +:+ b) = true.
Proof.
  induction a as [|c a IH]; [discriminate|].
  rewrite append_String. simpl.
  destruct (is_slash c); [reflexivity|]. exact IH.
Qed.

(** ** Pages *)

Lemma takeZ_firstn {A} (n : Z) (l : list A) :
  takeZ n l = firstn (Z.to_nat n) l.
Proof.
  revert n. induction l as [|x r IH]; intros n; simpl.
  - now rewrite firstn_nil.
  - destruct (Z.leb_spec n 0) as [Hn|Hn].
    + now replace (Z.to_nat n) with O by lia.
    + replace (Z.to_nat n) with (S (Z.to_nat (n - 1))) by lia.
      simpl. now rewrite IH.
Qed.

Lemma dropZ_skipn {A} (n : Z) (l : list A) :
  dropZ n l = skipn (Z.to_nat n) l.
Proof.
  revert n. induction l as [|x r IH]; intros n; simpl.
  - now rewrite skipn_nil.
  - destruct (Z.leb_spec n 0) as [Hn|Hn].
    + now replace (Z.to_nat n) with O by lia.
    + replace (Z.to_nat n) with (S (Z.to_nat (n - 1))) by lia.
      simpl. now rewrite IH.
Qed.

Lemma takeZ_length {A} (n : Z) (l : list A) :
  0 <= n -> lenZ (takeZ n l) <= n.
Proof.
  unfold lenZ. revert n. induction l as [|x r IH]; intros n Hn; simpl.
  - exact Hn.
  - destruct (Z.leb_spec n 0) as [H0|H0]; simpl; [exact Hn|].
    specialize (IH (n - 1)). lia.
Qed.

Lemma takeZ_length_le {A} (n : Z) (l : list A) :
  (length (takeZ n l) <= length l)%nat.
Proof.
  revert n. induction l as [|x r IH]; intros n; simpl; [lia|].
  destruct (n <=? 0); simpl; [lia|]. specialize (IH (n - 1)). lia.
Qed.

Lemma takeZ_In {A} (n : Z) (l : list A) (x : A) :
  In x (takeZ n l) -> In x l.
Proof.
  revert n. induction l as [|y r IH]; intros n; simpl; [tauto|].
  destruct (n <=? 0); simpl; [tauto|]. intros [H|H]; [now left|].
  right. now apply (IH (n - 1)).
Qed.

Lemma dropZ_In {A} (n : Z) (l : list A) (x : A) :
  In x (dropZ n l) -> In x l.
Proof.
  revert n. induction l as [|y r IH]; intros n; simpl; [tauto|].
  destruct (n <=? 0); simpl; [tauto|]. intros H.
  right. now apply (IH (n - 1)).
Qed.

Lemma is_nil_true {A} (l : list A) : is_nil l = true <-> l = [].
Proof. destruct l; simpl; split; congruence. Qed.

(* ================================================================== *)
(** ** [ModifyHunt]: the unpause accounting *)

(** Whatever the transition, the hunt [ModifyHunt] persists is the stored
    one with only its [State] replaced: the test for PAUSED reads the
    state after it has been overwritten with the requested one. *)
Lemma ModifyHunt_persists_only_state (E : Env) (fuel : nat)
    (patch h : Hunt.t) (w : World) :
  GetDB E = None ->
  GetSubject_fault E (Hunt.HuntId patch) = None ->
  SetSubject_fault E (Hunt.HuntId patch) = None ->
  store w !! Hunt.HuntId patch = Some (SubjectHunt h) ->
  Hunt.State patch <> Hunt_UNSET ->
  let h' := Hunt.set_State (Hunt.State patch) h in
  ModifyHunt E fuel patch w =
    bind (Refresh E fuel) (fun _ => ret None)
      (set_store (<[Hunt.HuntId patch := SubjectHunt h']> (store w))
         (emit (EvSetSubject (Hunt.HuntId patch) (SubjectHunt h'))
            (emit (EvGetSubject (Hunt.HuntId patch)) w))).
Proof.
  intros Hdb Hget Hset Hst Hun h'.
  unfold ModifyHunt. rewrite Hdb.
  unfold bind at 1. unfold GetSubject_Hunt. rewrite Hget, Hst.
  rewrite bool_decide_eq_false_2 by exact Hun. cbn [negb].
  assert (bool_decide (Hunt.State (Hunt.set_State (Hunt.State patch) h)
                       = Hunt_PAUSED)
          && bool_decide (Hunt.State patch = Hunt_RUNNING) = false) as ->.
  { cbn [Hunt.State Hunt.set_State].
    destruct (Hunt.State patch); reflexivity. }
  unfold bind at 1. unfold SetSubject. rewrite Hset. cbn [store emit].
  reflexivity.
Qed.

(** An unpause of the sample hunt: what is written back is the paused
    hunt with its state set to RUNNING and nothing else changed. *)
Lemma ModifyHunt_persists_only_state_witness :
  let w := sample_world (sample_hunt Hunt_PAUSED) in
  let h' := Hunt.set_State Hunt_RUNNING (sample_hunt Hunt_PAUSED) in
  h' = sample_hunt Hunt_RUNNING /\
  ModifyHunt sample_env 2 sample_unpause w =
    bind (Refresh sample_env 2) (fun _ => ret None)
      (set_store (<[sample_hunt_id := SubjectHunt h']> (store w))
         (emit (EvSetSubject sample_hunt_id (SubjectHunt h'))
            (emit (EvGetSubject sample_hunt_id) w))).
Proof.
  intros w h'. split; [reflexivity|].
  apply (ModifyHunt_persists_only_state sample_env 2 sample_unpause
           (sample_hunt Hunt_PAUSED) w).
  - reflexivity.
  - reflexivity.
  - reflexivity.
  - vm_compute. reflexivity.
  - discriminate.
Defined.

(** C1, at the failing input.  A hunt paused since its creation 10^8
    seconds ago, with five clients scheduled and three pending, is set
    to RUNNING.  The hunt written back keeps the old [LastUnpauseTime]
    and a [TotalClientsWhenUnpaused] of 0 instead of [now] and 5, and the
    refresh that follows asks the pending queue for 99999995 clients and
    schedules all three at once. *)
Example ModifyHunt_unpause_keeps_stale_accounting :
  match ModifyHunt sample_env 2 sample_unpause
          (sample_world (sample_hunt Hunt_PAUSED)) with
  | Ret None w' =>
      nth_error (trace w') 1 =
        Some (EvSetSubject sample_hunt_id
                (SubjectHunt (sample_hunt Hunt_RUNNING))) /\
      Hunt.LastUnpauseTime (sample_hunt Hunt_RUNNING) <> now sample_env /\
      Hunt.TotalClientsWhenUnpaused (sample_hunt Hunt_RUNNING) <>
        Hunt.TotalClientsScheduled (sample_hunt Hunt_PAUSED) /\
      nth_error (trace w') 4 =
        Some (EvListChildren "aff4:/hunts/H.deadbeef/pending" 0 99999995) /\
      match store w' !! sample_hunt_id with
      | Some (SubjectHunt h') =>
          Hunt.LastUnpauseTime h' = 1600000000000000 /\
          Hunt.TotalClientsWhenUnpaused h' = 0 /\
          Hunt.TotalClientsScheduled h' = 8
      | _ => False
      end
  | _ => False
  end.
Proof.
  vm_compute. repeat split; try reflexivity; intros H; discriminate H.
Qed.

(* ================================================================== *)
(** ** [Update]: hunts that are not running *)

Lemma Update_hunt_not_running (E : Env) (fuel : nat) (hunt : Hunt.t)
    (w : World) :
  Hunt.State hunt <> Hunt_RUNNING -> Update_hunt E fuel hunt w = Ret hunt w.
Proof.
  intros H. unfold Update_hunt.
  now rewrite bool_decide_eq_false_2 by exact H.
Qed.

Lemma Update_hunts_skip (E : Env) (fuel : nat) (hunt : Hunt.t) :
  Hunt.State hunt <> Hunt_RUNNING ->
  forall (l : list Hunt.t) (i : nat) (w : World),
    l !! i = Some hunt ->
    effect (Update_hunts E fuel l w) =
      effect (Update_hunts E fuel (delete i l) w) /\
    forall l' w', Update_hunts E fuel l w = Ret l' w' -> l' !! i = Some hunt.
Proof.
  intros Hst. induction l as [|h r IH]; intros i w Hi; [discriminate|].
  destruct i as [|i]; simpl in Hi.
  - injection Hi as ->. cbn [Update_hunts]. unfold bind at 1 3.
    rewrite Update_hunt_not_running by exact Hst. cbn [delete list_delete].
    unfold bind. split.
    + now destruct (Update_hunts E fuel r w).
    + intros l' w'. destruct (Update_hunts E fuel r w); [|discriminate..].
      unfold ret. now intros [= <- _].
  - cbn [delete list_delete Update_hunts]. unfold bind at 1 3 5.
    destruct (Update_hunt E fuel h w) as [h' w1| |];
      [|split; [reflexivity | discriminate]..].
    destruct (IH i w1 Hi) as [IH1 IH2]. unfold bind. split.
    + destruct (Update_hunts E fuel r w1), (Update_hunts E fuel (delete i r) w1);
        simpl in IH1; try discriminate; try reflexivity.
      unfold ret. simpl. congruence.
    + intros l' w'.
      destruct (Update_hunts E fuel r w1) as [r' w2| |]; [|discriminate..].
      unfold ret. intros [= <- <-]. simpl. eapply IH2. reflexivity.
Qed.

(** C5.  A hunt of the mirror whose state is not RUNNING is passed over
    by [Update]: the loop body returns it as it is in an unchanged world
    (no datastore call, so no write), what [Update] does to the world is
    what it does when the hunt is not in the mirror at all, and the hunt,
    with all its counters, is the same in the mirror afterwards. *)
Theorem Update_skips_hunt_not_running (E : Env) (fuel : nat)
    (self : HuntDispatcher) (i : nat) (hunt : Hunt.t) (w : World) :
  hunts self !! i = Some hunt ->
  Hunt.State hunt <> Hunt_RUNNING ->
  Update_hunt E fuel hunt w = Ret hunt w /\
  effect (Update E fuel self w) =
    effect (Update E fuel
              (mkHuntDispatcher (has_config_obj self) (last_timestamp self)
                 (delete i (hunts self))) w) /\
  forall self' err w',
    Update E fuel self w = Ret (self', err) w' ->
    hunts self' !! i = Some hunt.
Proof.
  intros Hi Hst. split; [now apply Update_hunt_not_running|].
  destruct (Update_hunts_skip E fuel hunt Hst (hunts self) i w Hi) as [H1 H2].
  unfold Update. destruct (GetDB E) as [e|].
  - split; [reflexivity|]. unfold ret. now intros self' err w' [= <- _ _].
  - cbn [hunts]. unfold bind. split.
    + destruct (Update_hunts E fuel (hunts self) w),
        (Update_hunts E fuel (delete i (hunts self)) w);
        simpl in H1; try discriminate; try reflexivity.
      unfold ret. simpl. congruence.
    + intros self' err w'.
      destruct (Update_hunts E fuel (hunts self) w) as [l' w1| |];
        [|discriminate..].
      unfold ret. intros [= <- _ <-]. cbn [hunts]. eapply H2. reflexivity.
Qed.

(** A mirror of one paused hunt: [Update] returns it with the world as
    it was. *)
Lemma Update_skips_hunt_not_running_witness :
  let self := mkHuntDispatcher true 0 [sample_hunt Hunt_PAUSED] in
  let w := sample_world (sample_hunt Hunt_PAUSED) in
  Update_hunt sample_env 0 (sample_hunt Hunt_PAUSED) w =
    Ret (sample_hunt Hunt_PAUSED) w /\
  effect (Update sample_env 0 self w) =
    effect (Update sample_env 0 (mkHuntDispatcher true 0 []) w) /\
  forall self' err w',
    Update sample_env 0 self w = Ret (self', err) w' ->
    hunts self' !! 0%nat = Some (sample_hunt Hunt_PAUSED).
Proof.
  intros self w.
  apply (Update_skips_hunt_not_running sample_env 0 self 0
           (sample_hunt Hunt_PAUSED) w).
  - reflexivity.
  - simpl. discriminate.
Defined.

(** When no hunt of the mirror is running, [Update] returns the mirror
    and leaves the world as it found it. *)
Lemma Update_nothing_running (E : Env) (fuel : nat) (self : HuntDispatcher)
    (w : World) :
  Forall (fun h => Hunt.State h <> Hunt_RUNNING) (hunts self) ->
  exists err, Update E fuel self w = Ret (self, err) w.
Proof.
  intros Hall. unfold Update. destruct (GetDB E) as [e|]; [now exists (Some e)|].
  exists None. destruct self as [c t l]. cbn [hunts has_config_obj last_timestamp] in *.
  assert (Update_hunts E fuel l w = Ret l w) as Hl.
  { induction Hall as [|h r Hh Hr IH]; [reflexivity|].
    cbn [Update_hunts]. unfold bind.
    now rewrite Update_hunt_not_running, IH by exact Hh. }
  unfold bind. now rewrite Hl.
Qed.

Lemma Update_nothing_running_witness :
  let w := sample_world (sample_hunt Hunt_STOPPED) in
  let self :=
    mkHuntDispatcher true 0 [sample_hunt Hunt_STOPPED; sample_hunt Hunt_PAUSED] in
  exists err, Update sample_env 0 self w = Ret (self, err) w.
Proof.
  intros w self. apply (Update_nothing_running sample_env 0 self w).
  repeat constructor; discriminate.
Defined.

(* ================================================================== *)
(** ** [Refresh]: a rebuild that fails *)

Lemma GetApplicableHunts_zero (ts : Z) :
  GetApplicableHunts HuntDispatcher_zero ts = [].
Proof. reflexivity. Qed.

(** C9.  When [NewHuntDispatcher] returns an error, [Refresh] returns
    all the same and publishes the empty dispatcher in place of whatever
    was published.  A reader that comes next is handed that dispatcher
    with no error: [ListHunts] answers with no hunt and [GetHunt] with
    its own "Not found", neither with the error of the rebuild. *)
Theorem Refresh_failure_publishes_empty_mirror (E : Env) (fuel : nat)
    (w w1 : World) (e : error) :
  NewHuntDispatcher E fuel w = Ret (inl e) w1 ->
  let w2 := set_dispatcher (Some HuntDispatcher_zero) w1 in
  Refresh E fuel w = Ret tt w2 /\
  dispatcher w2 = Some HuntDispatcher_zero /\
  hunts HuntDispatcher_zero = [] /\
  (forall ts, GetApplicableHunts HuntDispatcher_zero ts = []) /\
  (forall fuel',
      GetHuntDispatcher E fuel' w2 = Ret (inr HuntDispatcher_zero) w2) /\
  (forall fuel' Offset Count,
      ListHunts E fuel' Offset Count w2 = Ret (inr []) w2) /\
  (forall fuel' HuntId,
      GetHunt E fuel' HuntId w2 = Ret (inl (errors_New "Not found")) w2).
Proof.
  intros Hnew w2. split; [|repeat split].
  unfold Refresh, bind. now rewrite Hnew.
Qed.

(** The rebuild fails when no datastore can be had; a mirror holding a
    hunt is then replaced by the empty one. *)
Lemma Refresh_failure_publishes_empty_mirror_witness :
  let w := sample_world_mirrored (sample_hunt Hunt_RUNNING) in
  let w2 := set_dispatcher (Some HuntDispatcher_zero) w in
  NewHuntDispatcher sample_env_no_db 1 w = Ret (inl "no datastore") w /\
  (Refresh sample_env_no_db 1 w = Ret tt w2 /\
   dispatcher w2 = Some HuntDispatcher_zero /\
   hunts HuntDispatcher_zero = [] /\
   (forall ts, GetApplicableHunts HuntDispatcher_zero ts = []) /\
   (forall fuel',
       GetHuntDispatcher sample_env_no_db fuel' w2 =
         Ret (inr HuntDispatcher_zero) w2) /\
   (forall fuel' Offset Count,
       ListHunts sample_env_no_db fuel' Offset Count w2 = Ret (inr []) w2) /\
   (forall fuel' HuntId,
       GetHunt sample_env_no_db fuel' HuntId w2 =
         Ret (inl (errors_New "Not found")) w2)).
Proof.
  intros w w2. split; [reflexivity|].
  apply (Refresh_failure_publishes_empty_mirror sample_env_no_db 1 w w
           "no datastore").
  reflexivity.
Defined.

(** The ways a rebuild fails: no datastore, a listing of the hunts that
    fails, or a hunt that cannot be read. *)
Lemma NewHuntDispatcher_fails_without_db (E : Env) (fuel : nat) (w : World)
    (e : error) :
  GetDB E = Some e -> NewHuntDispatcher E fuel w = Ret (inl e) w.
Proof. intros H. unfold NewHuntDispatcher. now rewrite H. Qed.

Lemma NewHuntDispatcher_fails_on_listing (E : Env) (fuel : nat) (w : World)
    (e : error) :
  GetDB E = None ->
  ListChildren_fault E (HUNTS_URN E) = Some e ->
  NewHuntDispatcher E fuel w =
    Ret (inl e) (emit (EvListChildren (HUNTS_URN E) 0 100) w).
Proof.
  intros H1 H2. unfold NewHuntDispatcher, bind, ListChildren.
  now rewrite H1, H2.
Qed.

(* ================================================================== *)
(** ** The result readers: validation of the hunt id *)

(** C7.  An id that does not start with [aff4:/hunts/H.] makes
    [GetHuntInfos] and [GetHuntResults] return an error in the world as
    it was: the trace has no new call, so nothing was listed or read.
    The error is "Invalid hunt id" whenever a datastore can be had (when
    none can, it is the error of [GetDB], which both ask first).  An id
    with the prefix whose results queue lists no child makes both return
    an empty result and no error, after the one listing. *)
Theorem hunt_result_readers_check_id (E : Env) (fuel : nat)
    (HuntId : string) (Offset Count : Z) (w : World) :
  ((forall t, HuntId <> "aff4:/hunts/H." +:+ t) ->
   exists e,
     GetHuntInfos E HuntId Offset Count w = Ret (inl e) w /\
     GetHuntResults E fuel HuntId Offset Count w = Ret (inl e) w /\
     (GetDB E = None -> e = errors_New "Invalid hunt id")) /\
  ((exists t, HuntId = "aff4:/hunts/H." +:+ t) ->
   GetDB E = None ->
   ListChildren_fault E (HuntId +:+ "/results") = None ->
   children (HuntId +:+ "/results") (store w) = [] ->
   (exists w',
       GetHuntInfos E HuntId Offset Count w = Ret (inr []) w' /\
       store w' = store w /\
       trace w' = trace w ++
         [EvListChildren (HuntId +:+ "/results") Offset
            (if Count =? 0 then 50 else Count)]) /\
   (exists w',
       GetHuntResults E (S fuel) HuntId Offset Count w = Ret (inr []) w' /\
       store w' = store w /\
       trace w' = trace w ++ [EvListChildren (HuntId +:+ "/results") 0 50])).
Proof.
  split.
  - intros Hno. apply strings_HasPrefix_false in Hno.
    unfold GetHuntInfos, GetHuntResults, hunt_id_prefix.
    destruct (GetDB E) as [e|].
    + exists e. repeat split. discriminate.
    + rewrite Hno. now exists (errors_New "Invalid hunt id").
  - intros Hpre Hdb Hlist Hempty. apply strings_HasPrefix_true in Hpre.
    unfold GetHuntInfos, GetHuntResults, hunt_id_prefix.
    rewrite Hdb, Hpre. cbn [negb GetHuntResults_pages].
    unfold bind, ListChildren. rewrite Hlist, Hempty. cbn.
    split; eexists; (split; [reflexivity|]); split; reflexivity.
Qed.

Lemma hunt_result_readers_check_id_witness :
  let w := sample_world (sample_hunt Hunt_RUNNING) in
  (exists e,
      GetHuntInfos sample_env "not-a-hunt-id" 0 10 w = Ret (inl e) w /\
      GetHuntResults sample_env 0 "not-a-hunt-id" 0 10 w = Ret (inl e) w /\
      (GetDB sample_env = None -> e = errors_New "Invalid hunt id")) /\
  ((exists w',
       GetHuntInfos sample_env sample_hunt_id 0 10 w = Ret (inr []) w' /\
       store w' = store w /\
       trace w' = trace w ++
         [EvListChildren (sample_hunt_id +:+ "/results") 0
            (if 10 =? 0 then 50 else 10)]) /\
   (exists w',
       GetHuntResults sample_env 1 sample_hunt_id 0 10 w = Ret (inr []) w' /\
       store w' = store w /\
       trace w' = trace w ++
         [EvListChildren (sample_hunt_id +:+ "/results") 0 50])).
Proof.
  intros w.
  pose proof (hunt_result_readers_check_id sample_env 0 "not-a-hunt-id"
                0 10 w) as [H1 _].
  pose proof (hunt_result_readers_check_id sample_env 0 sample_hunt_id
                0 10 w) as [_ H2].
  split.
  - apply H1. apply strings_HasPrefix_false. reflexivity.
  - apply H2.
    + apply strings_HasPrefix_true. reflexivity.
    + reflexivity.
    + reflexivity.
    + vm_compute. reflexivity.
Defined.

(* ================================================================== *)
(** ** [GetNewHuntId]: the shape of a hunt id *)

Lemma hex_digit_lower (n : N) : is_lower_hex (hex_digit n) = true.
Proof.
  unfold hex_digit. destruct (N.to_nat n) as [|k]; [reflexivity|].
  do 15 (destruct k as [|k]; [reflexivity|]). reflexivity.
Qed.

Lemma hex_Encode_lower (src : list N) : all_lower_hex (hex_Encode src) = true.
Proof.
  induction src as [|b r IH]; [reflexivity|].
  cbn [hex_Encode all_lower_hex]. now rewrite !hex_digit_lower, IH.
Qed.

Lemma hex_Encode_length (src : list N) :
  String.length (hex_Encode src) = (2 * length src)%nat.
Proof.
  induction src as [|b r IH]; [reflexivity|].
  cbn [hex_Encode String.length length]. rewrite IH. lia.
Qed.

Lemma rand_Read_length (n : nat) (stream : list N) :
  length (rand_Read n stream) = n.
Proof.
  revert stream. induction n as [|n IH]; intros stream; [reflexivity|].
  destruct stream; simpl; now rewrite IH.
Qed.

Lemma rand_Read_firstn (n : nat) (s1 s2 : list N) :
  firstn n s1 = firstn n s2 -> rand_Read n s1 = rand_Read n s2.
Proof.
  revert s1 s2. induction n as [|n IH]; intros s1 s2 H; [reflexivity|].
  destruct s1 as [|a s1], s2 as [|b s2]; simpl in *; try discriminate.
  - reflexivity.
  - injection H as -> H. f_equal. now apply IH.
Qed.

(** The hunt [CreateHunt] hands to the datastore, and what follows the
    write. *)
Lemma CreateHunt_runs (E : Env) (fuel : nat) (hunt : Hunt.t) (w : World) :
  GetDB E = None ->
  exists stored,
    CreateHunt E fuel hunt w =
      bind (SetSubject E (GetNewHuntId E) (SubjectHunt stored))
        (fun err =>
           match err with
           | Some e => ret (inl e)
           | None =>
               bind (Refresh E fuel)
                 (fun _ =>
                    bind (modify_world (emit EvNotifyClients))
                      (fun _ => ret (inr (GetNewHuntId E))))
           end) w /\
    Hunt.HuntId stored = GetNewHuntId E /\
    Hunt.CreateTime stored = now E /\
    Hunt.LastUnpauseTime stored = now E /\
    Hunt.State stored =
      (if bool_decide (Hunt.State hunt = Hunt_UNSET) then Hunt_PAUSED
       else Hunt.State hunt) /\
    Hunt.Expires stored =
      (if Hunt.Expires hunt <? now E
       then U64.wrap (later_micros E (trace w) + seven_days_micros)
       else Hunt.Expires hunt) /\
    same_request hunt stored.
Proof.
  intros Hdb. unfold CreateHunt. rewrite Hdb.
  set (h1 := Hunt.set_LastUnpauseTime _ _).
  unfold bind at 1.
  change (Hunt.Expires h1) with (Hunt.Expires hunt).
  change (Hunt.CreateTime h1) with (now E).
  destruct (Hunt.Expires hunt <? now E);
    [unfold bind at 1; unfold time_Now|]; unfold ret at 1;
    match goal with
    | |- context [SetSubject E (Hunt.HuntId ?h) (SubjectHunt ?h)] =>
        exists h
    end;
    subst h1; cbn [Hunt.HuntId Hunt.set_HuntId Hunt.set_CreateTime
                   Hunt.set_LastUnpauseTime Hunt.set_Expires Hunt.State];
    destruct (bool_decide (Hunt.State hunt = Hunt_UNSET)); cbn;
    repeat split.
Qed.

Lemma CreateHunt_returns_new_id (E : Env) (fuel : nat) (hunt : Hunt.t)
    (w w' : World) (id : string) :
  CreateHunt E fuel hunt w = Ret (inr id) w' -> id = GetNewHuntId E.
Proof.
  destruct (GetDB E) as [e|] eqn:Hdb.
  { unfold CreateHunt. rewrite Hdb. discriminate. }
  destruct (CreateHunt_runs E fuel hunt w Hdb) as (stored & -> & _).
  unfold bind.
  destruct (SetSubject E (GetNewHuntId E) (SubjectHunt stored) w)
    as [[e|] w1| |]; try discriminate.
  destruct (Refresh E fuel w1) as [[] w2| |]; try discriminate.
  unfold modify_world, ret. now intros [= <- _].
Qed.

(** C4, as the code has it.  The id [CreateHunt] hands out is the one
    [GetNewHuntId] builds: [aff4:/hunts/H.] followed by eight lower-case
    hex digits, the encoding of the four bytes read from the random
    generator; bytes of the generator past the fourth have no part in
    it. *)
Theorem CreateHunt_id_has_eight_hex_digits (E : Env) (fuel : nat)
    (hunt : Hunt.t) (w w' : World) (id : string) :
  CreateHunt E fuel hunt w = Ret (inr id) w' ->
  id = GetNewHuntId E /\
  (exists digits,
      id = "aff4:/hunts/H." +:+ digits /\
      digits = hex_Encode (rand_Read 4 (entropy E)) /\
      length (rand_Read 4 (entropy E)) = 4%nat /\
      String.length digits = 8%nat /\
      all_lower_hex digits = true) /\
  (forall E',
      firstn 4 (entropy E') = firstn 4 (entropy E) ->
      GetNewHuntId E' = id).
Proof.
  intros H. apply CreateHunt_returns_new_id in H. subst id.
  split; [reflexivity|]. split.
  - exists (hex_Encode (rand_Read 4 (entropy E))).
    repeat split.
    + apply rand_Read_length.
    + now rewrite hex_Encode_length, rand_Read_length.
    + apply hex_Encode_lower.
  - intros E' HE. unfold GetNewHuntId.
    now rewrite (rand_Read_firstn 4 _ _ HE).
Qed.

Lemma CreateHunt_id_has_eight_hex_digits_witness :
  let id := "aff4:/hunts/H.deadbeef" in
  id = GetNewHuntId sample_env /\
  (exists digits,
      id = "aff4:/hunts/H." +:+ digits /\
      digits = hex_Encode (rand_Read 4 (entropy sample_env)) /\
      length (rand_Read 4 (entropy sample_env)) = 4%nat /\
      String.length digits = 8%nat /\
      all_lower_hex digits = true) /\
  (forall E',
      firstn 4 (entropy E') = firstn 4 (entropy sample_env) ->
      GetNewHuntId E' = id).
Proof.
  intros id.
  apply (CreateHunt_id_has_eight_hex_digits sample_env 1 Hunt.zero
           sample_world_empty
           (world_after (CreateHunt sample_env 1 Hunt.zero sample_world_empty)
              sample_world_empty)
           id).
  vm_compute. reflexivity.
Defined.

(** C4, as the claim has it, fails: with the generator yielding
    [de ad be ef 01 02 03 04] the id is [aff4:/hunts/H.deadbeef], which
    has eight digits and not sixteen, and it is the same when the fifth
    to eighth bytes are others. *)
Lemma GetNewHuntId_not_sixteen_digits :
  GetNewHuntId sample_env = "aff4:/hunts/H.deadbeef" /\
  ~ sixteen_digit_hunt_id (GetNewHuntId sample_env) /\
  firstn 8 (entropy sample_env_entropy') <> firstn 8 (entropy sample_env) /\
  GetNewHuntId sample_env_entropy' = GetNewHuntId sample_env.
Proof.
  split; [reflexivity|]. split; [|split; [discriminate | reflexivity]].
  intros (scheme & digits & Hid & Hlen & _).
  apply (f_equal String.length) in Hid.
  rewrite !length_append, Hlen in Hid.
  change (String.length (GetNewHuntId sample_env)) with 22%nat in Hid.
  change (String.length "hunts/H.") with 8%nat in Hid. lia.
Qed.

(* ================================================================== *)
(** ** [ListHunts]: pages of the applicable hunts *)

Lemma GetApplicableHunts_from_filter (idx : nat) (l : list Hunt.t) (ts : Z) :
  List.map snd (GetApplicableHunts_from idx l ts) =
    List.filter (fun h => ts <? Hunt.CreateTime h) l.
Proof.
  revert idx. induction l as [|h r IH]; intros idx; [reflexivity|].
  cbn [GetApplicableHunts_from List.filter].
  destruct (ts <? Hunt.CreateTime h); cbn [List.map snd]; now rewrite IH.
Qed.

Lemma GetApplicableHunts_from_lookup (idx : nat) (l : list Hunt.t) (ts : Z)
    (ptr : nat) (h : Hunt.t) :
  In (ptr, h) (GetApplicableHunts_from idx l ts) ->
  (idx <= ptr)%nat /\ l !! (ptr - idx)%nat = Some h.
Proof.
  revert idx. induction l as [|x r IH]; intros idx; [intros []|].
  cbn [GetApplicableHunts_from].
  assert (In (ptr, h) (GetApplicableHunts_from (S idx) r ts) ->
          (idx <= ptr)%nat /\ (x :: r) !! (ptr - idx)%nat = Some h) as Hrest.
  { intros H. apply IH in H as [H1 H2]. split; [lia|].
    replace (ptr - idx)%nat with (S (ptr - S idx)) by lia. exact H2. }
  destruct (ts <? Hunt.CreateTime x); [|exact Hrest].
  intros [[= <- <-]|H]; [|now apply Hrest].
  split; [lia|]. now rewrite Nat.sub_diag.
Qed.

(** The loop of [ListHunts], before and from the offset, when
    [Offset + Count] does not wrap. *)
Lemma ListHunts_loop_from (Offset Count : Z) (l : list (nat * Hunt.t)) :
  0 <= Offset -> 0 <= Count -> Offset + Count < U64.modulus ->
  forall idx Items,
    Offset <= idx ->
    ListHunts_loop Offset Count idx l Items =
      Items ++ takeZ (Offset + Count - idx) (List.map snd l).
Proof.
  intros HO HC Hsum. unfold U64.modulus in Hsum.
  induction l as [|[p h] r IH]; intros idx Items Hidx.
  - cbn. now rewrite app_nil_r.
  - cbn [ListHunts_loop List.map snd takeZ].
    assert (U64.add Offset Count = Offset + Count) as ->.
    { apply U64_wrap_small. unfold U64.in_range, U64.modulus. lia. }
    destruct (Z.ltb_spec idx Offset) as [H|_]; [lia|].
    destruct (Z.leb_spec (Offset + Count) idx) as [H1|H1];
      destruct (Z.leb_spec (Offset + Count - idx) 0) as [H2|H2]; try lia.
    + now rewrite app_nil_r.
    + rewrite IH by lia. rewrite <- app_assoc. cbn [app].
      now replace (Offset + Count - (idx + 1)) with (Offset + Count - idx - 1)
        by lia.
Qed.

Lemma ListHunts_loop_before (Offset Count : Z) (l : list (nat * Hunt.t)) :
  0 <= Offset -> 0 <= Count -> Offset + Count < U64.modulus ->
  forall idx Items,
    idx <= Offset ->
    ListHunts_loop Offset Count idx l Items =
      Items ++ takeZ Count (dropZ (Offset - idx) (List.map snd l)).
Proof.
  intros HO HC Hsum. induction l as [|[p h] r IH]; intros idx Items Hidx.
  - cbn. now rewrite app_nil_r.
  - destruct (Z.eq_dec idx Offset) as [->|Hne].
    + rewrite ListHunts_loop_from by lia.
      replace (Offset + Count - Offset) with Count by lia.
      now rewrite Z.sub_diag.
    + cbn [ListHunts_loop List.map snd dropZ].
      destruct (Z.ltb_spec idx Offset) as [_|H]; [|lia].
      destruct (Z.leb_spec (Offset - idx) 0) as [H|_]; [lia|].
      rewrite IH by lia.
      now replace (Offset - (idx + 1)) with (Offset - idx - 1) by lia.
Qed.

Lemma filter_stamped (l : list Hunt.t) :
  Forall (fun h => 0 < Hunt.CreateTime h) l ->
  List.filter (fun h => 0 <? Hunt.CreateTime h) l = l.
Proof.
  induction 1 as [|h r Hh Hr IH]; [reflexivity|].
  cbn [List.filter]. apply Z.ltb_lt in Hh. now rewrite Hh, IH.
Qed.

(** When [Offset + Count] wraps, the sum falls below [Offset] and the
    loop leaves at the first hunt it would take. *)
Lemma ListHunts_loop_wrapped (Offset Count : Z) (l : list (nat * Hunt.t)) :
  U64.add Offset Count < Offset ->
  forall idx Items, ListHunts_loop Offset Count idx l Items = Items.
Proof.
  intros Hw. induction l as [|[p h] r IH]; intros idx Items; [reflexivity|].
  cbn [ListHunts_loop].
  destruct (Z.ltb_spec idx Offset) as [H|H]; [apply IH|].
  destruct (Z.leb_spec (U64.add Offset Count) idx) as [H1|H1];
    [reflexivity | lia].
Qed.

Lemma U64_add_wrapped (a b : Z) :
  U64.in_range a -> U64.in_range b -> U64.modulus <= a + b ->
  U64.add a b < a.
Proof.
  unfold U64.in_range, U64.add, U64.wrap. intros Ha Hb Hab.
  replace (a + b) with ((a + b - U64.modulus) + 1 * U64.modulus) by lia.
  rewrite Z_mod_plus_full, Z.mod_small; lia.
Qed.

Lemma In_firstn {A} (n : nat) (l : list A) (x : A) :
  In x (firstn n l) -> In x l.
Proof.
  intros H. rewrite <- (firstn_skipn n l). apply in_or_app. now left.
Qed.

Lemma In_skipn {A} (n : nat) (l : list A) (x : A) :
  In x (skipn n l) -> In x l.
Proof.
  intros H. rewrite <- (firstn_skipn n l). apply in_or_app. now right.
Qed.

Lemma filter_all_iff {A} (f : A -> bool) (l : list A) :
  List.filter f l = l <-> Forall (fun x => f x = true) l.
Proof.
  split.
  - intros H. apply List.Forall_forall. intros x Hx. rewrite <- H in Hx.
    now apply filter_In in Hx.
  - induction 1 as [|x r Hx Hr IH]; [reflexivity|].
    cbn [List.filter]. now rewrite Hx, IH.
Qed.

(** C8.  [ListHunts] reads the mirror [GetHuntDispatcher] hands out and
    answers with hunts whose creation time exceeds the watermark, which
    it sets to 0: at most [Count] of them, consecutive from position
    [Offset] in the order of the mirror, and exactly the page of [Count]
    from [Offset] unless [Offset + Count] leaves [uint64].  A mirrored
    hunt is eligible at a watermark exactly when its creation time is
    above it: at watermark 0 the hunts with a creation time other than
    0 are eligible, a hunt whose creation time is 0 is in no answer, and
    the mirror is eligible as a whole exactly when every hunt of it has
    its creation time set. *)
Theorem ListHunts_pages_applicable_hunts (E : Env) (fuel : nat)
    (Offset Count : Z) (w w' : World) (d : HuntDispatcher) :
  GetHuntDispatcher E fuel w = Ret (inr d) w' ->
  U64.in_range Offset -> U64.in_range Count ->
  let eligible ts := List.filter (fun h => ts <? Hunt.CreateTime h) (hunts d) in
  let from_offset := skipn (Z.to_nat Offset) (eligible 0) in
  (forall ts, List.map snd (GetApplicableHunts d ts) = eligible ts) /\
  (exists Items,
      ListHunts E fuel Offset Count w = Ret (inr Items) w' /\
      (exists n, (n <= Z.to_nat Count)%nat /\ Items = firstn n from_offset) /\
      (Offset + Count < U64.modulus ->
       Items = firstn (Z.to_nat Count) from_offset) /\
      (forall h, In h Items -> In h (hunts d) /\ 0 < Hunt.CreateTime h)) /\
  (forall ts h, In h (eligible ts) <-> In h (hunts d) /\ ts < Hunt.CreateTime h) /\
  (eligible 0 = hunts d <-> Forall (fun h => 0 < Hunt.CreateTime h) (hunts d)).
Proof.
  intros Hd HO HC eligible from_offset.
  assert (forall ts, List.map snd (GetApplicableHunts d ts) = eligible ts)
    as Happ by (intros ts; apply GetApplicableHunts_from_filter).
  assert (forall ts h,
            In h (eligible ts) <-> In h (hunts d) /\ ts < Hunt.CreateTime h)
    as Hel.
  { intros ts h. unfold eligible. rewrite filter_In, Z.ltb_lt. reflexivity. }
  split; [exact Happ|]. split; [|split; [exact Hel|]].
  - unfold ListHunts, bind. rewrite Hd. unfold ret.
    eexists. split; [reflexivity|].
    unfold U64.in_range in HO, HC.
    assert (forall n h, In h (firstn n from_offset) ->
                        In h (hunts d) /\ 0 < Hunt.CreateTime h) as Hsub.
    { intros n h Hh. apply Hel.
      eapply In_skipn, In_firstn, Hh. }
    destruct (Z.lt_ge_cases (Offset + Count) U64.modulus) as [Hsum|Hsum].
    + assert (ListHunts_loop Offset Count 0 (GetApplicableHunts d 0) [] =
              firstn (Z.to_nat Count) from_offset) as ->.
      { rewrite ListHunts_loop_before by lia.
        now rewrite Happ, Z.sub_0_r, takeZ_firstn, dropZ_skipn. }
      split; [now exists (Z.to_nat Count)|]. split; [reflexivity|].
      apply Hsub.
    + rewrite ListHunts_loop_wrapped by now apply U64_add_wrapped.
      split; [exists O; split; [lia | reflexivity]|]. split; [lia|].
      intros h [].
  - unfold eligible. rewrite filter_all_iff. apply Forall_iff.
    intros h. apply Z.ltb_lt.
Qed.

(** The second and third of four mirrored hunts. *)
Lemma ListHunts_pages_applicable_hunts_witness :
  let w := mkWorld ∅ (Some sample_mirror) [] in
  let eligible ts :=
    List.filter (fun h => ts <? Hunt.CreateTime h) (hunts sample_mirror) in
  let from_offset := skipn (Z.to_nat 1) (eligible 0) in
  firstn (Z.to_nat 2) from_offset =
    [Hunt.set_CreateTime 20 Hunt.zero; Hunt.set_CreateTime 30 Hunt.zero] /\
  ((forall ts, List.map snd (GetApplicableHunts sample_mirror ts) = eligible ts) /\
   (exists Items,
       ListHunts sample_env 0 1 2 w = Ret (inr Items) w /\
       (exists n, (n <= Z.to_nat 2)%nat /\ Items = firstn n from_offset) /\
       (1 + 2 < U64.modulus -> Items = firstn (Z.to_nat 2) from_offset) /\
       (forall h, In h Items ->
                  In h (hunts sample_mirror) /\ 0 < Hunt.CreateTime h)) /\
   (forall ts h, In h (eligible ts) <->
                 In h (hunts sample_mirror) /\ ts < Hunt.CreateTime h) /\
   (eligible 0 = hunts sample_mirror <->
    Forall (fun h => 0 < Hunt.CreateTime h) (hunts sample_mirror))).
Proof.
  intros w eligible from_offset. split; [reflexivity|].
  apply (ListHunts_pages_applicable_hunts sample_env 0 1 2 w w sample_mirror).
  - reflexivity.
  - unfold U64.in_range, U64.modulus. lia.
  - unfold U64.in_range, U64.modulus. lia.
Defined.

(** C8 as the claim has it fails on a hunt whose creation time is 0:
    the mirror built from the datastore holds it, and [ListHunts], at
    its watermark 0, answers with no hunt. *)
Lemma ListHunts_skips_hunt_created_at_zero :
  match GetHuntDispatcher sample_env 1 sample_world_unstamped with
  | Ret (inr d) w' =>
      hunts d = [sample_unstamped_hunt] /\
      Hunt.CreateTime sample_unstamped_hunt = 0 /\
      GetApplicableHunts d 0 = [] /\
      ListHunts sample_env 1 0 10 sample_world_unstamped = Ret (inr []) w'
  | _ => False
  end.
Proof. vm_compute. repeat split. Qed.

(* ================================================================== *)
(** ** [GetHunt]: lookup by the base of the id *)

Lemma GetHunt_loop_Some (id : string) (l : list (nat * Hunt.t)) (ptr : nat)
    (g : Hunt.t) :
  GetHunt_loop id l = Some (ptr, g) ->
  In (ptr, g) l /\ path_Base (Hunt.HuntId g) = id.
Proof.
  induction l as [|[p h] r IH]; [discriminate|]. cbn [GetHunt_loop].
  destruct (String.eqb (path_Base (Hunt.HuntId h)) id) eqn:Hb.
  - intros [= <- <-]. apply String.eqb_eq in Hb. split; [now left | exact Hb].
  - intros H. apply IH in H as [H1 H2]. split; [now right | exact H2].
Qed.

Lemma GetHunt_loop_In (l : list (nat * Hunt.t)) (ptr : nat) (h : Hunt.t) :
  In (ptr, h) l ->
  exists p g, GetHunt_loop (path_Base (Hunt.HuntId h)) l = Some (p, g).
Proof.
  induction l as [|[p x] r IH]; [intros []|]. cbn [GetHunt_loop].
  destruct (String.eqb (path_Base (Hunt.HuntId x))
              (path_Base (Hunt.HuntId h))) eqn:Hb; [now eauto|].
  intros [[= -> ->]|H]; [|now apply IH].
  now rewrite String.eqb_refl in Hb.
Qed.

(** An id with a slash in it, other than [/] itself, is the base of no
    path. *)
Lemma GetHunt_loop_full_id (id : string) (l : list (nat * Hunt.t)) :
  has_slash id = true -> id <> "/" -> GetHunt_loop id l = None.
Proof.
  intros Hs Hne. induction l as [|[p h] r IH]; [reflexivity|].
  cbn [GetHunt_loop].
  destruct (String.eqb (path_Base (Hunt.HuntId h)) id) eqn:Hb; [|exact IH].
  apply String.eqb_eq in Hb. destruct Hne. rewrite <- Hb.
  apply path_Base_slash. now rewrite Hb.
Qed.

Lemma FindCollectedArtifacts_HuntId (E : Env) (h h' : Hunt.t) :
  FindCollectedArtifacts E h = Some h' -> Hunt.HuntId h' = Hunt.HuntId h.
Proof.
  unfold FindCollectedArtifacts. repeat case_match; try discriminate;
    now intros [= <-].
Qed.

Lemma In_GetApplicableHunts (d : HuntDispatcher) (ts : Z) (ptr : nat)
    (h : Hunt.t) :
  In (ptr, h) (GetApplicableHunts d ts) -> In h (hunts d).
Proof.
  intros H. apply (in_map snd) in H. cbn [snd] in H.
  unfold GetApplicableHunts in H.
  rewrite GetApplicableHunts_from_filter in H. now apply filter_In in H.
Qed.

Lemma GetHunt_loop_find (id : string) (l : list Hunt.t) :
  forall idx,
    option_map snd (GetHunt_loop id (GetApplicableHunts_from idx l 0)) =
      List.find
        (fun g =>
           (0 <? Hunt.CreateTime g)
           && String.eqb (path_Base (Hunt.HuntId g)) id) l.
Proof.
  induction l as [|x r IH]; intros idx; [reflexivity|].
  cbn [GetApplicableHunts_from List.find].
  destruct (0 <? Hunt.CreateTime x); cbn [andb]; [|apply IH].
  cbn [GetHunt_loop].
  destruct (String.eqb (path_Base (Hunt.HuntId x)) id); [reflexivity|].
  apply IH.
Qed.

(** What [GetHunt] does once the mirror is at hand, by the first match
    of the id. *)
Lemma GetHunt_by_first_match (E : Env) (fuel : nat) (w w1 : World)
    (d : HuntDispatcher) (id : string) :
  GetHuntDispatcher E fuel w = Ret (inr d) w1 ->
  match first_match id d with
  | None => GetHunt E fuel id w = Ret (inl (errors_New "Not found")) w1
  | Some g =>
      match FindCollectedArtifacts E g with
      | None => GetHunt E fuel id w = Panic
      | Some g' =>
          exists w',
            GetHunt E fuel id w = Ret (inr g') w' /\
            path_Base (Hunt.HuntId g') = id /\
            store w' = store w1 /\ trace w' = trace w1
      end
  end.
Proof.
  intros Hd. unfold first_match, GetHunt, bind. rewrite Hd.
  rewrite <- (GetHunt_loop_find id (hunts d) 0).
  fold (GetApplicableHunts d 0).
  destruct (GetHunt_loop id (GetApplicableHunts d 0)) as [[ptr g]|] eqn:Hl;
    cbn [option_map snd]; [|reflexivity].
  apply GetHunt_loop_Some in Hl as [_ Hb].
  destruct (FindCollectedArtifacts E g) as [g'|] eqn:Hf; [|reflexivity].
  unfold modify_world, ret. eexists. split; [reflexivity|].
  split; [now rewrite (FindCollectedArtifacts_HuntId E g g' Hf)|].
  now destruct (dispatcher w1).
Qed.




(* ================================================================== *)
(** ** The datastore and the loops over listed URNs *)

Lemma count_events_app (p : Event -> bool) (a b : list Event) :
  count_events p (a ++ b) = count_events p a + count_events p b.
Proof.
  unfold count_events, lenZ. rewrite List.filter_app, length_app. lia.
Qed.

Lemma count_events_nonneg (p : Event -> bool) (evs : list Event) :
  0 <= count_events p evs.
Proof. unfold count_events, lenZ. lia. Qed.

Lemma In_children (urn k : string) (m : gmap string Subject) :
  In k (children urn m) -> is_Some (m !! k).
Proof.
  unfold children. intros H. apply filter_In in H as [H _].
  apply in_map_iff in H as [[k' v] [Hk H]]. cbn in Hk. subst k'.
  apply list_elem_of_In, elem_of_map_to_list in H. now exists v.
Qed.

Lemma for_each_returns {A S} (body : A -> S -> M S) :
  (forall x s w, exists s' w', body x s w = Ret s' w') ->
  forall l s w, exists s' w', for_each body l s w = Ret s' w'.
Proof.
  intros Hbody. induction l as [|x r IH]; intros s w.
  - now exists s, w.
  - destruct (Hbody x s w) as (s1 & w1 & H1).
    destruct (IH s1 w1) as (s2 & w2 & H2).
    exists s2, w2. cbn [for_each]. unfold bind. now rewrite H1.
Qed.

(** The deferred deletions: every listed URN is asked to be deleted, in
    order; the ones whose deletion does not fail are gone afterwards,
    and nothing is added. *)
Lemma delete_all_spec (E : Env) (urns : list string) :
  forall (err : option error) (w : World),
  exists err' w',
    delete_all E urns err w = Ret err' w' /\
    trace w' = trace w ++ List.map EvDeleteSubject urns /\
    dispatcher w' = dispatcher w /\
    (forall k, store w !! k = None -> store w' !! k = None) /\
    (forall urn, In urn urns -> DeleteSubject_fault E urn = None ->
                 store w' !! urn = None) /\
    ((forall urn, In urn urns -> DeleteSubject_fault E urn = None) ->
     err' = err).
Proof.
  unfold delete_all. induction urns as [|x r IH]; intros err w.
  - exists err, w. cbn. rewrite app_nil_r. repeat split; auto. intros _ [].
  - cbn [for_each]. unfold bind at 1. unfold delete_urn, bind, DeleteSubject.
    destruct (DeleteSubject_fault E x) as [e|] eqn:Hx; unfold ret.
    + destruct (IH (Some e) (emit (EvDeleteSubject x) w))
        as (err' & w' & H1 & H2 & H3 & H4 & H5 & H6).
      exists err', w'. split; [exact H1|]. split; [|split; [|split; [|split]]].
      * rewrite H2. cbn. now rewrite <- app_assoc.
      * exact H3.
      * exact H4.
      * intros urn [<-|Hin] Hf; [congruence|]. now apply H5.
      * intros Hall. rewrite (Hall x) in Hx by now left. discriminate.
    + destruct (IH err (set_store (delete x (store w))
                          (emit (EvDeleteSubject x) w)))
        as (err' & w' & H1 & H2 & H3 & H4 & H5 & H6).
      exists err', w'. split; [exact H1|]. split; [|split; [|split; [|split]]].
      * rewrite H2. cbn. now rewrite <- app_assoc.
      * exact H3.
      * intros k Hk. apply H4. cbn.
        destruct (decide (x = k)) as [->|Hne];
          [apply lookup_delete_eq | now rewrite lookup_delete_ne].
      * intros urn [<-|Hin] Hf; [|now apply H5].
        apply H4. cbn. apply lookup_delete_eq.
      * intros Hall. apply H6. intros urn Hin. apply Hall. now right.
Qed.

Ltac trace_eq :=
  cbn [trace emit set_store]; rewrite <- ?app_assoc; reflexivity.

Ltac counts := unfold count_events, lenZ; cbn; lia.

(** One round of the launch loop: it reads the entry, launches at most
    one flow, lists nothing, and adds at most one to the count of
    scheduled clients. *)
Lemma _ScheduleClientsForHunt_body_spec (E : Env) (urn : string)
    (hunt : Hunt.t) (modified : bool) (w : World) :
  exists hunt' modified' w' evs,
    _ScheduleClientsForHunt_body E urn (hunt, modified) w =
      Ret (hunt', modified') w' /\
    trace w' = trace w ++ EvGetSubject urn :: evs /\
    count_events is_list_event evs = 0 /\
    count_events is_get_event evs = 0 /\
    count_events is_launch_event evs <= 1 /\
    (0 <= Hunt.TotalClientsScheduled hunt ->
     0 <= Hunt.TotalClientsScheduled hunt'
       <= Hunt.TotalClientsScheduled hunt + 1).
Proof.
  unfold _ScheduleClientsForHunt_body, bind, GetSubject_HuntInfo, log_error,
    time_Now,
    modify_world, LaunchFlow, SetSubject, ret.
  destruct (GetSubject_fault E urn) as [e|].
  { eexists _, _, _, [_]. split; [reflexivity|]. split; [trace_eq|].
    repeat split; counts. }
  destruct (store w !! urn) as [[h|summary]|].
  1, 3: eexists _, _, _, [_]; (split; [reflexivity|]); (split; [trace_eq|]);
    repeat split; counts.
  destruct (MarshalAny_fault E summary) as [e|].
  { eexists _, _, _, [_]. split; [reflexivity|]. split; [trace_eq|].
    repeat split; counts. }
  destruct (LaunchFlow_reply E (HuntInfo.ClientId summary) "HuntRunnerFlow"
              summary) as [e|flow_id].
  - destruct (SetSubject_fault E _) as [e'|];
      eexists _, _, _, [_; _; _]; (split; [reflexivity|]);
      (split; [trace_eq|]); repeat split; counts.
  - destruct (SetSubject_fault E _) as [e'|];
      eexists _, _, _, [_; _]; (split; [reflexivity|]);
      (split; [trace_eq|]); repeat split; try counts;
      cbn [Hunt.TotalClientsScheduled Hunt.set_TotalClientsScheduled];
      match goal with H : 0 <= _ |- _ => apply U64_succ_le in H end;
      tauto.
Qed.

Lemma _ScheduleClientsForHunt_loop_spec (E : Env) (urns : list string) :
  forall (hunt : Hunt.t) (modified : bool) (w : World),
  exists hunt' modified' w' evs,
    for_each (_ScheduleClientsForHunt_body E) urns (hunt, modified) w =
      Ret (hunt', modified') w' /\
    trace w' = trace w ++ evs /\
    count_events is_list_event evs = 0 /\
    count_events is_get_event evs = lenZ urns /\
    count_events is_launch_event evs <= lenZ urns /\
    (0 <= Hunt.TotalClientsScheduled hunt ->
     0 <= Hunt.TotalClientsScheduled hunt'
       <= Hunt.TotalClientsScheduled hunt + lenZ urns).
Proof.
  induction urns as [|urn r IH]; intros hunt modified w.
  - exists hunt, modified, w, []. split; [reflexivity|].
    split; [now rewrite app_nil_r|]. repeat split; counts.
  - destruct (_ScheduleClientsForHunt_body_spec E urn hunt modified w)
      as (h1 & m1 & w1 & evs1 & H1 & T1 & L1 & G1 & F1 & S1).
    destruct (IH h1 m1 w1) as (h2 & m2 & w2 & evs2 & H2 & T2 & L2 & G2 & F2 & S2).
    exists h2, m2, w2, (EvGetSubject urn :: evs1 ++ evs2).
    cbn [for_each]. unfold bind. rewrite H1. split; [exact H2|].
    split; [|split; [|split; [|split]]].
    + rewrite T2, T1, <- app_assoc. reflexivity.
    + change (EvGetSubject urn :: evs1 ++ evs2)
        with ([EvGetSubject urn] ++ evs1 ++ evs2).
      rewrite !count_events_app, L1, L2. reflexivity.
    + change (EvGetSubject urn :: evs1 ++ evs2)
        with ([EvGetSubject urn] ++ evs1 ++ evs2).
      rewrite !count_events_app, G1, G2.
      change (count_events is_get_event [EvGetSubject urn]) with 1.
      unfold lenZ. cbn [length]. lia.
    + change (EvGetSubject urn :: evs1 ++ evs2)
        with ([EvGetSubject urn] ++ evs1 ++ evs2).
      rewrite !count_events_app. unfold lenZ in *. cbn [length].
      change (count_events is_launch_event [EvGetSubject urn]) with 0. lia.
    + intros H0. specialize (S1 H0). assert (0 <= Hunt.TotalClientsScheduled h1)
        as H by lia. specialize (S2 H). unfold lenZ in *. cbn [length]. lia.
Qed.

Lemma count_events_deletes (p : Event -> bool) (urns : list string) :
  (forall urn, p (EvDeleteSubject urn) = false) ->
  count_events p (List.map EvDeleteSubject urns) = 0.
Proof.
  intros Hp. unfold count_events, lenZ.
  induction urns as [|x r IH]; [reflexivity|]. cbn. now rewrite Hp.
Qed.

(* ================================================================== *)
(** ** The scheduler: how many clients are due *)

Lemma expected_clients_of_spec (E : Env) (hunt : Hunt.t) :
  schedule_in_range (now_micros E) hunt ->
  expected_clients_of E hunt = spec_expected (now_micros E) hunt.
Proof.
  intros [Hn Hr Hu Hc Hw Hs He Hp Hx].
  unfold spec_expected, spec_since_unpause_seconds, spec_effective_rate in *.
  unfold expected_clients_of, seconds_since_unpause_of, client_rate_of,
    last_unpause_time_of, now, U64.add, U64.sub, U64.mul, U64.div.
  unfold U64.in_range in *.
  set (start := if Hunt.LastUnpauseTime hunt =? 0 then Hunt.CreateTime hunt
                else Hunt.LastUnpauseTime hunt) in *.
  set (rate := if Hunt.ClientRate hunt =? 0 then 20
               else Hunt.ClientRate hunt) in *.
  assert (0 <= start) as Hs0
      by (subst start; destruct (Hunt.LastUnpauseTime hunt =? 0); lia).
  assert (0 <= rate) as Hr0
      by (subst rate; destruct (Hunt.ClientRate hunt =? 0); lia).
  clearbody start rate.
  rewrite (U64_wrap_small (now_micros E)) by exact Hn.
  rewrite (U64_wrap_small (now_micros E - start))
    by (unfold U64.in_range; lia).
  set (seconds := (now_micros E - start) / 1000000) in *.
  assert (0 <= seconds) as Hsec by (apply Z.div_pos; lia).
  assert (0 <= rate * seconds) as Hprod by (now apply Z.mul_nonneg_nonneg).
  rewrite (U64_wrap_small (rate * seconds)) by (unfold U64.in_range; lia).
  assert (0 <= rate * seconds / 60) as Hq by (apply Z.div_pos; lia).
  apply U64_wrap_small. unfold U64.in_range. lia.
Qed.

Lemma seconds_since_unpause_of_spec (E : Env) (hunt : Hunt.t) :
  schedule_in_range (now_micros E) hunt ->
  seconds_since_unpause_of E hunt =
    spec_since_unpause_seconds (now_micros E) hunt.
Proof.
  intros [Hn Hr Hu Hc Hw Hs He Hp Hx].
  unfold spec_since_unpause_seconds, seconds_since_unpause_of,
    last_unpause_time_of, now, U64.sub, U64.div in *.
  unfold U64.in_range in *.
  set (start := if Hunt.LastUnpauseTime hunt =? 0 then Hunt.CreateTime hunt
                else Hunt.LastUnpauseTime hunt) in *.
  assert (0 <= start) as Hs0
      by (subst start; destruct (Hunt.LastUnpauseTime hunt =? 0); lia).
  rewrite (U64_wrap_small (now_micros E)) by exact Hn.
  rewrite (U64_wrap_small (now_micros E - start))
    by (unfold U64.in_range; lia).
  reflexivity.
Qed.

(** C2.  The scheduler step computes the expected number of clients
    and, when it is above [TotalClientsScheduled], the deficit between
    the two.  With the fields in range these are the spec's
    [floor (rate * seconds / 60) + TotalClientsWhenUnpaused] and its
    difference to [TotalClientsScheduled], the rate being [ClientRate]
    or 20 and the seconds counted from [LastUnpauseTime] or
    [CreateTime].  When the expected number is not above
    [TotalClientsScheduled] the step returns the hunt untouched in an
    untouched world.  Otherwise its first and only listing asks the
    pending queue for exactly the deficit; it reads and launches no more
    entries than that, and the count of scheduled clients does not pass
    the expected number. *)
Theorem scheduler_pulls_at_most_the_deficit (E : Env) (hunt : Hunt.t)
    (w : World) :
  let expected := expected_clients_of E hunt in
  let deficit := U64.sub expected (Hunt.TotalClientsScheduled hunt) in
  (schedule_in_range (now_micros E) hunt ->
   client_rate_of hunt = spec_effective_rate hunt /\
   seconds_since_unpause_of E hunt =
     spec_since_unpause_seconds (now_micros E) hunt /\
   expected = spec_expected (now_micros E) hunt /\
   (Hunt.TotalClientsScheduled hunt < expected ->
    deficit =
      spec_expected (now_micros E) hunt - Hunt.TotalClientsScheduled hunt)) /\
  (expected <= Hunt.TotalClientsScheduled hunt ->
   exists err, _ScheduleClientsForHunt E hunt w = Ret (hunt, false, err) w) /\
  (Hunt.TotalClientsScheduled hunt < expected ->
   GetDB E = None ->
   exists hunt' modified err w' evs,
     _ScheduleClientsForHunt E hunt w = Ret (hunt', modified, err) w' /\
     trace w' =
       trace w ++
       EvListChildren (Hunt.HuntId hunt +:+ "/pending") 0 deficit :: evs /\
     count_events is_list_event evs = 0 /\
     count_events is_get_event evs <= deficit /\
     count_events is_launch_event evs <= deficit /\
     (U64.in_range (Hunt.TotalClientsScheduled hunt) ->
      Hunt.TotalClientsScheduled hunt' <= expected)).
Proof.
  intros expected deficit.
  assert (U64.in_range expected) as Hexp by apply U64_wrap_range.
  assert (U64.in_range deficit) as Hdef by apply U64_wrap_range.
  unfold U64.in_range in Hexp, Hdef.
  assert (U64.in_range (Hunt.TotalClientsScheduled hunt) ->
          Hunt.TotalClientsScheduled hunt < expected ->
          deficit = expected - Hunt.TotalClientsScheduled hunt) as Hsub.
  { intros Hs Hlt. apply U64_wrap_small. unfold U64.in_range in *. lia. }
  split; [|split].
  - intros Hrange.
    pose proof (expected_clients_of_spec E hunt Hrange) as Heq.
    pose proof (seconds_since_unpause_of_spec E hunt Hrange) as Hsec.
    fold expected in Heq. repeat split; try assumption.
    intros Hlt. rewrite <- Heq. apply Hsub; [|exact Hlt].
    apply (range_scheduled _ _ Hrange).
  - intros Hle. unfold _ScheduleClientsForHunt.
    destruct (GetDB E) as [e|]; [now exists (Some e)|].
    fold expected.
    destruct (Z.ltb_spec (Hunt.TotalClientsScheduled hunt) expected);
      [lia|]. now exists None.
  - intros Hlt Hdb. unfold _ScheduleClientsForHunt. rewrite Hdb.
    fold expected.
    destruct (Z.ltb_spec (Hunt.TotalClientsScheduled hunt) expected) as [_|];
      [|lia].
    fold deficit. unfold bind at 1. unfold ListChildren.
    destruct (ListChildren_fault E _) as [e|].
    { eexists hunt, false, (Some e), _, []. split; [reflexivity|].
      split; [reflexivity|]. repeat split; counts. }
    set (urns := takeZ deficit _).
    assert (lenZ urns <= deficit) as Hlen by (apply takeZ_length; lia).
    destruct (is_nil urns).
    { eexists hunt, false, None, _, []. split; [reflexivity|].
      split; [reflexivity|]. repeat split; counts. }
    set (w0 := emit _ w).
    destruct (_ScheduleClientsForHunt_loop_spec E urns hunt false w0)
      as (h1 & m1 & w1 & evs1 & H1 & T1 & L1 & G1 & F1 & S1).
    destruct (delete_all_spec E urns None w1)
      as (err & w2 & H2 & T2 & _).
    exists h1, m1, None, w2, (evs1 ++ List.map EvDeleteSubject urns).
    unfold bind. rewrite H1, H2. split; [reflexivity|].
    split; [|split; [|split; [|split]]].
    + rewrite T2, T1. subst w0. cbn [trace emit].
      rewrite <- !app_assoc. reflexivity.
    + rewrite count_events_app, L1, count_events_deletes; reflexivity.
    + rewrite count_events_app, G1, count_events_deletes by reflexivity. lia.
    + rewrite count_events_app, count_events_deletes by reflexivity. lia.
    + intros Hs. specialize (Hsub Hs Hlt). unfold U64.in_range in Hs.
      assert (0 <= Hunt.TotalClientsScheduled hunt) as H0 by lia.
      specialize (S1 H0). lia.
Qed.

(** Two seconds after an unpause at five scheduled clients and a rate of
    sixty a minute, seven clients are expected: the pending queue, which
    holds three, is asked for two. *)
Lemma scheduler_pulls_at_most_the_deficit_witness :
  let hunt := sample_fresh_hunt in
  let w := sample_world hunt in
  let expected := expected_clients_of sample_env hunt in
  let deficit := U64.sub expected (Hunt.TotalClientsScheduled hunt) in
  (expected = 7 /\ deficit = 2) /\
  (client_rate_of hunt = spec_effective_rate hunt /\
   seconds_since_unpause_of sample_env hunt =
     spec_since_unpause_seconds (now_micros sample_env) hunt /\
   expected = spec_expected (now_micros sample_env) hunt /\
   (Hunt.TotalClientsScheduled hunt < expected ->
    deficit =
      spec_expected (now_micros sample_env) hunt
      - Hunt.TotalClientsScheduled hunt)) /\
  (exists hunt' modified err w' evs,
      _ScheduleClientsForHunt sample_env hunt w = Ret (hunt', modified, err) w' /\
      trace w' =
        trace w ++
        EvListChildren (Hunt.HuntId hunt +:+ "/pending") 0 deficit :: evs /\
      count_events is_list_event evs = 0 /\
      count_events is_get_event evs <= deficit /\
      count_events is_launch_event evs <= deficit /\
      (U64.in_range (Hunt.TotalClientsScheduled hunt) ->
       Hunt.TotalClientsScheduled hunt' <= expected)).
Proof.
  intros hunt w expected deficit. split; [split; reflexivity|].
  destruct (scheduler_pulls_at_most_the_deficit sample_env hunt w)
    as (Hspec & _ & Hpull).
  split.
  - apply Hspec.
    constructor; vm_compute; repeat split; try reflexivity;
      intros H; discriminate H.
  - apply Hpull; reflexivity.
Defined.

(* ================================================================== *)
(** ** The scheduler: pulled entries leave the pending queue *)

(** C6.  When the scheduler pulls (it has a datastore, clients are due
    and the listing of the pending queue answers [urns]) it returns,
    and it has asked for the deletion of every listed URN.  Whatever the
    reads, the packing, the launches and the writes of the entries did,
    a listed URN whose deletion does not fail is no longer in the
    datastore, so no longer a child of the pending queue. *)
Theorem scheduler_removes_every_pulled_entry (E : Env) (hunt : Hunt.t)
    (w w0 : World) (urns : list string) :
  GetDB E = None ->
  Hunt.TotalClientsScheduled hunt < expected_clients_of E hunt ->
  ListChildren E (Hunt.HuntId hunt +:+ "/pending") 0
    (U64.sub (expected_clients_of E hunt) (Hunt.TotalClientsScheduled hunt)) w
    = Ret (urns, None) w0 ->
  exists hunt' modified w',
    _ScheduleClientsForHunt E hunt w = Ret (hunt', modified, None) w' /\
    forall urn,
      In urn urns ->
      In (EvDeleteSubject urn) (trace w') /\
      (DeleteSubject_fault E urn = None ->
       store w' !! urn = None /\
       ~ In urn (children (Hunt.HuntId hunt +:+ "/pending") (store w'))).
Proof.
  intros Hdb Hlt Hlist. unfold _ScheduleClientsForHunt. rewrite Hdb.
  apply Z.ltb_lt in Hlt. rewrite Hlt. unfold bind at 1. rewrite Hlist.
  destruct urns as [|u r].
  { exists hunt, false, w0. split; [reflexivity|]. intros urn []. }
  cbn [is_nil].
  destruct (for_each_returns (_ScheduleClientsForHunt_body E)) with
    (l := u :: r) (s := (hunt, false)) (w := w0) as ([h1 m1] & w1 & H1).
  { intros x [h m] wx.
    destruct (_ScheduleClientsForHunt_body_spec E x h m wx)
      as (h' & m' & w' & evs & H & _).
    now exists (h', m'), w'. }
  destruct (delete_all_spec E (u :: r) None w1)
    as (err & w2 & H2 & T2 & _ & _ & Hgone & _).
  exists h1, m1, w2. unfold bind. rewrite H1, H2. split; [reflexivity|].
  intros urn Hin. split.
  - rewrite T2. apply in_or_app. right. now apply in_map.
  - intros Hf. pose proof (Hgone urn Hin Hf) as Hnone. split; [exact Hnone|].
    intros Hc. apply In_children in Hc as [v Hv]. congruence.
Qed.

(** Three pending entries: [C.1] launches, the record of [C.2] cannot be
    read, the launch for [C.3] fails.  All three are gone from the
    pending queue after the pull. *)
Lemma scheduler_removes_every_pulled_entry_witness :
  let hunt := sample_hunt Hunt_RUNNING in
  let w := sample_world hunt in
  let urns := ["aff4:/hunts/H.deadbeef/pending/C.3";
               "aff4:/hunts/H.deadbeef/pending/C.1";
               "aff4:/hunts/H.deadbeef/pending/C.2"] in
  children "aff4:/hunts/H.deadbeef/pending" (store w) = urns /\
  exists hunt' modified w',
    _ScheduleClientsForHunt sample_env_faulty hunt w =
      Ret (hunt', modified, None) w' /\
    forall urn,
      In urn urns ->
      In (EvDeleteSubject urn) (trace w') /\
      (DeleteSubject_fault sample_env_faulty urn = None ->
       store w' !! urn = None /\
       ~ In urn (children (Hunt.HuntId hunt +:+ "/pending") (store w'))).
Proof.
  intros hunt w urns. split; [vm_compute; reflexivity|].
  apply (scheduler_removes_every_pulled_entry sample_env_faulty hunt w
           (emit (EvListChildren "aff4:/hunts/H.deadbeef/pending" 0 99999995) w)
           urns).
  - reflexivity.
  - vm_compute. reflexivity.
  - vm_compute. reflexivity.
Defined.

(* ================================================================== *)
(** ** Result triage *)

Lemma triage_class_branch (derr : option error) (summary : HuntInfo.t)
    (q : Queue) :
  triage_class derr summary q -> sort_branch derr summary = Some q.
Proof.
  unfold sort_branch. intros [H|r Hd Hr Hs Ht|r Hd Hr Hs Ht].
  - destruct derr as [e|]; [reflexivity|].
    destruct (HuntInfo.Result summary) as [r|]; [|reflexivity].
    destruct H as [H|[H|(r' & [= <-] & H)]]; try congruence.
    now rewrite bool_decide_eq_true_2.
  - subst derr. rewrite Hr, bool_decide_eq_false_2 by exact Hs.
    apply Z.ltb_lt in Ht. now rewrite Ht.
  - subst derr. rewrite Hr, bool_decide_eq_false_2 by exact Hs.
    now rewrite Ht.
Qed.

Lemma triage_class_total (derr : option error) (summary : HuntInfo.t) :
  (forall r, HuntInfo.Result summary = Some r ->
             0 <= FlowContext.TotalResults r) ->
  exists q, triage_class derr summary q.
Proof.
  intros Hrange. destruct derr as [e|].
  { exists QErrors. constructor. left. discriminate. }
  destruct (HuntInfo.Result summary) as [r|] eqn:Hr.
  2: { exists QErrors. constructor. right. now left. }
  destruct (decide (FlowContext.State r = FlowContext_ERROR)) as [Hs|Hs].
  { exists QErrors. constructor. right. right. now exists r. }
  specialize (Hrange r eq_refl).
  destruct (Z.eq_dec (FlowContext.TotalResults r) 0) as [H0|H0].
  - exists QNoResults. now apply (class_no_results _ _ r).
  - exists QResults. apply (class_results _ _ r); auto. lia.
Qed.

Lemma triage_class_unique (derr : option error) (summary : HuntInfo.t)
    (q q' : Queue) :
  triage_class derr summary q -> triage_class derr summary q' -> q = q'.
Proof.
  intros H H'. apply triage_class_branch in H, H'. congruence.
Qed.

Lemma GetSubject_HuntInfo_world (E : Env) (urn : string) (w w0 : World)
    (r : HuntInfo.t * option error) :
  GetSubject_HuntInfo E urn w = Ret r w0 -> w0 = emit (EvGetSubject urn) w.
Proof.
  unfold GetSubject_HuntInfo. repeat case_match; now intros [= _ <-].
Qed.

Lemma queue_urn_name (hunt_id : string) (q : Queue) (client_id : string) :
  hunt_id +:+ queue_name q +:+ client_id = queue_urn hunt_id q client_id.
Proof. now destruct q. Qed.

Lemma count_in_counter (q q' : Queue) (hunt : Hunt.t) :
  queue_counter q' (count_in q hunt) =
    if decide (q' = q) then U64.add (queue_counter q' hunt) 1
    else queue_counter q' hunt.
Proof. now destruct q, q'. Qed.

(** One round of the triage loop on an entry of a given class. *)
Lemma _SortResultsForHunt_body_class (E : Env) (urn : string)
    (hunt : Hunt.t) (modified : bool) (result_count : Z) (err : option error)
    (w w0 : World) (summary : HuntInfo.t) (derr : option error) (q : Queue) :
  GetSubject_HuntInfo E urn w = Ret (summary, derr) w0 ->
  triage_class derr summary q ->
  let destination :=
    queue_urn (Hunt.HuntId hunt) q (HuntInfo.ClientId summary) in
  exists hunt' err' w',
    _SortResultsForHunt_body E urn (hunt, modified, result_count, err) w =
      Ret (hunt', true, result_count + 1, err') w' /\
    trace w' =
      trace w ++
      [EvGetSubject urn; EvSetSubject destination (SubjectHuntInfo summary)] /\
    (forall q', queue_counter q' hunt' =
                  if decide (q' = q) then U64.add (queue_counter q' hunt) 1
                  else queue_counter q' hunt) /\
    (U64.in_range (queue_counter q hunt + 1) ->
     queue_counter q hunt' = queue_counter q hunt + 1) /\
    (SetSubject_fault E destination = None ->
     store w' = <[destination := SubjectHuntInfo summary]> (store w)).
Proof.
  intros Hget Hclass destination.
  pose proof (GetSubject_HuntInfo_world _ _ _ _ _ Hget) as ->.
  apply triage_class_branch in Hclass.
  unfold _SortResultsForHunt_body, bind. rewrite Hget, Hclass.
  rewrite queue_urn_name. fold destination. unfold SetSubject, ret.
  assert (U64.in_range (queue_counter q hunt + 1) ->
          queue_counter q (count_in q hunt) = queue_counter q hunt + 1)
    as Hone.
  { intros Hr. rewrite count_in_counter, decide_True by reflexivity.
    now apply U64_wrap_small. }
  destruct (SetSubject_fault E destination) as [e|];
    eexists _, _, _; (split; [reflexivity|]);
    (split; [trace_eq|]); (split; [intros q'; apply count_in_counter|]);
    (split; [exact Hone|]); [discriminate | reflexivity].
Qed.

(** One round of the triage loop, whatever the entry: it is counted in
    [result_count] exactly when one counter of the hunt went up by
    one. *)
Lemma _SortResultsForHunt_body_counts (E : Env) (urn : string)
    (hunt : Hunt.t) (modified : bool) (result_count : Z) (err : option error)
    (w : World) :
  exists hunt' modified' result_count' err' w',
    _SortResultsForHunt_body E urn (hunt, modified, result_count, err) w =
      Ret (hunt', modified', result_count', err') w' /\
    0 <= result_count' - result_count <= 1 /\
    (counters_nonneg hunt -> triaged_total hunt + 1 < U64.modulus ->
     counters_nonneg hunt' /\ counters_le hunt hunt' /\
     triaged_total hunt' = triaged_total hunt + (result_count' - result_count)).
Proof.
  unfold _SortResultsForHunt_body, bind.
  destruct (GetSubject_HuntInfo E urn w) as [[summary derr] w0| |] eqn:Hget.
  2, 3: unfold GetSubject_HuntInfo in Hget; repeat case_match; discriminate.
  destruct (sort_branch derr summary) as [q|].
  2: { eexists _, _, _, _, _. split; [reflexivity|]. split; [lia|].
       intros Hnn _. unfold counters_le. repeat split; try apply Hnn; lia. }
  unfold SetSubject, ret.
  assert (counters_nonneg hunt -> triaged_total hunt + 1 < U64.modulus ->
          counters_nonneg (count_in q hunt) /\
          counters_le hunt (count_in q hunt) /\
          triaged_total (count_in q hunt) = triaged_total hunt + 1) as Hcount.
  { unfold counters_nonneg, counters_le, triaged_total.
    intros (H1 & H2 & H3) Hlt.
    destruct q; cbn; rewrite U64_succ_small by lia; lia. }
  destruct (SetSubject_fault E _) as [e|];
    eexists _, _, _, _, _; (split; [reflexivity|]); (split; [lia|]);
    intros Hnn Hlt; replace (result_count + 1 - result_count) with 1 by lia;
    now apply Hcount.
Qed.

Lemma _SortResultsForHunt_loop_counts (E : Env) (urns : list string) :
  forall (hunt : Hunt.t) (modified : bool) (result_count : Z)
         (err : option error) (w : World),
  exists hunt' modified' result_count' err' w',
    for_each (_SortResultsForHunt_body E) urns
      (hunt, modified, result_count, err) w =
      Ret (hunt', modified', result_count', err') w' /\
    0 <= result_count' - result_count <= lenZ urns /\
    (counters_nonneg hunt ->
     triaged_total hunt + lenZ urns < U64.modulus ->
     counters_nonneg hunt' /\ counters_le hunt hunt' /\
     triaged_total hunt' = triaged_total hunt + (result_count' - result_count)).
Proof.
  induction urns as [|urn r IH]; intros hunt modified rc err w.
  - exists hunt, modified, rc, err, w. split; [reflexivity|].
    unfold lenZ. cbn. split; [lia|]. intros Hnn _.
    unfold counters_le. repeat split; try apply Hnn; lia.
  - destruct (_SortResultsForHunt_body_counts E urn hunt modified rc err w)
      as (h1 & m1 & rc1 & e1 & w1 & H1 & R1 & C1).
    destruct (IH h1 m1 rc1 e1 w1) as (h2 & m2 & rc2 & e2 & w2 & H2 & R2 & C2).
    exists h2, m2, rc2, e2, w2. cbn [for_each]. unfold bind. rewrite H1.
    split; [exact H2|]. unfold lenZ in *. cbn [length].
    split; [lia|]. intros Hnn Hlt.
    destruct C1 as (N1 & L1 & T1); [exact Hnn | lia |].
    destruct C2 as (N2 & L2 & T2); [exact N1 | lia |].
    split; [exact N2|]. split; [|lia].
    unfold counters_le in *. lia.
Qed.

(** The sample hunt, triaged once. *)
Example triage_sample_counts :
  match _SortResultsForHunt sample_env (sample_hunt Hunt_RUNNING)
          (sample_world (sample_hunt Hunt_RUNNING)) with
  | Ret (hunt', modified, result_count, err) w' =>
      result_count = 3 /\ modified = true /\ err = None /\
      Hunt.TotalClientsWithResults hunt' = 1 /\
      Hunt.TotalClientsWithoutResults hunt' = 1 /\
      Hunt.TotalClientsWithErrors hunt' = 1 /\
      children "aff4:/hunts/H.deadbeef/completed" (store w') = [] /\
      children "aff4:/hunts/H.deadbeef/results" (store w') =
        ["aff4:/hunts/H.deadbeef/results/C.7"] /\
      children "aff4:/hunts/H.deadbeef/no_results" (store w') =
        ["aff4:/hunts/H.deadbeef/no_results/C.8"] /\
      children "aff4:/hunts/H.deadbeef/errors" (store w') =
        ["aff4:/hunts/H.deadbeef/errors/C.9"]
  | _ => False
  end.
Proof. vm_compute. repeat split. Qed.

(** A call of the triage step that lists [urns] under [completed]
    returns, and has asked for the deletion of every listed URN whatever
    became of its classification and of the write to its destination; a
    listed URN whose deletion does not fail is no longer in the
    datastore, so no longer a child of the completed queue. *)
Theorem triage_removes_every_listed_entry (E : Env) (hunt : Hunt.t)
    (w w0 : World) (urns : list string) :
  GetDB E = None ->
  ListChildren E (Hunt.HuntId hunt +:+ "/completed") 0 100 w
    = Ret (urns, None) w0 ->
  exists hunt' modified result_count err w',
    _SortResultsForHunt E hunt w =
      Ret (hunt', modified, result_count, err) w' /\
    forall urn,
      In urn urns ->
      In (EvDeleteSubject urn) (trace w') /\
      (DeleteSubject_fault E urn = None ->
       store w' !! urn = None /\
       ~ In urn (children (Hunt.HuntId hunt +:+ "/completed") (store w'))).
Proof.
  intros Hdb Hlist. unfold _SortResultsForHunt. rewrite Hdb.
  unfold bind at 1. rewrite Hlist.
  destruct urns as [|u r].
  { eexists _, _, _, _, _. split; [reflexivity|]. intros urn []. }
  cbn [is_nil].
  destruct (_SortResultsForHunt_loop_counts E (u :: r) hunt false 0 None w0)
    as (h1 & m1 & rc1 & e1 & w1 & H1 & _).
  destruct (delete_all_spec E (u :: r) e1 w1)
    as (err & w2 & H2 & T2 & _ & _ & Hgone & _).
  exists h1, m1, rc1, err, w2. unfold bind. rewrite H1, H2.
  split; [reflexivity|]. intros urn Hin. split.
  - rewrite T2. apply in_or_app. right. now apply in_map.
  - intros Hf. pose proof (Hgone urn Hin Hf) as Hnone. split; [exact Hnone|].
    intros Hc. apply In_children in Hc as [v Hv]. congruence.
Qed.

Lemma triage_removes_every_listed_entry_witness :
  let hunt := sample_hunt Hunt_RUNNING in
  let w := sample_world hunt in
  let urns := children "aff4:/hunts/H.deadbeef/completed" (store w) in
  length urns = 3%nat /\
  exists hunt' modified result_count err w',
    _SortResultsForHunt sample_env hunt w =
      Ret (hunt', modified, result_count, err) w' /\
    forall urn,
      In urn urns ->
      In (EvDeleteSubject urn) (trace w') /\
      (DeleteSubject_fault sample_env urn = None ->
       store w' !! urn = None /\
       ~ In urn (children (Hunt.HuntId hunt +:+ "/completed") (store w'))).
Proof.
  intros hunt w urns. split; [vm_compute; reflexivity|].
  apply (triage_removes_every_listed_entry sample_env hunt w
           (emit (EvListChildren "aff4:/hunts/H.deadbeef/completed" 0 100) w)
           urns).
  - reflexivity.
  - vm_compute. reflexivity.
Defined.

(* ================================================================== *)
(** ** What [Update] leaves alone *)

Lemma same_but_counters_refl (h : Hunt.t) : same_but_counters h h.
Proof. unfold same_but_counters. repeat split. Qed.

Lemma same_but_counters_trans (a b c : Hunt.t) :
  same_but_counters a b -> same_but_counters b c -> same_but_counters a c.
Proof. unfold same_but_counters. intuition congruence. Qed.

Lemma count_in_same (q : Queue) (h : Hunt.t) :
  same_but_counters h (count_in q h).
Proof. destruct q; unfold same_but_counters; repeat split. Qed.

Lemma for_each_invariant {A S} (body : A -> S -> M S)
    (I : S -> World -> Prop) :
  (forall x s w, I s w -> exists s' w', body x s w = Ret s' w' /\ I s' w') ->
  forall l s w, I s w -> exists s' w', for_each body l s w = Ret s' w' /\ I s' w'.
Proof.
  intros Hbody. induction l as [|x r IH]; intros s w Hs.
  - now exists s, w.
  - destruct (Hbody x s w Hs) as (s1 & w1 & H1 & I1).
    destruct (IH s1 w1 I1) as (s2 & w2 & H2 & I2).
    exists s2, w2. cbn [for_each]. unfold bind. now rewrite H1.
Qed.

Lemma GetSubject_HuntInfo_value (E : Env) (urn : string) (w w0 : World)
    (summary : HuntInfo.t) (derr : option error) :
  GetSubject_HuntInfo E urn w = Ret (summary, derr) w0 ->
  summary = HuntInfo.zero \/ store w !! urn = Some (SubjectHuntInfo summary).
Proof.
  unfold GetSubject_HuntInfo. repeat case_match; intros [= <- _ _];
    try (now left). now right.
Qed.

(** One round of the launch loop: it touches nothing of the hunt but
    counters, sets [modified] whenever it changes the hunt, leaves the
    published mirror alone and files at most one record. *)
Lemma _ScheduleClientsForHunt_body_frame (E : Env) (urn : string)
    (hunt : Hunt.t) (modified : bool) (w : World) :
  exists hunt' modified' w',
    _ScheduleClientsForHunt_body E urn (hunt, modified) w =
      Ret (hunt', modified') w' /\
    same_but_counters hunt hunt' /\
    (modified' = true \/ (hunt' = hunt /\ modified' = modified)) /\
    dispatcher w' = dispatcher w /\
    files_one (Hunt.HuntId hunt) (store w) (store w').
Proof.
  unfold _ScheduleClientsForHunt_body, bind, GetSubject_HuntInfo, log_error,
    time_Now,
    modify_world, LaunchFlow, SetSubject, ret.
  pose proof (same_but_counters_refl hunt) as Hrefl.
  destruct (GetSubject_fault E urn) as [e|].
  { eexists _, _, _. split; [reflexivity|]. repeat split; auto; now left. }
  destruct (store w !! urn) as [[h|summary]|] eqn:Hurn.
  1, 3: eexists _, _, _; (split; [reflexivity|]); repeat split; auto;
    now left.
  destruct (MarshalAny_fault E summary) as [e|].
  { eexists _, _, _. split; [reflexivity|]. repeat split; auto; now left. }
  destruct (LaunchFlow_reply E (HuntInfo.ClientId summary) "HuntRunnerFlow"
              summary) as [e|flow_id].
  - destruct (SetSubject_fault E _) as [e'|];
      eexists _, _, _; (split; [reflexivity|]);
      (split; [unfold same_but_counters; repeat split|]);
      (split; [now left|]); (split; [reflexivity|]).
    + now left.
    + right. eexists "/errors/", _, _. split; [now left|].
      split; [reflexivity|]. intros _ r [= <-]. cbn. lia.
  - destruct (SetSubject_fault E _) as [e'|];
      eexists _, _, _; (split; [reflexivity|]);
      (split; [unfold same_but_counters; repeat split|]);
      (split; [now left|]); (split; [reflexivity|]).
    + now left.
    + right. eexists "/running/", _, _. split; [right; now left|].
      split; [reflexivity|]. intros Hwf r Hr. cbn in Hr.
      exact (Hwf urn summary r Hurn Hr).
Qed.

(** One round of the triage loop, likewise; the entry is counted in
    [result_count] exactly when the round changed something. *)
Lemma _SortResultsForHunt_body_frame (E : Env) (urn : string)
    (hunt : Hunt.t) (modified : bool) (result_count : Z) (err : option error)
    (w : World) :
  exists hunt' modified' result_count' err' w',
    _SortResultsForHunt_body E urn (hunt, modified, result_count, err) w =
      Ret (hunt', modified', result_count', err') w' /\
    same_but_counters hunt hunt' /\
    ((modified' = true /\ result_count' = result_count + 1) \/
     (hunt' = hunt /\ modified' = modified /\ result_count' = result_count)) /\
    dispatcher w' = dispatcher w /\
    files_one (Hunt.HuntId hunt) (store w) (store w').
Proof.
  unfold _SortResultsForHunt_body, bind.
  destruct (GetSubject_HuntInfo E urn w) as [[summary derr] w0| |] eqn:Hget.
  2, 3: unfold GetSubject_HuntInfo in Hget; repeat case_match; discriminate.
  pose proof (GetSubject_HuntInfo_value _ _ _ _ _ _ Hget) as Hval.
  apply GetSubject_HuntInfo_world in Hget as ->.
  destruct (sort_branch derr summary) as [q|].
  2: { eexists _, _, _, _, _. split; [reflexivity|].
       split; [apply same_but_counters_refl|]. split; [now right|].
       split; [reflexivity | now left]. }
  unfold SetSubject, ret.
  destruct (SetSubject_fault E _) as [e|];
    eexists _, _, _, _, _; (split; [reflexivity|]);
    (split; [apply count_in_same|]); (split; [now left|]);
    (split; [reflexivity|]).
  - now left.
  - right. exists (queue_name q), (HuntInfo.ClientId summary), summary.
    split; [unfold is_sink_queue; destruct q; cbn; tauto|].
    split; [reflexivity|]. intros Hwf r Hr.
    destruct Hval as [->|Hst]; [discriminate|].
    exact (Hwf urn summary r Hst Hr).
Qed.


(* ================================================================== *)
(** ** Counting the children of a queue *)

Lemma filter_length_Permutation {A} (f : A -> bool) (l l' : list A) :
  Permutation l l' -> length (List.filter f l) = length (List.filter f l').
Proof.
  induction 1 as [|x l l' _ IH|x y l|l l' l'' _ IH1 _ IH2]; cbn.
  - reflexivity.
  - destruct (f x); cbn; now rewrite IH.
  - destruct (f x), (f y); reflexivity.
  - now rewrite IH1.
Qed.

Lemma children_length_delete (urn k : string) (m : gmap string Subject)
    (v : Subject) :
  m !! k = Some v ->
  length (children urn m) =
    ((if is_child urn k then 1 else 0) + length (children urn (delete k m)))%nat.
Proof.
  intros Hk. unfold children.
  pose proof (map_to_list_delete m k v Hk) as Hp.
  apply (Permutation_map fst) in Hp.
  rewrite <- (filter_length_Permutation _ _ _ Hp). cbn.
  now destruct (is_child urn k).
Qed.

Lemma children_length_delete_le (urn k : string) (m : gmap string Subject) :
  (length (children urn (delete k m)) <= length (children urn m))%nat.
Proof.
  destruct (m !! k) as [v|] eqn:Hk.
  - rewrite (children_length_delete urn k m v Hk). lia.
  - now rewrite delete_id.
Qed.

Lemma children_length_insert (urn k : string) (m : gmap string Subject)
    (v : Subject) :
  is_child urn k = false ->
  length (children urn (<[k := v]> m)) = length (children urn m).
Proof.
  intros Hc.
  assert (length (children urn (<[k := v]> m)) =
          length (children urn (delete k m))) as ->.
  { rewrite (children_length_delete urn k (<[k := v]> m) v)
      by apply lookup_insert_eq.
    now rewrite Hc, delete_insert_eq. }
  destruct (m !! k) as [v'|] eqn:Hk.
  - rewrite (children_length_delete urn k m v' Hk). now rewrite Hc.
  - now rewrite delete_id.
Qed.

Lemma strip_prefix_append (p a b : string) :
  strip_prefix (p +:+ a) (p +:+ b) = strip_prefix a b.
Proof.
  induction p as [|c p IH]; [reflexivity|].
  rewrite !append_String. cbn [strip_prefix]. now rewrite Ascii.eqb_refl.
Qed.

(** The sink queues are neither [pending] nor [completed]. *)
Lemma sink_not_child (hunt_id name client_id : string) :
  is_sink_queue name ->
  is_child (hunt_id +:+ "/completed") (hunt_id +:+ name +:+ client_id) = false /\
  is_child (hunt_id +:+ "/pending") (hunt_id +:+ name +:+ client_id) = false.
Proof.
  unfold is_child. rewrite !strip_prefix_append.
  intros [-> | [-> | [-> | ->]]]; split; reflexivity.
Qed.

Lemma keeps_refl (urn : string) (m : gmap string Subject) : keeps urn m m.
Proof. unfold keeps. auto. Qed.

Lemma keeps_trans (urn : string) (a b c : gmap string Subject) :
  keeps urn a b -> keeps urn b c -> keeps urn a c.
Proof.
  unfold keeps. intros (L1 & P1 & W1) (L2 & P2 & W2).
  split; [congruence|]. split; auto.
Qed.

Lemma results_in_range_insert (m : gmap string Subject) (k : string)
    (i : HuntInfo.t) :
  results_in_range m ->
  (forall r, HuntInfo.Result i = Some r -> 0 <= FlowContext.TotalResults r) ->
  results_in_range (<[k := SubjectHuntInfo i]> m).
Proof.
  intros Hm Hi k' i' r Hk Hr.
  destruct (decide (k = k')) as [->|Hne].
  - rewrite lookup_insert_eq in Hk. injection Hk as <-. now apply Hi.
  - rewrite lookup_insert_ne in Hk by exact Hne. exact (Hm k' i' r Hk Hr).
Qed.

Lemma results_in_range_delete (m : gmap string Subject) (k : string) :
  results_in_range m -> results_in_range (delete k m).
Proof.
  intros Hm k' i r Hk Hr.
  destruct (decide (k = k')) as [->|Hne].
  - now rewrite lookup_delete_eq in Hk.
  - rewrite lookup_delete_ne in Hk by exact Hne. exact (Hm k' i r Hk Hr).
Qed.

Lemma files_one_keeps (urn hunt_id : string) (m m' : gmap string Subject) :
  (forall name client_id,
      is_sink_queue name ->
      is_child urn (hunt_id +:+ name +:+ client_id) = false) ->
  files_one hunt_id m m' -> keeps urn m m'.
Proof.
  intros Hsink [-> | (name & cid & i & Hq & -> & Hi)]; [apply keeps_refl|].
  split; [|split].
  - apply children_length_insert. now apply Hsink.
  - intros k [v Hk].
    destruct (decide (hunt_id +:+ name +:+ cid = k)) as [->|Hne].
    + rewrite lookup_insert_eq. eauto.
    + rewrite lookup_insert_ne by exact Hne. eauto.
  - intros Hm. apply results_in_range_insert; auto.
Qed.


(* ================================================================== *)
(** ** Frames of the scheduler, the triage step and [Update] *)

Lemma keeps_shrinks (urn : string) (m m' : gmap string Subject) :
  keeps urn m m' -> shrinks urn m m'.
Proof. intros (L & _ & W). split; [lia | exact W]. Qed.

Lemma shrinks_trans (urn : string) (a b c : gmap string Subject) :
  shrinks urn a b -> shrinks urn b c -> shrinks urn a c.
Proof. intros (L1 & W1) (L2 & W2). split; [lia | auto]. Qed.

Lemma no_sink_child_completed (hunt_id : string) :
  no_sink_child (hunt_id +:+ "/completed") hunt_id.
Proof. intros name cid H. now apply sink_not_child. Qed.

Lemma no_sink_child_pending (hunt_id : string) :
  no_sink_child (hunt_id +:+ "/pending") hunt_id.
Proof. intros name cid H. now apply sink_not_child. Qed.

Lemma _ScheduleClientsForHunt_loop_frame (E : Env) (queue_urn : string)
    (urns : list string) (hunt : Hunt.t) (modified : bool) (w : World) :
  no_sink_child queue_urn (Hunt.HuntId hunt) ->
  exists hunt' modified' w',
    for_each (_ScheduleClientsForHunt_body E) urns (hunt, modified) w =
      Ret (hunt', modified') w' /\
    same_but_counters hunt hunt' /\
    (modified' = true \/ (hunt' = hunt /\ modified' = modified)) /\
    dispatcher w' = dispatcher w /\
    keeps queue_urn (store w) (store w').
Proof.
  intros Hsink.
  destruct (for_each_invariant (_ScheduleClientsForHunt_body E)
              (fun s w' =>
                 same_but_counters hunt (fst s) /\
                 (snd s = true \/ (fst s = hunt /\ snd s = modified)) /\
                 dispatcher w' = dispatcher w /\
                 keeps queue_urn (store w) (store w')))
    with (l := urns) (s := (hunt, modified)) (w := w)
    as ([h' m'] & w' & H & I).
  - intros x [h1 m1] w1 (S1 & M1 & D1 & K1). cbn [fst snd] in *.
    destruct (_ScheduleClientsForHunt_body_frame E x h1 m1 w1)
      as (h2 & m2 & w2 & H2 & S2 & M2 & D2 & F2).
    exists (h2, m2), w2. split; [exact H2|]. cbn [fst snd].
    split; [now apply (same_but_counters_trans _ h1)|].
    split; [|split; [congruence|]].
    + destruct M2 as [->|[-> ->]]; [now left | exact M1].
    + apply (keeps_trans _ _ (store w1)); [exact K1|].
      apply (files_one_keeps _ (Hunt.HuntId h1)); [|exact F2].
      destruct S1 as [<- _]. exact Hsink.
  - cbn [fst snd]. split; [apply same_but_counters_refl|].
    split; [now right|]. split; [reflexivity | apply keeps_refl].
  - exists h', m', w'. split; [exact H|]. exact I.
Qed.

Lemma _SortResultsForHunt_loop_frame (E : Env) (queue_urn : string)
    (urns : list string) (hunt : Hunt.t) (modified : bool) (result_count : Z)
    (err : option error) (w : World) :
  no_sink_child queue_urn (Hunt.HuntId hunt) ->
  exists hunt' modified' result_count' err' w',
    for_each (_SortResultsForHunt_body E) urns
      (hunt, modified, result_count, err) w =
      Ret (hunt', modified', result_count', err') w' /\
    same_but_counters hunt hunt' /\
    ((modified' = true /\ result_count < result_count') \/
     (hunt' = hunt /\ modified' = modified /\ result_count' = result_count)) /\
    dispatcher w' = dispatcher w /\
    keeps queue_urn (store w) (store w').
Proof.
  intros Hsink.
  destruct (for_each_invariant (_SortResultsForHunt_body E)
              (fun (s : SortState) w' =>
                 let '(h, m, rc, _) := s in
                 same_but_counters hunt h /\
                 ((m = true /\ result_count < rc) \/
                  (h = hunt /\ m = modified /\ rc = result_count)) /\
                 dispatcher w' = dispatcher w /\
                 keeps queue_urn (store w) (store w')))
    with (l := urns) (s := (hunt, modified, result_count, err)) (w := w)
    as ([[[h' m'] rc'] e'] & w' & H & I).
  - intros x [[[h1 m1] rc1] e1] w1 (S1 & M1 & D1 & K1).
    destruct (_SortResultsForHunt_body_frame E x h1 m1 rc1 e1 w1)
      as (h2 & m2 & rc2 & e2 & w2 & H2 & S2 & M2 & D2 & F2).
    exists (h2, m2, rc2, e2), w2. split; [exact H2|].
    split; [now apply (same_but_counters_trans _ h1)|].
    split; [|split; [congruence|]].
    + destruct M2 as [[-> ->]|[-> [-> ->]]]; [|exact M1].
      left. split; [reflexivity|]. destruct M1 as [[_ M1]|[_ [_ ->]]]; lia.
    + apply (keeps_trans _ _ (store w1)); [exact K1|].
      apply (files_one_keeps _ (Hunt.HuntId h1)); [|exact F2].
      destruct S1 as [<- _]. exact Hsink.
  - split; [apply same_but_counters_refl|].
    split; [now right|]. split; [reflexivity | apply keeps_refl].
  - exists h', m', rc', e', w'. split; [exact H|]. exact I.
Qed.

Lemma delete_all_frame (E : Env) (queue_urn : string) (urns : list string)
    (err : option error) (w : World) :
  exists err' w',
    delete_all E urns err w = Ret err' w' /\
    dispatcher w' = dispatcher w /\
    shrinks queue_urn (store w) (store w').
Proof.
  destruct (for_each_invariant (delete_urn E)
              (fun (_ : option error) w' =>
                 dispatcher w' = dispatcher w /\
                 shrinks queue_urn (store w) (store w')))
    with (l := urns) (s := err) (w := w) as (err' & w' & H & I).
  - intros x e1 w1 (D1 & K1).
    unfold delete_urn, bind, DeleteSubject, ret.
    destruct (DeleteSubject_fault E x) as [e|]; eexists _, _;
      (split; [reflexivity|]); (split; [exact D1|]).
    + exact K1.
    + apply (shrinks_trans _ _ (store w1)); [exact K1|]. cbn. split.
      * apply children_length_delete_le.
      * apply results_in_range_delete.
  - split; [reflexivity|]. split; [lia | auto].
  - now exists err', w'.
Qed.

(** The scheduler step as a whole. *)
Lemma _ScheduleClientsForHunt_frame (E : Env) (queue_urn : string)
    (hunt : Hunt.t) (w : World) :
  no_sink_child queue_urn (Hunt.HuntId hunt) ->
  exists hunt' modified err w',
    _ScheduleClientsForHunt E hunt w = Ret (hunt', modified, err) w' /\
    same_but_counters hunt hunt' /\
    (modified = true \/ hunt' = hunt) /\
    dispatcher w' = dispatcher w /\
    shrinks queue_urn (store w) (store w').
Proof.
  intros Hsink.
  assert (shrinks queue_urn (store w) (store w)) as Hrefl
      by (apply keeps_shrinks, keeps_refl).
  pose proof (same_but_counters_refl hunt) as Hsame.
  unfold _ScheduleClientsForHunt.
  destruct (GetDB E) as [e|].
  { eexists _, _, _, _. split; [reflexivity|]. repeat split; auto; apply Hrefl. }
  destruct (_ <? _).
  2: { eexists _, _, _, _. split; [reflexivity|]. repeat split; auto;
       apply Hrefl. }
  unfold bind at 1. unfold ListChildren.
  destruct (ListChildren_fault E _) as [e|].
  { eexists _, _, _, _. split; [reflexivity|]. repeat split; auto; apply Hrefl. }
  set (urns := takeZ _ _). destruct (is_nil urns).
  { eexists _, _, _, _. split; [reflexivity|]. repeat split; auto; apply Hrefl. }
  set (w0 := emit _ w).
  destruct (_ScheduleClientsForHunt_loop_frame E queue_urn urns hunt false w0
              Hsink) as (h1 & m1 & w1 & H1 & S1 & M1 & D1 & K1).
  destruct (delete_all_frame E queue_urn urns None w1)
    as (e2 & w2 & H2 & D2 & K2).
  exists h1, m1, None, w2. unfold bind. rewrite H1, H2.
  split; [reflexivity|]. split; [exact S1|].
  split; [destruct M1 as [->|[-> _]]; auto|].
  split; [rewrite D2, D1; reflexivity|].
  apply (shrinks_trans _ _ (store w1)); [now apply keeps_shrinks | exact K2].
Qed.

(** The triage step as a whole: it reports no processed entry exactly
    when it left the hunt as it was. *)
Lemma _SortResultsForHunt_frame (E : Env) (queue_urn : string)
    (hunt : Hunt.t) (w : World) :
  no_sink_child queue_urn (Hunt.HuntId hunt) ->
  exists hunt' modified result_count err w',
    _SortResultsForHunt E hunt w =
      Ret (hunt', modified, result_count, err) w' /\
    same_but_counters hunt hunt' /\
    ((modified = true /\ 0 < result_count) \/
     (hunt' = hunt /\ modified = false /\ result_count = 0)) /\
    dispatcher w' = dispatcher w /\
    shrinks queue_urn (store w) (store w').
Proof.
  intros Hsink.
  assert (shrinks queue_urn (store w) (store w)) as Hrefl
      by (apply keeps_shrinks, keeps_refl).
  pose proof (same_but_counters_refl hunt) as Hsame.
  unfold _SortResultsForHunt.
  destruct (GetDB E) as [e|].
  { eexists _, _, _, _, _. split; [reflexivity|].
    repeat split; auto; apply Hrefl. }
  unfold bind at 1. unfold ListChildren.
  destruct (ListChildren_fault E _) as [e|].
  { eexists _, _, _, _, _. split; [reflexivity|].
    repeat split; auto; apply Hrefl. }
  set (urns := takeZ _ _). destruct (is_nil urns).
  { eexists _, _, _, _, _. split; [reflexivity|].
    repeat split; auto; apply Hrefl. }
  set (w0 := emit _ w).
  destruct (_SortResultsForHunt_loop_frame E queue_urn urns hunt false 0 None
              w0 Hsink) as (h1 & m1 & rc1 & e1 & w1 & H1 & S1 & M1 & D1 & K1).
  destruct (delete_all_frame E queue_urn urns e1 w1)
    as (e2 & w2 & H2 & D2 & K2).
  exists h1, m1, rc1, e2, w2. unfold bind. rewrite H1, H2.
  split; [reflexivity|]. split; [exact S1|].
  split; [exact M1|].
  split; [rewrite D2, D1; reflexivity|].
  apply (shrinks_trans _ _ (store w1)); [now apply keeps_shrinks | exact K2].
Qed.


Lemma Update_spin_frame (E : Env) (queue_urn : string) (fuel : nat) :
  forall (hunt : Hunt.t) (modified : bool) (w : World)
         (hunt' : Hunt.t) (modified' : bool) (w' : World),
    no_sink_child queue_urn (Hunt.HuntId hunt) ->
    Update_spin E fuel hunt modified w = Ret (hunt', modified') w' ->
    same_but_counters hunt hunt' /\
    (modified' = true \/ (hunt' = hunt /\ modified' = modified)) /\
    dispatcher w' = dispatcher w /\
    shrinks queue_urn (store w) (store w').
Proof.
  induction fuel as [|fuel IH]; intros hunt modified w hunt' modified' w' Hsink;
    [discriminate|].
  cbn [Update_spin]. unfold bind at 1.
  destruct (_SortResultsForHunt_frame E queue_urn hunt w Hsink)
    as (h1 & m1 & rc & err & w1 & H1 & S1 & M1 & D1 & K1).
  rewrite H1. unfold bind at 1.
  set (logs := match err with Some e => _ | None => _ end).
  assert (exists w2, logs w1 = Ret tt w2 /\ dispatcher w2 = dispatcher w1 /\
                     store w2 = store w1) as (w2 & -> & D2 & St2).
  { subst logs. destruct err; eexists; repeat split. }
  destruct (Z.eqb_spec rc 0) as [->|Hrc].
  - unfold ret. intros [= <- <- <-].
    destruct M1 as [[_ M1]|[-> _]]; [lia|].
    split; [exact S1|]. split; [now right|]. split; [congruence|].
    now rewrite St2.
  - intros Hrest.
    assert (no_sink_child queue_urn (Hunt.HuntId h1)) as Hsink1
        by (destruct S1 as [<- _]; exact Hsink).
    destruct (IH _ _ _ _ _ _ Hsink1 Hrest) as (S3 & M3 & D3 & K3).
    split; [now apply (same_but_counters_trans _ h1)|].
    split; [|split; [congruence|]].
    + destruct M1 as [[-> _]|[-> [-> _]]]; [|exact M3].
      destruct M3 as [->|[_ ->]]; now left.
    + apply (shrinks_trans _ _ (store w1)); [exact K1|]. now rewrite <- St2.
Qed.

Lemma Update_hunt_frame (E : Env) (queue_urn : string) (fuel : nat)
    (hunt hunt' : Hunt.t) (w w' : World) :
  no_sink_child queue_urn (Hunt.HuntId hunt) ->
  Update_hunt E fuel hunt w = Ret hunt' w' ->
  same_but_counters hunt hunt' /\
  dispatcher w' = dispatcher w /\
  (hunt' = hunt \/
   exists w2 logged,
     trace w' =
       trace w2 ++
       EvSetSubject (Hunt.HuntId hunt) (SubjectHunt hunt') :: logged /\
     (forall e, In e logged -> is_store_event e = false) /\
     (SetSubject_fault E (Hunt.HuntId hunt) = None ->
      store w' = <[Hunt.HuntId hunt := SubjectHunt hunt']> (store w2)) /\
     shrinks queue_urn (store w) (store w2)).
Proof.
  intros Hsink. unfold Update_hunt.
  destruct (negb _).
  { unfold ret. intros [= <- <-]. split; [apply same_but_counters_refl|].
    split; [reflexivity | now left]. }
  unfold bind at 1.
  destruct (_ScheduleClientsForHunt_frame E queue_urn hunt w Hsink)
    as (h1 & m1 & err & w1 & H1 & S1 & M1 & D1 & K1).
  rewrite H1. unfold bind at 1.
  set (logs := match err with Some e => _ | None => _ end).
  assert (exists w1', logs w1 = Ret tt w1' /\ dispatcher w1' = dispatcher w1 /\
                      store w1' = store w1) as (w1' & -> & D1' & St1).
  { subst logs. destruct err; eexists; repeat split. }
  unfold bind at 1.
  destruct (Update_spin E fuel h1 m1 w1') as [[h2 m2] w2| |] eqn:Hspin;
    [|discriminate..].
  assert (no_sink_child queue_urn (Hunt.HuntId h1)) as Hsink1
      by (destruct S1 as [<- _]; exact Hsink).
  destruct (Update_spin_frame E queue_urn fuel _ _ _ _ _ _ Hsink1 Hspin)
    as (S2 & M2 & D2 & K2).
  assert (same_but_counters hunt h2) as S12
      by now apply (same_but_counters_trans _ h1).
  assert (Hunt.HuntId h2 = Hunt.HuntId hunt) as Hid
      by (destruct S12 as [-> _]; reflexivity).
  assert (shrinks queue_urn (store w) (store w2)) as K12.
  { apply (shrinks_trans _ _ (store w1)); [exact K1|]. now rewrite <- St1. }
  destruct m2.
  - unfold bind, SetSubject, log_error, modify_world, ret. rewrite Hid.
    destruct (SetSubject_fault E (Hunt.HuntId hunt)) as [e|];
      intros [= <- <-]; (split; [exact S12|]);
      (split; [cbn; congruence|]); right.
    + exists w2, [EvLogError "" (Some e)]. split; [trace_eq|].
      split; [intros ev [<-|[]]; reflexivity|].
      split; [discriminate | exact K12].
    + exists w2, []. split; [trace_eq|]. split; [intros ev []|].
      split; [reflexivity | exact K12].
  - unfold ret. intros [= <- <-]. split; [exact S12|].
    split; [congruence|]. left.
    destruct M2 as [M2|[-> <-]]; [discriminate|].
    destruct M1 as [M1 | ->]; [discriminate | reflexivity].
Qed.

(** While [Update] handles a hunt the only fields of the hunt it writes
    are the four counters, and it does not touch the published mirror;
    whenever it hands back a hunt other than the one it was given, its
    last datastore call writes that very hunt under the hunt's id, so
    the mirror and the datastore agree on it when the write goes
    through. *)
Theorem Update_hunt_writes_what_it_changed (E : Env) (fuel : nat)
    (hunt hunt' : Hunt.t) (w w' : World) :
  Update_hunt E fuel hunt w = Ret hunt' w' ->
  same_but_counters hunt hunt' /\
  dispatcher w' = dispatcher w /\
  (hunt' = hunt \/
   exists before logged,
     trace w' =
       before ++ EvSetSubject (Hunt.HuntId hunt) (SubjectHunt hunt') :: logged /\
     (forall e, In e logged -> is_store_event e = false) /\
     (SetSubject_fault E (Hunt.HuntId hunt) = None ->
      store w' !! Hunt.HuntId hunt = Some (SubjectHunt hunt'))).
Proof.
  intros H.
  destruct (Update_hunt_frame E (Hunt.HuntId hunt +:+ "/completed") fuel
              hunt hunt' w w' (no_sink_child_completed _) H)
    as (S & D & [->|(w2 & logged & T & L & St & _)]).
  - split; [exact S|]. split; [exact D | now left].
  - split; [exact S|]. split; [exact D|]. right.
    exists (trace w2), logged. split; [exact T|]. split; [exact L|].
    intros Hf. rewrite (St Hf). apply lookup_insert_eq.
Qed.

(** The running sample hunt: three clients scheduled, three completed
    records triaged, and the hunt written back with the new counters. *)
Lemma Update_hunt_writes_what_it_changed_witness :
  let hunt := sample_hunt Hunt_RUNNING in
  let w := sample_world hunt in
  let hunt' := value_after (Update_hunt sample_env 2 hunt w) hunt in
  let w' := world_after (Update_hunt sample_env 2 hunt w) w in
  (Hunt.TotalClientsScheduled hunt' = 8 /\
   Hunt.TotalClientsWithErrors hunt' = 1) /\
  (same_but_counters hunt hunt' /\
   dispatcher w' = dispatcher w /\
   (hunt' = hunt \/
    exists before logged,
      trace w' =
        before ++ EvSetSubject (Hunt.HuntId hunt) (SubjectHunt hunt') :: logged /\
      (forall e, In e logged -> is_store_event e = false) /\
      (SetSubject_fault sample_env (Hunt.HuntId hunt) = None ->
       store w' !! Hunt.HuntId hunt = Some (SubjectHunt hunt')))).
Proof.
  intros hunt w hunt' w'. split; [split; vm_compute; reflexivity|].
  apply (Update_hunt_writes_what_it_changed sample_env 2 hunt hunt' w w').
  vm_compute. reflexivity.
Defined.


(* ================================================================== *)
(** ** Which errors the two queue movers return *)

Lemma delete_all_error (E : Env) (urns : list string) :
  forall (err err' : option error) (w w' : World),
    delete_all E urns err w = Ret err' w' ->
    (err' = err /\ forall urn, In urn urns -> DeleteSubject_fault E urn = None)
    \/ (exists urn e, In urn urns /\ DeleteSubject_fault E urn = Some e /\
                      err' = Some e).
Proof.
  unfold delete_all. induction urns as [|x r IH]; intros err err' w w'.
  - cbn. unfold ret. intros [= <- _]. left. split; [reflexivity|]. intros _ [].
  - cbn [for_each]. unfold bind at 1. unfold delete_urn, bind, DeleteSubject, ret.
    destruct (DeleteSubject_fault E x) as [e|] eqn:Hx; intros H;
      apply IH in H as [[-> Hall]|(urn & e' & Hin & Hf & ->)].
    + right. exists x, e. split; [now left|]. now split.
    + right. exists urn, e'. split; [now right|]. now split.
    + left. split; [reflexivity|]. intros urn [<-|Hin]; auto.
    + right. exists urn, e'. split; [now right|]. now split.
Qed.

(** Once the scheduler has a datastore and its listing of the pending
    queue has answered, it returns no error, whatever failed afterwards:
    the reads, the launches, the writes to the running and error queues
    and the deletions from the pending queue assign an [err] of an inner
    scope.  The error it does return is that of [GetDB], or that of the
    listing when clients are due. *)
Theorem scheduler_returns_only_listing_errors (E : Env) (hunt : Hunt.t)
    (w : World) :
  exists hunt' modified err w',
    _ScheduleClientsForHunt E hunt w = Ret (hunt', modified, err) w' /\
    (forall e, GetDB E = Some e -> err = Some e) /\
    (GetDB E = None ->
     (Hunt.TotalClientsScheduled hunt < expected_clients_of E hunt ->
      err = ListChildren_fault E (Hunt.HuntId hunt +:+ "/pending")) /\
     (expected_clients_of E hunt <= Hunt.TotalClientsScheduled hunt ->
      err = None)).
Proof.
  unfold _ScheduleClientsForHunt.
  destruct (GetDB E) as [e|].
  { eexists _, _, _, _. split; [reflexivity|]. split; [now intros e' [= <-]|].
    discriminate. }
  destruct (Z.ltb_spec (Hunt.TotalClientsScheduled hunt)
              (expected_clients_of E hunt)) as [Hlt|Hge].
  2: { eexists _, _, _, _. split; [reflexivity|]. split; [discriminate|].
       intros _. split; [lia | reflexivity]. }
  unfold bind at 1. unfold ListChildren.
  destruct (ListChildren_fault E _) as [e|] eqn:Hl.
  { eexists _, _, _, _. split; [reflexivity|]. split; [discriminate|].
    intros _. split; [reflexivity | lia]. }
  set (urns := takeZ _ _). destruct (is_nil urns).
  { eexists _, _, _, _. split; [reflexivity|]. split; [discriminate|].
    intros _. split; [reflexivity | lia]. }
  set (w0 := emit _ w).
  destruct (_ScheduleClientsForHunt_loop_frame E
              (Hunt.HuntId hunt +:+ "/pending") urns hunt false w0
              (no_sink_child_pending _)) as (h1 & m1 & w1 & H1 & _).
  destruct (delete_all_frame E (Hunt.HuntId hunt +:+ "/pending") urns None w1)
    as (e2 & w2 & H2 & _).
  exists h1, m1, None, w2. unfold bind. rewrite H1, H2.
  split; [reflexivity|]. split; [discriminate|].
  intros _. split; [reflexivity | lia].
Qed.

(** On a datastore that refuses every write and deletion the scheduler
    still reports no error. *)
Lemma scheduler_returns_only_listing_errors_witness :
  let hunt := sample_hunt Hunt_RUNNING in
  let w := sample_world hunt in
  _ScheduleClientsForHunt sample_env_read_only hunt w =
    Ret (Hunt.set_TotalClientsScheduled 8 hunt, true, None)
      (world_after (_ScheduleClientsForHunt sample_env_read_only hunt w) w) /\
  exists hunt' modified err w',
    _ScheduleClientsForHunt sample_env_read_only hunt w =
      Ret (hunt', modified, err) w' /\
    (forall e, GetDB sample_env_read_only = Some e -> err = Some e) /\
    (GetDB sample_env_read_only = None ->
     (Hunt.TotalClientsScheduled hunt
        < expected_clients_of sample_env_read_only hunt ->
      err = ListChildren_fault sample_env_read_only
              (Hunt.HuntId hunt +:+ "/pending")) /\
     (expected_clients_of sample_env_read_only hunt
        <= Hunt.TotalClientsScheduled hunt ->
      err = None)).
Proof.
  intros hunt w. split; [vm_compute; reflexivity|].
  apply (scheduler_returns_only_listing_errors sample_env_read_only hunt w).
Defined.

(** The triage step, whose deferred deletions assign the named result:
    when its listing of the completed queue has answered [urns] and the
    deletion of one of them fails, it returns the error of a failed
    deletion. *)
Theorem triage_returns_deletion_errors (E : Env) (hunt : Hunt.t)
    (w w0 : World) (urns : list string) :
  GetDB E = None ->
  ListChildren E (Hunt.HuntId hunt +:+ "/completed") 0 100 w
    = Ret (urns, None) w0 ->
  exists hunt' modified result_count err w',
    _SortResultsForHunt E hunt w =
      Ret (hunt', modified, result_count, err) w' /\
    ((exists urn, In urn urns /\ DeleteSubject_fault E urn <> None) ->
     exists urn e,
       In urn urns /\ DeleteSubject_fault E urn = Some e /\ err = Some e).
Proof.
  intros Hdb Hlist. unfold _SortResultsForHunt. rewrite Hdb.
  unfold bind at 1. rewrite Hlist.
  destruct urns as [|u r].
  { eexists _, _, _, _, _. split; [reflexivity|]. intros (urn & [] & _). }
  cbn [is_nil].
  destruct (_SortResultsForHunt_loop_counts E (u :: r) hunt false 0 None w0)
    as (h1 & m1 & rc1 & e1 & w1 & H1 & _).
  destruct (delete_all_spec E (u :: r) e1 w1) as (e2 & w2 & H2 & _).
  exists h1, m1, rc1, e2, w2. unfold bind. rewrite H1, H2.
  split; [reflexivity|]. intros (urn & Hin & Hf).
  destruct (delete_all_error E _ _ _ _ _ H2) as [[_ Hall]|Hsome];
    [|exact Hsome].
  destruct Hf. now apply Hall.
Qed.

Lemma triage_returns_deletion_errors_witness :
  let hunt := sample_hunt Hunt_RUNNING in
  let w := sample_world hunt in
  let urns := children "aff4:/hunts/H.deadbeef/completed" (store w) in
  length urns = 3%nat /\
  exists hunt' modified result_count err w',
    _SortResultsForHunt sample_env_read_only hunt w =
      Ret (hunt', modified, result_count, err) w' /\
    ((exists urn, In urn urns /\
                  DeleteSubject_fault sample_env_read_only urn <> None) ->
     exists urn e,
       In urn urns /\ DeleteSubject_fault sample_env_read_only urn = Some e /\
       err = Some e).
Proof.
  intros hunt w urns. split; [vm_compute; reflexivity|].
  apply (triage_returns_deletion_errors sample_env_read_only hunt w
           (emit (EvListChildren "aff4:/hunts/H.deadbeef/completed" 0 100) w)
           urns).
  - reflexivity.
  - vm_compute. reflexivity.
Defined.


(* ================================================================== *)
(** ** The triage loop of [Update]: when it leaves *)

Lemma page_In_children (urn k : string) (m : gmap string Subject)
    (offset length : Z) :
  In k (takeZ length (dropZ offset (children urn m))) ->
  is_child urn k = true /\ is_Some (m !! k).
Proof.
  intros H. apply takeZ_In, dropZ_In in H. split.
  - unfold children in H. now apply filter_In in H.
  - now apply In_children in H.
Qed.

(** A round of the triage step either reports no entry or leaves fewer
    children under [completed] than it found. *)
Lemma _SortResultsForHunt_progress (E : Env) (hunt : Hunt.t) (w : World) :
  let completed_urn := Hunt.HuntId hunt +:+ "/completed" in
  deletes_children E completed_urn ->
  exists hunt' modified result_count err w',
    _SortResultsForHunt E hunt w =
      Ret (hunt', modified, result_count, err) w' /\
    Hunt.HuntId hunt' = Hunt.HuntId hunt /\
    (result_count = 0 \/
     (length (children completed_urn (store w'))
      < length (children completed_urn (store w)))%nat).
Proof.
  intros cu Hdel. unfold _SortResultsForHunt. fold cu.
  destruct (GetDB E) as [e|].
  { eexists _, _, _, _, _. split; [reflexivity|]. split; [reflexivity|].
    now left. }
  unfold bind at 1. unfold ListChildren.
  destruct (ListChildren_fault E cu) as [e|].
  { eexists _, _, _, _, _. split; [reflexivity|]. split; [reflexivity|].
    now left. }
  destruct (takeZ 100 (dropZ 0 (children cu (store w)))) as [|u r] eqn:Hurns.
  { eexists _, _, _, _, _. split; [reflexivity|]. split; [reflexivity|].
    now left. }
  cbn [is_nil].
  assert (is_child cu u = true /\ is_Some (store w !! u)) as [Hchild Hpresent].
  { apply (page_In_children cu u (store w) 0 100). rewrite Hurns. now left. }
  set (w0 := emit _ w).
  destruct (_SortResultsForHunt_loop_frame E cu (u :: r) hunt false 0 None w0
              (no_sink_child_completed _))
    as (h1 & m1 & rc1 & e1 & w1 & H1 & S1 & _ & _ & (L1 & P1 & _)).
  unfold bind at 1. rewrite H1. unfold bind at 1.
  unfold delete_all. cbn [for_each]. unfold bind at 1.
  unfold delete_urn at 1. unfold bind at 1. unfold DeleteSubject at 1.
  rewrite (Hdel u Hchild). unfold ret at 1.
  set (w1' := set_store _ _).
  destruct (delete_all_frame E cu r
              (match @None error with Some e => Some e | None => e1 end) w1')
    as (e2 & w2 & H2 & _ & (L2 & _)).
  unfold delete_all in H2. rewrite H2.
  eexists _, _, _, _, _. split; [reflexivity|].
  split; [destruct S1 as [<- _]; reflexivity|]. right.
  destruct (P1 u Hpresent) as [v Hv].
  pose proof (children_length_delete cu u (store w1) v Hv) as Hlen.
  rewrite Hchild in Hlen. subst w1' w0. cbn [store set_store emit] in *. lia.
Qed.

Lemma Update_spin_terminates (E : Env) (fuel : nat) :
  forall (hunt : Hunt.t) (modified : bool) (w : World),
    deletes_children E (Hunt.HuntId hunt +:+ "/completed") ->
    (length (children (Hunt.HuntId hunt +:+ "/completed") (store w)) < fuel)%nat ->
    exists hunt' modified' w',
      Update_spin E fuel hunt modified w = Ret (hunt', modified') w'.
Proof.
  induction fuel as [|fuel IH]; intros hunt modified w Hdel Hlen; [lia|].
  cbn [Update_spin]. unfold bind at 1.
  destruct (_SortResultsForHunt_progress E hunt w Hdel)
    as (h1 & m1 & rc & err & w1 & H1 & Hid & Hprog).
  rewrite H1. unfold bind at 1.
  set (logs := match err with Some e => _ | None => _ end).
  assert (exists w2, logs w1 = Ret tt w2 /\ store w2 = store w1)
    as (w2 & -> & St2).
  { subst logs. destruct err; eexists; split; reflexivity. }
  destruct (Z.eqb_spec rc 0) as [->|Hrc]; [now eexists _, _, _|].
  destruct Hprog as [->|Hlt]; [contradiction|].
  apply IH; rewrite Hid; [exact Hdel|]. rewrite St2. lia.
Qed.

(** [Update] gets through a hunt whenever the entries under the hunt's
    completed queue can be deleted: the scheduler step returns, each
    round of the triage loop that reports entries has removed at least
    one of them, and one round more than there are entries is enough
    for the loop to leave. *)
Theorem Update_hunt_terminates (E : Env) (fuel : nat) (hunt : Hunt.t)
    (w : World) :
  deletes_children E (Hunt.HuntId hunt +:+ "/completed") ->
  (length (children (Hunt.HuntId hunt +:+ "/completed") (store w)) < fuel)%nat ->
  exists hunt' w', Update_hunt E fuel hunt w = Ret hunt' w'.
Proof.
  intros Hdel Hlen. unfold Update_hunt.
  destruct (negb _); [now eexists _, _|].
  unfold bind at 1.
  destruct (_ScheduleClientsForHunt_frame E
              (Hunt.HuntId hunt +:+ "/completed") hunt w
              (no_sink_child_completed _))
    as (h1 & m1 & err & w1 & H1 & S1 & _ & _ & (L1 & _)).
  rewrite H1. unfold bind at 1.
  set (logs := match err with Some e => _ | None => _ end).
  assert (exists w1', logs w1 = Ret tt w1' /\ store w1' = store w1)
    as (w1' & -> & St1).
  { subst logs. destruct err; eexists; split; reflexivity. }
  assert (Hunt.HuntId h1 = Hunt.HuntId hunt) as Hid
      by (destruct S1 as [<- _]; reflexivity).
  destruct (Update_spin_terminates E fuel h1 m1 w1') as (h2 & m2 & w2 & H2).
  { rewrite Hid. exact Hdel. }
  { rewrite Hid, St1. lia. }
  unfold bind at 1. rewrite H2.
  destruct m2; [|now eexists _, _].
  unfold bind, SetSubject, log_error, modify_world, ret.
  destruct (SetSubject_fault E _); now eexists _, _.
Qed.

(** Three completed records: four rounds are enough. *)
Lemma Update_hunt_terminates_witness :
  let hunt := sample_hunt Hunt_RUNNING in
  let w := sample_world hunt in
  length (children (Hunt.HuntId hunt +:+ "/completed") (store w)) = 3%nat /\
  exists hunt' w', Update_hunt sample_env 4 hunt w = Ret hunt' w'.
Proof.
  intros hunt w. split; [vm_compute; reflexivity|].
  apply (Update_hunt_terminates sample_env 4 hunt w).
  - intros urn _. reflexivity.
  - vm_compute. lia.
Defined.


Lemma files_one_in_range (hunt_id : string) (m m' : gmap string Subject) :
  files_one hunt_id m m' -> results_in_range m -> results_in_range m'.
Proof.
  intros [-> | (name & cid & i & _ & -> & Hi)] Hm; [exact Hm|].
  apply results_in_range_insert; auto.
Qed.

(** On well-formed records every round of the triage loop counts its
    entry. *)
Lemma _SortResultsForHunt_body_in_range (E : Env) (urn : string)
    (hunt : Hunt.t) (modified : bool) (result_count : Z) (err : option error)
    (w : World) :
  results_in_range (store w) ->
  exists hunt' err' w',
    _SortResultsForHunt_body E urn (hunt, modified, result_count, err) w =
      Ret (hunt', true, result_count + 1, err') w'.
Proof.
  intros Hwf.
  destruct (GetSubject_HuntInfo E urn w) as [[summary derr] w0| |] eqn:Hget.
  2, 3: unfold GetSubject_HuntInfo in Hget; repeat case_match; discriminate.
  destruct (triage_class_total derr summary) as [q Hq].
  { intros r Hr.
    destruct (GetSubject_HuntInfo_value _ _ _ _ _ _ Hget) as [->|Hst];
      [discriminate|]. exact (Hwf urn summary r Hst Hr). }
  destruct (_SortResultsForHunt_body_class E urn hunt modified result_count
              err w w0 summary derr q Hget Hq) as (h' & e' & w' & H & _).
  now exists h', e', w'.
Qed.

Lemma _SortResultsForHunt_loop_in_range (E : Env) (queue_urn : string)
    (urns : list string) :
  forall (hunt : Hunt.t) (modified : bool) (result_count : Z)
         (err : option error) (w : World),
    no_sink_child queue_urn (Hunt.HuntId hunt) ->
    results_in_range (store w) ->
    exists hunt' modified' err' w',
      for_each (_SortResultsForHunt_body E) urns
        (hunt, modified, result_count, err) w =
        Ret (hunt', modified', result_count + lenZ urns, err') w' /\
      Hunt.HuntId hunt' = Hunt.HuntId hunt /\
      keeps queue_urn (store w) (store w').
Proof.
  induction urns as [|urn r IH]; intros hunt modified rc err w Hsink Hwf.
  - exists hunt, modified, err, w. unfold lenZ. cbn. rewrite Z.add_0_r.
    split; [reflexivity|]. split; [reflexivity | apply keeps_refl].
  - destruct (_SortResultsForHunt_body_in_range E urn hunt modified rc err w Hwf)
      as (h1 & e1 & w1 & H1).
    destruct (_SortResultsForHunt_body_frame E urn hunt modified rc err w)
      as (h1' & m1' & rc1' & e1' & w1' & H1' & S1 & _ & _ & F1).
    rewrite H1 in H1'. injection H1' as <- <- <- <- <-.
    assert (keeps queue_urn (store w) (store w1)) as K1
        by (apply (files_one_keeps _ (Hunt.HuntId hunt)); assumption).
    assert (Hunt.HuntId h1 = Hunt.HuntId hunt) as Hid
        by (destruct S1 as [<- _]; reflexivity).
    destruct (IH h1 true (rc + 1) e1 w1) as (h2 & m2 & e2 & w2 & H2 & Hid2 & K2).
    { rewrite Hid. exact Hsink. }
    { now apply K1. }
    exists h2, m2, e2, w2. cbn [for_each]. unfold bind. rewrite H1.
    split; [|split; [congruence | now apply (keeps_trans _ _ (store w1))]].
    rewrite H2. do 2 f_equal. unfold lenZ. cbn [length]. f_equal. lia.
Qed.

(** A round of the triage step on well-formed records, with a datastore
    at hand and a listing that answers: it reports as many entries as
    the page of the completed queue holds; an empty page leaves the
    datastore alone, any other is filed and then handed to the deferred
    deletions. *)
Lemma _SortResultsForHunt_round (E : Env) (hunt : Hunt.t) (w : World) :
  let completed_urn := Hunt.HuntId hunt +:+ "/completed" in
  let urns := takeZ 100 (dropZ 0 (children completed_urn (store w))) in
  GetDB E = None ->
  ListChildren_fault E completed_urn = None ->
  results_in_range (store w) ->
  exists hunt' modified err w',
    _SortResultsForHunt E hunt w = Ret (hunt', modified, lenZ urns, err) w' /\
    Hunt.HuntId hunt' = Hunt.HuntId hunt /\
    ((urns = [] /\ store w' = store w) \/
     (urns <> [] /\
      exists err1 w1,
        keeps completed_urn (store w) (store w1) /\
        delete_all E urns err1 w1 = Ret err w')).
Proof.
  intros cu urns Hdb Hlist Hwf. unfold _SortResultsForHunt. fold cu.
  rewrite Hdb. unfold bind at 1. unfold ListChildren. rewrite Hlist.
  fold urns. destruct urns as [|u r] eqn:Hurns.
  { eexists _, _, _, _. split; [reflexivity|]. split; [reflexivity|].
    left. split; reflexivity. }
  cbn [is_nil]. set (w0 := emit _ w).
  destruct (_SortResultsForHunt_loop_in_range E cu (u :: r) hunt false 0 None
              w0 (no_sink_child_completed _) Hwf)
    as (h1 & m1 & e1 & w1 & H1 & Hid & K1).
  destruct (delete_all_frame E cu (u :: r) e1 w1) as (e2 & w2 & H2 & _).
  exists h1, m1, e2, w2. unfold bind. rewrite H1, H2.
  split; [reflexivity|]. split; [exact Hid|]. right.
  split; [discriminate|]. now exists e1, w1.
Qed.

Lemma page_nil {A} (l : list A) : takeZ 100 (dropZ 0 l) = [] -> l = [].
Proof. destruct l; [reflexivity | discriminate]. Qed.

Lemma delete_all_refused (E : Env) (urns : list string) :
  (forall urn, In urn urns -> DeleteSubject_fault E urn <> None) ->
  forall (err err' : option error) (w w' : World),
    delete_all E urns err w = Ret err' w' -> store w' = store w.
Proof.
  unfold delete_all. induction urns as [|x r IH]; intros Hall err err' w w'.
  - cbn. unfold ret. now intros [= _ <-].
  - cbn [for_each]. unfold bind at 1. unfold delete_urn, bind, DeleteSubject, ret.
    destruct (DeleteSubject_fault E x) as [e|] eqn:Hx.
    + intros H. apply IH in H; [exact H|]. intros urn Hin. apply Hall.
      now right.
    + destruct (Hall x); [now left | exact Hx].
Qed.


Lemma results_in_range_empty : results_in_range ∅.
Proof. intros k i r H. now rewrite lookup_empty in H. Qed.

Lemma results_in_range_insert_hunt (m : gmap string Subject) (k : string)
    (h : Hunt.t) :
  results_in_range m -> results_in_range (<[k := SubjectHunt h]> m).
Proof.
  intros Hm k' i r. destruct (decide (k = k')) as [->|Hne].
  - rewrite lookup_insert_eq. discriminate.
  - rewrite lookup_insert_ne by exact Hne. apply Hm.
Qed.

Lemma sample_store_in_range (hunt : Hunt.t) :
  results_in_range (sample_store hunt).
Proof.
  unfold sample_store. apply results_in_range_insert_hunt.
  repeat (apply results_in_range_insert;
          [|intros r [= <-]; cbn; lia || discriminate]).
  apply results_in_range_empty.
Qed.


Lemma pending_not_completed (hunt_id urn : string) :
  is_child (hunt_id +:+ "/pending") urn = true ->
  is_child (hunt_id +:+ "/completed") urn = false.
Proof.
  unfold is_child at 1.
  destruct (strip_prefix (hunt_id +:+ "/pending") urn) as [t|] eqn:Hs;
    [|discriminate].
  intros _. apply strip_prefix_Some in Hs as ->.
  unfold is_child. rewrite append_assoc, strip_prefix_append.
  rewrite !append_String. reflexivity.
Qed.

Lemma self_not_child (hunt_id : string) (c : ascii) (name : string) :
  is_child (hunt_id +:+ String c name) hunt_id = false.
Proof.
  unfold is_child.
  replace (strip_prefix (hunt_id +:+ String c name) hunt_id)
    with (@None string); [reflexivity|].
  induction hunt_id as [|x p IH]; [reflexivity|].
  rewrite append_String. cbn [strip_prefix]. now rewrite Ascii.eqb_refl.
Qed.

Lemma children_length_delete_other (urn k : string)
    (m : gmap string Subject) :
  is_child urn k = false ->
  length (children urn (delete k m)) = length (children urn m).
Proof.
  intros Hk. destruct (m !! k) as [v|] eqn:Hm.
  - rewrite (children_length_delete urn k m v Hm), Hk. reflexivity.
  - now rewrite delete_id.
Qed.

Lemma delete_all_elsewhere (E : Env) (queue_urn : string)
    (urns : list string) :
  (forall urn, In urn urns -> is_child queue_urn urn = false) ->
  forall (err err' : option error) (w w' : World),
    delete_all E urns err w = Ret err' w' ->
    length (children queue_urn (store w')) =
      length (children queue_urn (store w)).
Proof.
  unfold delete_all. induction urns as [|x r IH]; intros Hall err err' w w'.
  - cbn. unfold ret. now intros [= _ <-].
  - cbn [for_each]. unfold bind at 1.
    unfold delete_urn, bind, DeleteSubject, ret.
    assert (forall urn, In urn r -> is_child queue_urn urn = false) as Hr
        by (intros urn Hin; apply Hall; now right).
    destruct (DeleteSubject_fault E x) as [e|]; intros H;
      apply (IH Hr) in H; rewrite H; [reflexivity|].
    cbn. apply children_length_delete_other, Hall. now left.
Qed.

(** The scheduler never touches the completed queue of its hunt. *)
Lemma _ScheduleClientsForHunt_keeps_completed (E : Env) (hunt : Hunt.t)
    (w : World) :
  let completed_urn := Hunt.HuntId hunt +:+ "/completed" in
  exists hunt' modified err w',
    _ScheduleClientsForHunt E hunt w = Ret (hunt', modified, err) w' /\
    Hunt.HuntId hunt' = Hunt.HuntId hunt /\
    length (children completed_urn (store w')) =
      length (children completed_urn (store w)) /\
    (results_in_range (store w) -> results_in_range (store w')).
Proof.
  intros cu. unfold _ScheduleClientsForHunt.
  destruct (GetDB E) as [e|].
  { eexists _, _, _, _. split; [reflexivity|]. repeat split; auto. }
  destruct (_ <? _).
  2: { eexists _, _, _, _. split; [reflexivity|]. repeat split; auto. }
  unfold bind at 1. unfold ListChildren.
  destruct (ListChildren_fault E _) as [e|].
  { eexists _, _, _, _. split; [reflexivity|]. repeat split; auto. }
  set (urns := takeZ _ _). destruct (is_nil urns).
  { eexists _, _, _, _. split; [reflexivity|]. repeat split; auto. }
  set (w0 := emit _ w).
  destruct (_ScheduleClientsForHunt_loop_frame E cu urns hunt false w0
              (no_sink_child_completed _))
    as (h1 & m1 & w1 & H1 & S1 & _ & _ & (L1 & _ & R1)).
  destruct (delete_all_frame E cu urns None w1)
    as (e2 & w2 & H2 & _ & (_ & R2)).
  exists h1, m1, None, w2. unfold bind. rewrite H1, H2.
  split; [reflexivity|]. split; [destruct S1 as [<- _]; reflexivity|].
  split; [|auto].
  rewrite (delete_all_elsewhere E cu urns) with (1 := fun u Hu =>
    pending_not_completed _ _ (proj1 (page_In_children _ _ _ _ _ Hu)))
    (2 := H2).
  exact L1.
Qed.

(** The [for] loop of [Update] leaves only on an empty completed
    queue. *)
Lemma Update_spin_drains (E : Env) (fuel : nat) :
  forall (hunt : Hunt.t) (modified : bool) (w : World)
         (hunt' : Hunt.t) (modified' : bool) (w' : World),
    GetDB E = None ->
    ListChildren_fault E (Hunt.HuntId hunt +:+ "/completed") = None ->
    results_in_range (store w) ->
    Update_spin E fuel hunt modified w = Ret (hunt', modified') w' ->
    Hunt.HuntId hunt' = Hunt.HuntId hunt /\
    children (Hunt.HuntId hunt +:+ "/completed") (store w') = [].
Proof.
  induction fuel as [|fuel IH];
    intros hunt modified w hunt' modified' w' Hdb Hlist Hwf; [discriminate|].
  cbn [Update_spin]. unfold bind at 1.
  destruct (_SortResultsForHunt_round E hunt w Hdb Hlist Hwf)
    as (h1 & m1 & err & w1 & H1 & Hid & Hround).
  rewrite H1. unfold bind at 1.
  set (logs := match err with Some e => _ | None => _ end).
  assert (exists w2, logs w1 = Ret tt w2 /\ store w2 = store w1)
    as (w2 & -> & St2).
  { subst logs. destruct err; eexists; split; reflexivity. }
  destruct Hround as [[Hnil St1] | [Hsome (e1 & w0 & K0 & Hdel)]].
  - rewrite Hnil. cbn. unfold ret. intros [= <- _ <-].
    split; [exact Hid|]. rewrite St2, St1. now apply page_nil.
  - set (urns := takeZ 100 _) in *.
    destruct (Z.eqb_spec (lenZ urns) 0) as [Hz|_].
    { destruct urns; [contradiction | discriminate]. }
    intros Hrest.
    destruct (delete_all_frame E (Hunt.HuntId hunt +:+ "/completed") urns e1 w0)
      as (e2 & w3 & Hdel' & _ & (_ & R3)).
    rewrite Hdel in Hdel'. injection Hdel' as <- <-.
    apply IH in Hrest; rewrite ?Hid; auto.
    + rewrite Hid in Hrest. exact Hrest.
    + rewrite St2. apply R3. now apply K0.
Qed.

(** When the datastore refuses to delete the completed records, the
    [for] loop of [Update] is never left. *)
Lemma Update_spin_never_leaves (E : Env) (fuel : nat) :
  forall (hunt : Hunt.t) (modified : bool) (w : World),
    GetDB E = None ->
    ListChildren_fault E (Hunt.HuntId hunt +:+ "/completed") = None ->
    refuses_children E (Hunt.HuntId hunt +:+ "/completed") ->
    results_in_range (store w) ->
    children (Hunt.HuntId hunt +:+ "/completed") (store w) <> [] ->
    Update_spin E fuel hunt modified w = OutOfFuel.
Proof.
  induction fuel as [|fuel IH];
    intros hunt modified w Hdb Hlist Href Hwf Hne; [reflexivity|].
  cbn [Update_spin]. unfold bind at 1.
  destruct (_SortResultsForHunt_round E hunt w Hdb Hlist Hwf)
    as (h1 & m1 & err & w1 & H1 & Hid & Hround).
  rewrite H1. unfold bind at 1.
  set (logs := match err with Some e => _ | None => _ end).
  assert (exists w2, logs w1 = Ret tt w2 /\ store w2 = store w1)
    as (w2 & -> & St2).
  { subst logs. destruct err; eexists; split; reflexivity. }
  destruct Hround as [[Hnil _] | [Hsome (e1 & w0 & (L0 & _ & R0) & Hdel)]].
  { now apply page_nil in Hnil. }
  set (urns := takeZ 100 _) in *.
  destruct (Z.eqb_spec (lenZ urns) 0) as [Hz|_].
  { destruct urns; [contradiction | discriminate]. }
  apply delete_all_refused in Hdel.
  2: { intros urn Hin. apply Href. eapply page_In_children, Hin. }
  apply IH; rewrite ?Hid, ?St2, ?Hdel; auto.
  intros Hnil. apply Hne. rewrite Hnil in L0.
  destruct (children _ (store w)); [reflexivity | discriminate].
Qed.

(** For a running hunt, [Update] leaves its loop over the completed
    queue only when the queue is empty: with a datastore at hand, a
    listing that answers and result counts in range, the pass over the
    hunt, if it returns, leaves no record under [<hunt>/completed]. *)
Theorem Update_hunt_drains_completed_queue (E : Env) (fuel : nat)
    (hunt hunt' : Hunt.t) (w w' : World) :
  Hunt.State hunt = Hunt_RUNNING ->
  GetDB E = None ->
  ListChildren_fault E (Hunt.HuntId hunt +:+ "/completed") = None ->
  results_in_range (store w) ->
  Update_hunt E fuel hunt w = Ret hunt' w' ->
  children (Hunt.HuntId hunt +:+ "/completed") (store w') = [].
Proof.
  intros Hrun Hdb Hlist Hwf. unfold Update_hunt.
  rewrite bool_decide_eq_true_2 by exact Hrun. cbn [negb].
  unfold bind at 1.
  destruct (_ScheduleClientsForHunt_keeps_completed E hunt w)
    as (h1 & m1 & err & w1 & H1 & Hid & _ & R1).
  rewrite H1. unfold bind at 1.
  set (logs := match err with Some e => _ | None => _ end).
  assert (exists w1', logs w1 = Ret tt w1' /\ store w1' = store w1)
    as (w1' & -> & St1).
  { subst logs. destruct err; eexists; split; reflexivity. }
  unfold bind at 1.
  destruct (Update_spin E fuel h1 m1 w1') as [[h2 m2] w2| |] eqn:H2;
    [|discriminate..].
  apply Update_spin_drains in H2; rewrite ?Hid, ?St1; auto.
  destruct H2 as [Hid2 Hnil]. rewrite Hid in Hid2, Hnil.
  destruct m2; [|unfold ret; now intros [= _ <-]].
  unfold bind, SetSubject, log_error, modify_world, ret. rewrite Hid2.
  destruct (SetSubject_fault E _); intros [= _ <-]; cbn; [exact Hnil|].
  apply length_zero_iff_nil.
  rewrite children_length_insert by apply self_not_child.
  now rewrite Hnil.
Qed.

Lemma Update_hunt_drains_completed_queue_witness :
  let hunt := sample_hunt Hunt_RUNNING in
  let w := sample_world hunt in
  let hunt' := value_after (Update_hunt sample_env 2 hunt w) hunt in
  let w' := world_after (Update_hunt sample_env 2 hunt w) w in
  length (children (Hunt.HuntId hunt +:+ "/completed") (store w)) = 3%nat /\
  Update_hunt sample_env 2 hunt w = Ret hunt' w' /\
  children (Hunt.HuntId hunt +:+ "/completed") (store w') = [].
Proof.
  intros hunt w hunt' w'. split; [vm_compute; reflexivity|].
  assert (Update_hunt sample_env 2 hunt w = Ret hunt' w') as Hrun
      by (vm_compute; reflexivity).
  split; [exact Hrun|].
  apply (Update_hunt_drains_completed_queue sample_env 2 hunt hunt' w w');
    [reflexivity | reflexivity | reflexivity | apply sample_store_in_range
    | exact Hrun].
Defined.

(** [Update] never leaves its loop over the completed queue of a
    running hunt when the datastore refuses to delete the records of
    that queue: every round files the same page again, reports its
    length, and the loop goes round once more. *)
Theorem Update_hunt_spins_on_undeletable_results (E : Env) (hunt : Hunt.t)
    (w : World) :
  Hunt.State hunt = Hunt_RUNNING ->
  GetDB E = None ->
  ListChildren_fault E (Hunt.HuntId hunt +:+ "/completed") = None ->
  refuses_children E (Hunt.HuntId hunt +:+ "/completed") ->
  results_in_range (store w) ->
  children (Hunt.HuntId hunt +:+ "/completed") (store w) <> [] ->
  forall fuel, Update_hunt E fuel hunt w = OutOfFuel.
Proof.
  intros Hrun Hdb Hlist Href Hwf Hne fuel. unfold Update_hunt.
  rewrite bool_decide_eq_true_2 by exact Hrun. cbn [negb].
  unfold bind at 1.
  destruct (_ScheduleClientsForHunt_keeps_completed E hunt w)
    as (h1 & m1 & err & w1 & H1 & Hid & L1 & R1).
  rewrite H1. unfold bind at 1.
  set (logs := match err with Some e => _ | None => _ end).
  assert (exists w1', logs w1 = Ret tt w1' /\ store w1' = store w1)
    as (w1' & -> & St1).
  { subst logs. destruct err; eexists; split; reflexivity. }
  unfold bind at 1.
  rewrite Update_spin_never_leaves; rewrite ?Hid, ?St1; auto.
  intros Hnil. apply Hne. rewrite Hnil in L1.
  destruct (children _ (store w)); [reflexivity | discriminate].
Qed.

Lemma Update_hunt_spins_on_undeletable_results_witness :
  let hunt := sample_hunt Hunt_RUNNING in
  let w := sample_world hunt in
  length (children (Hunt.HuntId hunt +:+ "/completed") (store w)) = 3%nat /\
  (forall fuel, Update_hunt sample_env_read_only fuel hunt w = OutOfFuel).
Proof.
  intros hunt w. split; [vm_compute; reflexivity|].
  apply (Update_hunt_spins_on_undeletable_results sample_env_read_only hunt w).
  - reflexivity.
  - reflexivity.
  - reflexivity.
  - intros urn _. discriminate.
  - apply sample_store_in_range.
  - vm_compute. discriminate.
Defined.


(* ================================================================== *)
(** ** The readers: [ListHuntClients], [GetHuntInfos], [GetHuntResults] *)

Lemma only_read_refl (w : World) : only_read w w.
Proof.
  split; [reflexivity|]. split; [reflexivity|]. exists [].
  split; [now rewrite app_nil_r | intros e []].
Qed.

Lemma only_read_trans (w1 w2 w3 : World) :
  only_read w1 w2 -> only_read w2 w3 -> only_read w1 w3.
Proof.
  intros (S1 & D1 & l1 & T1 & R1) (S2 & D2 & l2 & T2 & R2).
  split; [congruence|]. split; [congruence|]. exists (l1 ++ l2).
  split; [now rewrite T2, T1, app_assoc|].
  intros e [H|H]%in_app_or; auto.
Qed.

Lemma only_read_emit (e : Event) (w : World) :
  is_store_write e = false -> only_read w (emit e w).
Proof.
  intros He. split; [reflexivity|]. split; [reflexivity|]. exists [e].
  split; [reflexivity|]. now intros e' [<-|[]].
Qed.

(** The reading loop hands out the readable summaries of the URNs it is
    given, in their order, with one read per URN. *)
Lemma read_info_loop (E : Env) (urns : list string) :
  forall (Items : list HuntInfo.t) (w : World),
  exists w',
    for_each (read_info E) urns Items w =
      Ret (Items ++ omap (readable E (store w)) urns) w' /\
    store w' = store w /\
    dispatcher w' = dispatcher w /\
    trace w' = trace w ++ List.map EvGetSubject urns.
Proof.
  induction urns as [|urn r IH]; intros Items w.
  - exists w. cbn. rewrite !app_nil_r. repeat split.
  - cbn [for_each]. unfold bind at 1.
    assert (read_info E urn Items w =
            Ret (Items ++ omap (readable E (store w)) [urn])
                (emit (EvGetSubject urn) w)) as ->.
    { unfold read_info, bind, GetSubject_HuntInfo, readable, ret.
      cbn [omap list_omap].
      destruct (GetSubject_fault E urn); [now rewrite app_nil_r|].
      destruct (store w !! urn) as [[h|i]|]; now rewrite ?app_nil_r. }
    destruct (IH (Items ++ omap (readable E (store w)) [urn])
                (emit (EvGetSubject urn) w)) as (w' & -> & St & D & T).
    exists w'. split; [|split; [exact St|split; [exact D|]]].
    + rewrite <- app_assoc. do 2 f_equal. cbn [omap list_omap store emit].
      destruct (readable E (store w) urn); reflexivity.
    + rewrite T. cbn. now rewrite <- app_assoc.
Qed.

Lemma omap_readable_In (E : Env) (m : gmap string Subject)
    (urns : list string) (i : HuntInfo.t) :
  In i (omap (readable E m) urns) ->
  exists urn, In urn urns /\ m !! urn = Some (SubjectHuntInfo i).
Proof.
  induction urns as [|urn r IH]; [intros []|].
  cbn [omap list_omap]. unfold readable at 1.
  destruct (GetSubject_fault E urn).
  { intros (u & Hu & Hm)%IH. exists u. split; [now right | exact Hm]. }
  destruct (m !! urn) as [[h|i']|] eqn:Hm.
  - intros (u & Hu & Hm')%IH. exists u. split; [now right | exact Hm'].
  - intros [<-|(u & Hu & Hm')%IH].
    + exists urn. split; [now left | exact Hm].
    + exists u. split; [now right | exact Hm'].
  - intros (u & Hu & Hm')%IH. exists u. split; [now right | exact Hm'].
Qed.

Lemma omap_length_le {A B} (f : A -> option B) (l : list A) :
  (length (omap f l) <= length l)%nat.
Proof.
  induction l as [|x r IH]; [reflexivity|]. cbn.
  destruct (f x); cbn; lia.
Qed.



(** On an id that starts with [aff4:/hunts/H.], [GetHuntInfos] is
    [ListHuntClients] on the results queue. *)
Theorem GetHuntInfos_is_ListHuntClients_of_results (E : Env)
    (HuntId : string) (Offset Count : Z) (w : World) :
  strings_HasPrefix HuntId hunt_id_prefix = true ->
  GetHuntInfos E HuntId Offset Count w =
    ListHuntClients E HuntId ListHuntClientsRequest_RESULTS Offset Count w.
Proof.
  intros Hid. unfold GetHuntInfos, ListHuntClients. rewrite Hid.
  reflexivity.
Qed.

Lemma GetHuntInfos_is_ListHuntClients_of_results_witness :
  let w := sample_world (sample_hunt Hunt_RUNNING) in
  GetHuntInfos sample_env "aff4:/hunts/H.deadbeef" 0 0 w =
    ListHuntClients sample_env "aff4:/hunts/H.deadbeef"
      ListHuntClientsRequest_RESULTS 0 0 w.
Proof.
  intros w.
  apply (GetHuntInfos_is_ListHuntClients_of_results sample_env
           "aff4:/hunts/H.deadbeef" 0 0 w).
  reflexivity.
Defined.

(** Whatever the datastore does, the summaries [GetHuntInfos] returns
    are records stored under children of [<hunt>/results], there are no
    more of them than the request counts (fifty for a count of zero),
    and the call leaves the datastore and the mirror as they were. *)
Theorem GetHuntInfos_returns_stored_results (E : Env) (HuntId : string)
    (Offset Count : Z) (w w' : World) (Items : list HuntInfo.t) :
  0 <= Count ->
  GetHuntInfos E HuntId Offset Count w = Ret (inr Items) w' ->
  lenZ Items <= (if Count =? 0 then 50 else Count) /\
  (forall i, In i Items ->
     exists urn,
       is_child (HuntId +:+ "/results") urn = true /\
       store w !! urn = Some (SubjectHuntInfo i)) /\
  only_read w w'.
Proof.
  intros HCount. unfold GetHuntInfos.
  destruct (GetDB E); [discriminate|].
  destruct (negb _); [discriminate|].
  set (count := if Count =? 0 then 50 else Count).
  assert (0 <= count) as Hcount
      by (subst count; destruct (Count =? 0); lia).
  unfold bind at 1. unfold ListChildren.
  destruct (ListChildren_fault E _); [discriminate|].
  set (page := takeZ count _).
  set (w0 := emit _ w).
  destruct (read_info_loop E page [] w0) as (w1 & H & St & D & T).
  unfold bind. rewrite H. unfold ret. intros [= <- <-]. cbn [app].
  split; [|split].
  - pose proof (omap_length_le (readable E (store w)) page) as Hle.
    assert (lenZ page <= count) as Hpage by (apply takeZ_length, Hcount).
    unfold lenZ in *. lia.
  - intros i (urn & Hin & Hm)%omap_readable_In. exists urn.
    split; [|exact Hm]. eapply page_In_children, Hin.
  - split; [exact St|]. split; [exact D|].
    exists (EvListChildren (HuntId +:+ "/results") Offset count
              :: List.map EvGetSubject page).
    split; [rewrite T; cbn; now rewrite <- app_assoc|].
    intros e [<-|(u & <- & _)%in_map_iff]; reflexivity.
Qed.


Lemma GetHuntInfos_returns_stored_results_witness :
  let w := sample_world_triaged in
  let r := GetHuntInfos sample_env sample_hunt_id 0 0 w in
  let Items := match r with Ret (inr l) _ => l | _ => [] end in
  let w' := world_after r w in
  length Items = 1%nat /\
  lenZ Items <= (if 0 =? 0 then 50 else 0) /\
  (forall i, In i Items ->
     exists urn,
       is_child (sample_hunt_id +:+ "/results") urn = true /\
       store w !! urn = Some (SubjectHuntInfo i)) /\
  only_read w w'.
Proof.
  intros w r Items w'. split; [vm_compute; reflexivity|].
  apply (GetHuntInfos_returns_stored_results sample_env sample_hunt_id 0 0
           w w' Items); [lia | vm_compute; reflexivity].
Defined.

Lemma GetHuntResults_page_only_read (E : Env) (Offset Count : Z)
    (client_urns : list string) :
  forall (offset : Z) (Items : list string) (w w' : World)
         (r : (error + list string) + (Z * list string)),
    GetHuntResults_page E Offset Count client_urns offset Items w = Ret r w' ->
    only_read w w'.
Proof.
  induction client_urns as [|urn rest IH]; intros offset Items w w' r.
  - cbn. unfold ret. intros [= _ <-]. apply only_read_refl.
  - cbn [GetHuntResults_page]. unfold bind at 1.
    assert (only_read w (emit (EvGetSubject urn) w)) as R0
        by now apply only_read_emit.
    destruct (GetSubject_HuntInfo E urn w) as [[hunt_info err] w0| |] eqn:Hget;
      [|discriminate..].
    assert (w0 = emit (EvGetSubject urn) w) as ->.
    { unfold GetSubject_HuntInfo in Hget. repeat case_match; congruence. }
    destruct err as [e|].
    { intros H%IH. now apply (only_read_trans _ _ _ R0). }
    destruct (HuntInfo.Result hunt_info) as [result|]; [|discriminate].
    destruct (_ <? _).
    { intros H%IH. now apply (only_read_trans _ _ _ R0). }
    unfold bind at 1. unfold GetFlowResults.
    set (w1 := emit (EvGetFlowResults _ _ _ _) _).
    assert (only_read w w1) as R1.
    { apply (only_read_trans _ _ _ R0). now apply only_read_emit. }
    destruct (GetFlowResults_reply E _ _ _ _) as [e|flow_items].
    { unfold ret. now intros [= _ <-]. }
    destruct (_ <=? _).
    { unfold ret. now intros [= _ <-]. }
    intros H%IH. now apply (only_read_trans _ _ _ R1).
Qed.

Lemma GetHuntResults_pages_only_read (E : Env) (HuntId : string)
    (Offset Count : Z) (fuel : nat) :
  forall (offset children_offset : Z) (Items : list string) (w w' : World)
         (r : error + list string),
    GetHuntResults_pages E fuel HuntId Offset Count offset children_offset
      Items w = Ret r w' ->
    only_read w w'.
Proof.
  induction fuel as [|fuel IH]; intros offset co Items w w' r; [discriminate|].
  cbn [GetHuntResults_pages]. unfold bind at 1. unfold ListChildren.
  set (w0 := emit _ w).
  assert (only_read w w0) as R0 by now apply only_read_emit.
  destruct (ListChildren_fault E _).
  { unfold ret. now intros [= _ <-]. }
  destruct (is_nil _).
  { unfold ret. now intros [= _ <-]. }
  unfold bind at 1.
  destruct (GetHuntResults_page E Offset Count _ offset Items w0)
    as [[done|[offset' Items']] w1| |] eqn:Hpage; [| |discriminate..];
    apply GetHuntResults_page_only_read in Hpage.
  - unfold ret. intros [= _ <-]. now apply (only_read_trans _ _ _ R0).
  - intros H%IH. apply (only_read_trans _ _ _ R0).
    now apply (only_read_trans _ _ _ Hpage).
Qed.

Lemma dropZ_length {A} (n : Z) (l : list A) :
  0 <= n -> dropZ n l <> [] -> lenZ (dropZ n l) = lenZ l - n.
Proof.
  intros Hn. rewrite dropZ_skipn. unfold lenZ. rewrite length_skipn.
  intros Hne.
  assert (Z.to_nat n < length l)%nat; [|lia].
  destruct (Nat.lt_ge_cases (Z.to_nat n) (length l)) as [H|H]; [exact H|].
  now rewrite skipn_all2 in Hne by exact H.
Qed.

Lemma GetSubject_HuntInfo_readable (E : Env) (urn : string) (w : World) :
  exists summary err,
    GetSubject_HuntInfo E urn w =
      Ret (summary, err) (emit (EvGetSubject urn) w) /\
    match readable E (store w) urn with
    | Some i => summary = i /\ err = None
    | None => err <> None
    end.
Proof.
  unfold GetSubject_HuntInfo, readable.
  destruct (GetSubject_fault E urn) as [e|].
  { eexists _, _. split; [reflexivity | discriminate]. }
  destruct (store w !! urn) as [[h|i]|]; eexists _, _;
    (split; [reflexivity|]); (discriminate || now split).
Qed.

(** One page of [GetHuntResults] gets through when every summary it can
    read carries the context of its flow. *)
Lemma GetHuntResults_page_returns (E : Env) (Offset Count : Z)
    (m : gmap string Subject) (client_urns : list string) :
  (forall urn i, In urn client_urns -> readable E m urn = Some i ->
                 HuntInfo.Result i <> None) ->
  forall (offset : Z) (Items : list string) (w : World),
    store w = m ->
    exists r w',
      GetHuntResults_page E Offset Count client_urns offset Items w = Ret r w'.
Proof.
  induction client_urns as [|urn rest IH]; intros Hctx offset Items w Hm.
  { now eexists _, _. }
  assert (forall u i, In u rest -> readable E m u = Some i ->
                      HuntInfo.Result i <> None) as Hrest
      by (intros u i Hu; apply Hctx; now right).
  cbn [GetHuntResults_page]. unfold bind at 1.
  destruct (GetSubject_HuntInfo_readable E urn w)
    as (hunt_info & err & -> & Hread).
  destruct err as [e|]; [now apply IH|].
  rewrite Hm in Hread.
  destruct (readable E m urn) as [i|] eqn:Hi; [|contradiction].
  destruct Hread as [-> _]. rename Hi into Hread.
  destruct (HuntInfo.Result i) as [result|] eqn:Hres.
  2: { exfalso. apply (Hctx urn i); [now left | exact Hread | exact Hres]. }
  destruct (_ <? _); [now apply IH|].
  unfold bind at 1. unfold GetFlowResults.
  destruct (GetFlowResults_reply E _ _ _ _) as [e|flow_items];
    [now eexists _, _|].
  destruct (_ <=? _); [now eexists _, _|]. now apply IH.
Qed.

(** The paging loop of [GetHuntResults] leaves before it has gone round
    once more than there are children to list. *)
Lemma GetHuntResults_pages_returns (E : Env) (HuntId : string)
    (Offset Count : Z) (m : gmap string Subject) (fuel : nat) :
  let listed := children (HuntId +:+ "/results") m in
  (forall urn i, In urn listed -> readable E m urn = Some i ->
                 HuntInfo.Result i <> None) ->
  lenZ listed < U64.modulus ->
  forall (offset children_offset : Z) (Items : list string) (w : World),
    store w = m ->
    0 <= children_offset <= lenZ listed ->
    lenZ listed - children_offset < Z.of_nat fuel ->
    exists r w',
      GetHuntResults_pages E fuel HuntId Offset Count offset children_offset
        Items w = Ret r w'.
Proof.
  intros listed Hctx Hmod.
  induction fuel as [|fuel IH]; intros offset co Items w Hm Hco Hfuel; [lia|].
  cbn [GetHuntResults_pages]. unfold bind at 1. unfold ListChildren.
  set (w0 := emit _ w).
  destruct (ListChildren_fault E _); [now eexists _, _|].
  rewrite Hm. fold listed. set (page := takeZ 50 (dropZ co listed)).
  destruct (is_nil page) eqn:Hnil; [now eexists _, _|].
  unfold bind at 1.
  destruct (GetHuntResults_page_returns E Offset Count m page) with
    (offset := offset) (Items := Items) (w := w0) as (r & w1 & Hrun).
  { intros urn i Hin. apply Hctx. subst page.
    eapply dropZ_In, takeZ_In, Hin. }
  { exact Hm. }
  rewrite Hrun. destruct r as [done|[offset' Items']]; [now eexists _, _|].
  apply GetHuntResults_page_only_read in Hrun as (St & _).
  assert (dropZ co listed <> []) as Hne.
  { intros Hd. subst page. rewrite Hd in Hnil. discriminate. }
  pose proof (dropZ_length co listed (proj1 Hco) Hne) as Hlen.
  assert (1 <= lenZ page <= lenZ (dropZ co listed)) as Hp.
  { split.
    - destruct page; [discriminate|]. unfold lenZ. cbn. lia.
    - subst page. unfold lenZ.
      pose proof (takeZ_length_le 50 (dropZ co listed)). lia. }
  assert (U64.add co (lenZ page) = co + lenZ page) as ->.
  { apply U64_wrap_small. unfold U64.in_range. lia. }
  apply IH; [now rewrite St | lia | lia].
Qed.

(** [GetHuntResults] returns, and has written nothing, when every
    summary it can read under [<hunt>/results] carries the context of
    its flow: one round of the paging loop more than there are children
    under the queue is enough. *)
Theorem GetHuntResults_returns (E : Env) (fuel : nat) (HuntId : string)
    (Offset Count : Z) (w : World) :
  let listed := children (HuntId +:+ "/results") (store w) in
  (forall urn i, In urn listed -> readable E (store w) urn = Some i ->
                 HuntInfo.Result i <> None) ->
  lenZ listed < U64.modulus ->
  (length listed < fuel)%nat ->
  exists r w',
    GetHuntResults E fuel HuntId Offset Count w = Ret r w' /\
    only_read w w'.
Proof.
  intros listed Hctx Hmod Hfuel.
  assert (exists r w', GetHuntResults E fuel HuntId Offset Count w = Ret r w')
    as (r & w' & Hrun).
  { unfold GetHuntResults. destruct (GetDB E); [now eexists _, _|].
    destruct (negb _); [now eexists _, _|].
    apply (GetHuntResults_pages_returns E HuntId Offset _ (store w));
      fold listed; unfold lenZ in *; auto; lia. }
  exists r, w'. split; [exact Hrun|].
  revert Hrun. unfold GetHuntResults.
  destruct (GetDB E); [unfold ret; intros [= _ <-]; apply only_read_refl|].
  destruct (negb _); [unfold ret; intros [= _ <-]; apply only_read_refl|].
  apply GetHuntResults_pages_only_read.
Qed.

Lemma sample_results_listed :
  children (sample_hunt_id +:+ "/results") sample_store_results =
    ["aff4:/hunts/H.deadbeef/results/C.7";
     "aff4:/hunts/H.deadbeef/results/C.5"].
Proof. vm_compute. reflexivity. Qed.

Lemma sample_results_have_context (E : Env) (urn : string) (i : HuntInfo.t) :
  In urn (children (sample_hunt_id +:+ "/results") sample_store_results) ->
  readable E sample_store_results urn = Some i ->
  HuntInfo.Result i <> None.
Proof.
  rewrite sample_results_listed. unfold readable.
  intros [<-|[<-|[]]]; destruct (GetSubject_fault E _); try discriminate.
  - replace (sample_store_results !! "aff4:/hunts/H.deadbeef/results/C.7")
      with (Some (SubjectHuntInfo
                    (HuntInfo.mk "C.7" sample_hunt_id "F.C.7" None
                       HuntInfo_PENDING
                       (Some (FlowContext.mk FlowContext_TERMINATED 4 0 "")))))
      by (vm_compute; reflexivity).
    now intros [= <-].
  - replace (sample_store_results !! "aff4:/hunts/H.deadbeef/results/C.5")
      with (Some (SubjectHuntInfo
                    (HuntInfo.mk "C.5" sample_hunt_id "F.C.5" None
                       HuntInfo_PENDING
                       (Some (FlowContext.mk FlowContext_TERMINATED 2 0 "")))))
      by (vm_compute; reflexivity).
    now intros [= <-].
Qed.

Lemma GetHuntResults_returns_witness :
  let w := sample_world_results in
  length (children (sample_hunt_id +:+ "/results") (store w)) = 2%nat /\
  exists r w',
    GetHuntResults sample_env_rows 3 sample_hunt_id 0 0 w = Ret r w' /\
    only_read w w'.
Proof.
  intros w. split; [vm_compute; reflexivity|].
  apply (GetHuntResults_returns sample_env_rows 3 sample_hunt_id 0 0 w).
  - exact (sample_results_have_context sample_env_rows).
  - vm_compute. reflexivity.
  - vm_compute. lia.
Defined.

(** [GetHuntResults] dereferences the [Result] of every summary it can
    read: when the first summary of the first page that can be read has
    none, the call ends in a nil-pointer panic. *)
Theorem GetHuntResults_panics_without_flow_context (E : Env) (fuel : nat)
    (HuntId : string) (Offset Count : Z) (w : World)
    (unread : list string) (urn : string) (later : list string)
    (i : HuntInfo.t) :
  GetDB E = None ->
  strings_HasPrefix HuntId hunt_id_prefix = true ->
  ListChildren_fault E (HuntId +:+ "/results") = None ->
  takeZ 50 (dropZ 0 (children (HuntId +:+ "/results") (store w))) =
    unread ++ urn :: later ->
  (forall u, In u unread -> readable E (store w) u = None) ->
  readable E (store w) urn = Some i ->
  HuntInfo.Result i = None ->
  GetHuntResults E (S fuel) HuntId Offset Count w = Panic.
Proof.
  intros Hdb Hid Hlist Hpage Hunread Hread Hres. unfold GetHuntResults.
  rewrite Hdb, Hid. cbn [negb GetHuntResults_pages]. unfold bind at 1.
  unfold ListChildren. rewrite Hlist, Hpage.
  replace (is_nil (unread ++ urn :: later)) with false
    by (now destruct unread).
  unfold bind at 1.
  set (w0 := emit _ w).
  assert (store w0 = store w) as Hst by reflexivity.
  clearbody w0. clear Hpage.
  replace (GetHuntResults_page E Offset (if Count =? 0 then 50 else Count)
             (unread ++ urn :: later) 0 [] w0) with
    (@Panic ((error + list string) + (Z * list string))); [reflexivity|].
  symmetry. revert w0 Hst.
  induction unread as [|u r IH]; intros w0 Hst.
  - cbn [app GetHuntResults_page]. unfold bind at 1.
    destruct (GetSubject_HuntInfo_readable E urn w0)
      as (summary & err & -> & Hsome).
    rewrite Hst, Hread in Hsome. destruct Hsome as [-> ->].
    now rewrite Hres.
  - cbn [app GetHuntResults_page]. unfold bind at 1.
    destruct (GetSubject_HuntInfo_readable E u w0)
      as (summary & err & -> & Hnone).
    rewrite Hst, (Hunread u) in Hnone by now left.
    destruct err as [e|]; [|contradiction].
    apply IH; [intros u' Hu'; apply Hunread; now right | exact Hst].
Qed.


Lemma GetHuntResults_panics_without_flow_context_witness :
  GetHuntResults sample_env 1 sample_hunt_id 0 0 sample_world_no_context =
    Panic.
Proof.
  apply (GetHuntResults_panics_without_flow_context sample_env 0
           sample_hunt_id 0 0 sample_world_no_context []
           "aff4:/hunts/H.deadbeef/results/C.4" []
           (sample_info "C.4" None)).
  - reflexivity.
  - reflexivity.
  - reflexivity.
  - vm_compute. reflexivity.
  - intros u [].
  - vm_compute. reflexivity.
  - reflexivity.
Defined.

Lemma U64_add_not_below_zero (a b : Z) : (U64.add a b <? 0) = false.
Proof.
  apply Z.ltb_ge. unfold U64.add. apply U64_wrap_range.
Qed.

Lemma U64_sub_wraps (n : Z) :
  0 < n < U64.modulus -> U64.sub 0 n = U64.modulus - n.
Proof.
  intros Hn. unfold U64.sub, U64.wrap.
  replace (0 - n) with ((U64.modulus - n) + (-1) * U64.modulus) by lia.
  rewrite Z.mod_add by lia. apply Z.mod_small. lia.
Qed.

(** [first_result := in.Offset - offset] is an unsigned subtraction, and
    the test [first_result < 0] after it never holds.  A request for the
    rows from the start therefore reads the first flow from row 0, and,
    when that flow gave some rows but fewer than asked for, asks the
    second flow for the rows from [2^64 - n], [n] being the number of
    rows the first flow gave. *)
Theorem GetHuntResults_second_flow_read_from_wrapped_row (E : Env)
    (fuel : nat) (HuntId : string) (Count : Z) (w w' : World)
    (u1 u2 : string) (rest : list string) (i1 i2 : HuntInfo.t)
    (r1 r2 : FlowContext.t) (rows : list string)
    (r : error + list string) :
  let count := if Count =? 0 then 50 else Count in
  GetDB E = None ->
  strings_HasPrefix HuntId hunt_id_prefix = true ->
  ListChildren_fault E (HuntId +:+ "/results") = None ->
  children (HuntId +:+ "/results") (store w) = u1 :: u2 :: rest ->
  readable E (store w) u1 = Some i1 ->
  HuntInfo.Result i1 = Some r1 ->
  readable E (store w) u2 = Some i2 ->
  HuntInfo.Result i2 = Some r2 ->
  GetFlowResults_reply E (HuntInfo.ClientId i1) (HuntInfo.FlowId i1) 0 count =
    inr rows ->
  0 < lenZ rows < count ->
  count < U64.modulus ->
  GetHuntResults E fuel HuntId 0 Count w = Ret r w' ->
  exists later,
    trace w' =
      trace w ++
      [EvListChildren (HuntId +:+ "/results") 0 50;
       EvGetSubject u1;
       EvGetFlowResults (HuntInfo.ClientId i1) (HuntInfo.FlowId i1) 0 count;
       EvGetSubject u2;
       EvGetFlowResults (HuntInfo.ClientId i2) (HuntInfo.FlowId i2)
         (U64.modulus - lenZ rows) (count - lenZ rows)] ++ later.
Proof.
  intros count Hdb Hid Hlist Hch Hu1 Hr1 Hu2 Hr2 Hrows Hn Hcount.
  unfold GetHuntResults. rewrite Hdb, Hid. fold count. cbn [negb].
  destruct fuel as [|fuel]; [discriminate|].
  cbn [GetHuntResults_pages]. unfold bind at 1. unfold ListChildren.
  rewrite Hlist, Hch.
  change (takeZ 50 (dropZ 0 (u1 :: u2 :: rest)))
    with (u1 :: u2 :: takeZ 48 rest).
  cbn [is_nil]. set (w0 := emit _ w).
  assert (store w0 = store w) as St0 by reflexivity.
  assert (trace w0 = trace w ++ [EvListChildren (HuntId +:+ "/results") 0 50])
    as T0 by reflexivity.
  clearbody w0.
  unfold bind at 1. cbn [GetHuntResults_page]. unfold bind at 1.
  destruct (GetSubject_HuntInfo_readable E u1 w0) as (s1 & e1 & -> & H1).
  rewrite St0, Hu1 in H1. destruct H1 as [-> ->]. rewrite Hr1.
  rewrite U64_add_not_below_zero.
  unfold bind at 1. unfold GetFlowResults.
  replace (U64.sub 0 0) with 0 by reflexivity.
  replace (U64.sub count 0) with count
    by (unfold U64.sub; rewrite Z.sub_0_r, U64_wrap_small;
        [reflexivity | unfold U64.in_range; lia]).
  rewrite Hrows. cbn [app].
  replace (count <=? lenZ rows) with false by (symmetry; apply Z.leb_gt; lia).
  replace (U64.add 0 (lenZ rows)) with (lenZ rows)
    by (unfold U64.add; rewrite Z.add_0_l, U64_wrap_small;
        [reflexivity | unfold U64.in_range; lia]).
  set (w2 := emit (EvGetFlowResults _ _ _ _) _).
  assert (store w2 = store w) as St2 by exact St0.
  assert (trace w2 =
          trace w ++
          [EvListChildren (HuntId +:+ "/results") 0 50; EvGetSubject u1;
           EvGetFlowResults (HuntInfo.ClientId i1) (HuntInfo.FlowId i1)
             0 count]) as T2.
  { subst w2. cbn [trace emit]. rewrite T0, <- !app_assoc. reflexivity. }
  clearbody w2.
  cbn [GetHuntResults_page]. unfold bind at 1.
  destruct (GetSubject_HuntInfo_readable E u2 w2) as (s2 & e2 & -> & H2).
  rewrite St2, Hu2 in H2. destruct H2 as [-> ->]. rewrite Hr2.
  rewrite U64_add_not_below_zero.
  unfold bind at 1. unfold GetFlowResults.
  rewrite U64_sub_wraps by lia.
  replace (U64.sub count (lenZ rows)) with (count - lenZ rows)
    by (unfold U64.sub; rewrite U64_wrap_small;
        [reflexivity | unfold U64.in_range; lia]).
  set (w4 := emit (EvGetFlowResults _ _ _ _) _).
  assert (trace w4 =
          trace w ++
          [EvListChildren (HuntId +:+ "/results") 0 50; EvGetSubject u1;
           EvGetFlowResults (HuntInfo.ClientId i1) (HuntInfo.FlowId i1)
             0 count;
           EvGetSubject u2;
           EvGetFlowResults (HuntInfo.ClientId i2) (HuntInfo.FlowId i2)
             (U64.modulus - lenZ rows) (count - lenZ rows)]) as T4.
  { subst w4. cbn [trace emit]. rewrite T2, <- !app_assoc. reflexivity. }
  clearbody w4.
  assert (forall w5, only_read w4 w5 ->
            exists later,
              trace w5 =
                trace w ++
                [EvListChildren (HuntId +:+ "/results") 0 50; EvGetSubject u1;
                 EvGetFlowResults (HuntInfo.ClientId i1) (HuntInfo.FlowId i1)
                   0 count;
                 EvGetSubject u2;
                 EvGetFlowResults (HuntInfo.ClientId i2) (HuntInfo.FlowId i2)
                   (U64.modulus - lenZ rows) (count - lenZ rows)] ++ later)
    as Hlater.
  { intros w5 (_ & _ & later & T5 & _). exists later.
    rewrite T5, T4, <- app_assoc. reflexivity. }
  destruct (GetFlowResults_reply E (HuntInfo.ClientId i2) (HuntInfo.FlowId i2)
              _ _) as [e|rows2].
  { unfold ret. intros [= _ <-]. apply Hlater, only_read_refl. }
  destruct (_ <=? _).
  { unfold ret. intros [= _ <-]. apply Hlater, only_read_refl. }
  destruct (GetHuntResults_page E 0 count (takeZ 48 rest) _ _ w4)
    as [[done|[offset' Items']] w5| |] eqn:Hpage; [| |discriminate..];
    apply GetHuntResults_page_only_read in Hpage.
  - unfold ret. intros [= _ <-]. now apply Hlater.
  - intros H%GetHuntResults_pages_only_read. apply Hlater.
    now apply (only_read_trans _ _ _ Hpage).
Qed.

Lemma GetHuntResults_second_flow_read_from_wrapped_row_witness :
  let w := sample_world_results in
  let run := GetHuntResults sample_env_rows 3 sample_hunt_id 0 3 w in
  let w' := world_after run w in
  run = Ret (inr ["C.7-a"; "C.7-b"; "C.5-a"; "C.5-b"]) w' /\
  exists later,
    trace w' =
      trace w ++
      [EvListChildren (sample_hunt_id +:+ "/results") 0 50;
       EvGetSubject "aff4:/hunts/H.deadbeef/results/C.7";
       EvGetFlowResults "C.7" "F.C.7" 0 3;
       EvGetSubject "aff4:/hunts/H.deadbeef/results/C.5";
       EvGetFlowResults "C.5" "F.C.5" 18446744073709551614 1] ++ later.
Proof.
  intros w run w'.
  assert (run = Ret (inr ["C.7-a"; "C.7-b"; "C.5-a"; "C.5-b"]) w') as Hrun
      by (vm_compute; reflexivity).
  split; [exact Hrun|].
  exact (GetHuntResults_second_flow_read_from_wrapped_row sample_env_rows 3
           sample_hunt_id 3 w w'
           "aff4:/hunts/H.deadbeef/results/C.7"
           "aff4:/hunts/H.deadbeef/results/C.5" []
           (HuntInfo.mk "C.7" sample_hunt_id "F.C.7" None HuntInfo_PENDING
              (Some (FlowContext.mk FlowContext_TERMINATED 4 0 "")))
           (HuntInfo.mk "C.5" sample_hunt_id "F.C.5" None HuntInfo_PENDING
              (Some (FlowContext.mk FlowContext_TERMINATED 2 0 "")))
           (FlowContext.mk FlowContext_TERMINATED 4 0 "")
           (FlowContext.mk FlowContext_TERMINATED 2 0 "")
           ["C.7-a"; "C.7-b"] _
           eq_refl eq_refl eq_refl sample_results_listed
           ltac:(vm_compute; reflexivity) eq_refl
           ltac:(vm_compute; reflexivity) eq_refl
           eq_refl ltac:(vm_compute; split; reflexivity)
           ltac:(vm_compute; reflexivity) Hrun).
Defined.


(* ================================================================== *)
(** ** The trace only grows *)

Section Respects.

Context (R : World -> World -> Prop) `{!Reflexive R} `{!Transitive R}.

Lemma respects_ret {A} (a : A) : respects R (ret a).
Proof. intros w a' w'. unfold ret. now intros [= _ <-]. Qed.

Lemma respects_panic {A} : respects R (@panic A).
Proof. intros w a w'. discriminate. Qed.

Lemma respects_out_of_fuel {A} : respects R (@out_of_fuel A).
Proof. intros w a w'. discriminate. Qed.

Lemma respects_get_world : respects R get_world.
Proof. intros w a w'. unfold get_world. now intros [= _ <-]. Qed.

Lemma respects_bind {A B} (m : M A) (k : A -> M B) :
  respects R m -> (forall a, respects R (k a)) -> respects R (bind m k).
Proof.
  intros Hm Hk w b w'. unfold bind.
  destruct (m w) as [a w1| |] eqn:H1; [|discriminate..].
  intros H2. transitivity w1; [exact (Hm _ _ _ H1) | exact (Hk _ _ _ _ H2)].
Qed.

Lemma respects_for_each {A S} (body : A -> S -> M S) (l : list A) :
  (forall x s, respects R (body x s)) ->
  forall s, respects R (for_each body l s).
Proof.
  intros Hbody. induction l as [|x r IH]; intros s; cbn [for_each].
  - apply respects_ret.
  - apply respects_bind; [apply Hbody | exact IH].
Qed.

End Respects.

#[global] Instance extends_refl : Reflexive extends.
Proof. intros w. exists []. now rewrite app_nil_r. Qed.

#[global] Instance extends_trans : Transitive extends.
Proof.
  intros w1 w2 w3 [l1 H1] [l2 H2]. exists (l1 ++ l2).
  now rewrite H2, H1, app_assoc.
Qed.

Lemma extends_emit (e : Event) (w : World) : extends w (emit e w).
Proof. now exists [e]. Qed.

Create HintDb grows discriminated.

Lemma grows_modify_emit (e : Event) :
  respects extends (modify_world (emit e)).
Proof.
  intros w a w'. unfold modify_world. intros [= _ <-]. apply extends_emit.
Qed.

Lemma grows_set_dispatcher (d : option HuntDispatcher) :
  respects extends (modify_world (set_dispatcher d)).
Proof.
  intros w a w'. unfold modify_world. intros [= _ <-]. exists [].
  cbn. now rewrite app_nil_r.
Qed.

Lemma grows_time_Now (E : Env) : respects extends (time_Now E).
Proof.
  intros w a w'. unfold time_Now. intros [= _ <-]. reflexivity.
Qed.

Lemma grows_log_error (msg : string) (err : option error) :
  respects extends (log_error msg err).
Proof. apply grows_modify_emit. Qed.

Lemma grows_ListChildren (E : Env) (urn : string) (offset length : Z) :
  respects extends (ListChildren E urn offset length).
Proof.
  intros w a w'. unfold ListChildren.
  destruct (ListChildren_fault E urn); intros [= _ <-]; apply extends_emit.
Qed.

Lemma grows_GetSubject_Hunt (E : Env) (urn : string) :
  respects extends (GetSubject_Hunt E urn).
Proof.
  intros w a w'. unfold GetSubject_Hunt.
  repeat case_match; intros [= _ <-]; apply extends_emit.
Qed.

Lemma grows_GetSubject_HuntInfo (E : Env) (urn : string) :
  respects extends (GetSubject_HuntInfo E urn).
Proof.
  intros w a w'. unfold GetSubject_HuntInfo.
  repeat case_match; intros [= _ <-]; apply extends_emit.
Qed.

Lemma grows_SetSubject (E : Env) (urn : string) (v : Subject) :
  respects extends (SetSubject E urn v).
Proof.
  intros w a w'. unfold SetSubject.
  case_match; intros [= _ <-]; now exists [EvSetSubject urn v].
Qed.

Lemma grows_DeleteSubject (E : Env) (urn : string) :
  respects extends (DeleteSubject E urn).
Proof.
  intros w a w'. unfold DeleteSubject.
  case_match; intros [= _ <-]; now exists [EvDeleteSubject urn].
Qed.

Lemma grows_LaunchFlow (E : Env) (client_id flow_name : string)
    (args : HuntInfo.t) :
  respects extends (LaunchFlow E client_id flow_name args).
Proof.
  intros w a w'. unfold LaunchFlow. intros [= _ <-]. apply extends_emit.
Qed.

Lemma grows_GetFlowResults (E : Env) (client_id flow_id : string)
    (offset count : Z) :
  respects extends (GetFlowResults E client_id flow_id offset count).
Proof.
  intros w a w'. unfold GetFlowResults. intros [= _ <-]. apply extends_emit.
Qed.

#[global] Hint Resolve grows_modify_emit grows_set_dispatcher grows_time_Now
  grows_log_error grows_ListChildren grows_GetSubject_Hunt
  grows_GetSubject_HuntInfo grows_SetSubject grows_DeleteSubject
  grows_LaunchFlow grows_GetFlowResults : grows.

(** Goes through the binds, loops and case distinctions of a function
    down to the calls the hint database knows. *)
Ltac grows :=
  repeat (intros;
    match goal with
    | |- Reflexive _ => typeclasses eauto
    | |- Transitive _ => typeclasses eauto
    | |- respects _ _ => solve [auto with grows]
    | |- respects _ (ret _) => apply respects_ret
    | |- respects _ panic => apply respects_panic
    | |- respects _ out_of_fuel => apply respects_out_of_fuel
    | |- respects _ get_world => apply respects_get_world
    | |- respects _ (bind _ _) => apply respects_bind
    | |- respects _ (for_each _ _ _) => apply respects_for_each
    | |- respects _ _ => case_match
    end).

Lemma grows_delete_all (E : Env) (urns : list string) (err : option error) :
  respects extends (delete_all E urns err).
Proof. unfold delete_all, delete_urn. grows. Qed.

Lemma grows__ScheduleClientsForHunt (E : Env) (hunt : Hunt.t) :
  respects extends (_ScheduleClientsForHunt E hunt).
Proof.
  pose proof (grows_delete_all E).
  unfold _ScheduleClientsForHunt, _ScheduleClientsForHunt_body. grows.
Qed.

Lemma grows__SortResultsForHunt (E : Env) (hunt : Hunt.t) :
  respects extends (_SortResultsForHunt E hunt).
Proof.
  pose proof (grows_delete_all E).
  unfold _SortResultsForHunt, _SortResultsForHunt_body. grows.
Qed.

#[global] Hint Resolve grows_delete_all grows__ScheduleClientsForHunt
  grows__SortResultsForHunt : grows.

Lemma grows_Update_spin (E : Env) (fuel : nat) :
  forall (hunt : Hunt.t) (modified : bool),
    respects extends (Update_spin E fuel hunt modified).
Proof.
  induction fuel as [|fuel IH]; intros hunt modified; cbn [Update_spin];
    grows.
Qed.

#[global] Hint Resolve grows_Update_spin : grows.

Lemma grows_Update_hunt (E : Env) (fuel : nat) (hunt : Hunt.t) :
  respects extends (Update_hunt E fuel hunt).
Proof. unfold Update_hunt. grows. Qed.

#[global] Hint Resolve grows_Update_hunt : grows.

Lemma grows_Update_hunts (E : Env) (fuel : nat) (l : list Hunt.t) :
  respects extends (Update_hunts E fuel l).
Proof. induction l as [|hunt r IH]; cbn [Update_hunts]; grows. Qed.

#[global] Hint Resolve grows_Update_hunts : grows.

Lemma grows_Update (E : Env) (fuel : nat) (self : HuntDispatcher) :
  respects extends (Update E fuel self).
Proof. unfold Update. grows. Qed.

Lemma grows_load_hunts (E : Env) (hunt_urns : list string) :
  forall acc, respects extends (load_hunts E hunt_urns acc).
Proof.
  induction hunt_urns as [|u r IH]; intros acc; cbn [load_hunts]; grows.
Qed.

#[global] Hint Resolve grows_Update grows_load_hunts : grows.

Lemma grows_NewHuntDispatcher (E : Env) (fuel : nat) :
  respects extends (NewHuntDispatcher E fuel).
Proof. unfold NewHuntDispatcher. grows. Qed.

#[global] Hint Resolve grows_NewHuntDispatcher : grows.

Lemma grows_Refresh (E : Env) (fuel : nat) :
  respects extends (Refresh E fuel).
Proof.
  unfold Refresh. grows.
Qed.

#[global] Hint Resolve grows_Refresh : grows.


(* ================================================================== *)
(** ** [CreateHunt] *)

(** When [CreateHunt] returns an error it has changed nothing: the error
    is that of [GetDB], before any call, or that of the one write of the
    hunt, which did not go through; the mirror is not refreshed and no
    client is notified. *)
Theorem CreateHunt_failure_changes_nothing (E : Env) (fuel : nat)
    (hunt : Hunt.t) (w w' : World) (e : error) :
  CreateHunt E fuel hunt w = Ret (inl e) w' ->
  store w' = store w /\
  dispatcher w' = dispatcher w /\
  ((GetDB E = Some e /\ trace w' = trace w) \/
   (GetDB E = None /\
    SetSubject_fault E (GetNewHuntId E) = Some e /\
    exists stored,
      trace w' =
        trace w ++ [EvSetSubject (GetNewHuntId E) (SubjectHunt stored)])).
Proof.
  destruct (GetDB E) as [e0|] eqn:Hdb.
  { unfold CreateHunt. rewrite Hdb. unfold ret. intros [= <- <-].
    repeat split. now left. }
  destruct (CreateHunt_runs E fuel hunt w Hdb) as (stored & -> & _).
  unfold bind at 1. unfold SetSubject.
  destruct (SetSubject_fault E (GetNewHuntId E)) as [e1|].
  - unfold ret. intros [= <- <-]. repeat split. right.
    repeat split. now exists stored.
  - unfold bind. destruct (Refresh E fuel _) as [[] w2| |]; discriminate.
Qed.

Lemma CreateHunt_failure_changes_nothing_witness :
  let w := sample_world_mirrored (sample_hunt Hunt_RUNNING) in
  let w' := world_after (CreateHunt sample_env_read_only 1 Hunt.zero w) w in
  CreateHunt sample_env_read_only 1 Hunt.zero w =
    Ret (inl "read-only datastore") w' /\
  store w' = store w /\
  dispatcher w' = dispatcher w /\
  ((GetDB sample_env_read_only = Some "read-only datastore" /\
    trace w' = trace w) \/
   (GetDB sample_env_read_only = None /\
    SetSubject_fault sample_env_read_only (GetNewHuntId sample_env_read_only) =
      Some "read-only datastore" /\
    exists stored,
      trace w' =
        trace w ++
        [EvSetSubject (GetNewHuntId sample_env_read_only)
           (SubjectHunt stored)])).
Proof.
  intros w w'.
  assert (CreateHunt sample_env_read_only 1 Hunt.zero w =
          Ret (inl "read-only datastore") w') as Hrun
      by (vm_compute; reflexivity).
  split; [exact Hrun|].
  exact (CreateHunt_failure_changes_nothing sample_env_read_only 1 Hunt.zero
           w w' "read-only datastore" Hrun).
Defined.




(* ================================================================== *)
(** ** Building the mirror: [Update], [NewHuntDispatcher],
       [GetHuntDispatcher] *)

#[global] Instance only_read_reflexive : Reflexive only_read.
Proof. exact only_read_refl. Qed.

#[global] Instance only_read_transitive : Transitive only_read.
Proof. exact only_read_trans. Qed.

Lemma GetSubject_Hunt_readable (E : Env) (urn : string) (w : World) :
  exists hunt err,
    GetSubject_Hunt E urn w = Ret (hunt, err) (emit (EvGetSubject urn) w) /\
    match readable_hunt E (store w) urn with
    | Some h => hunt = h /\ err = None
    | None => err <> None
    end.
Proof.
  unfold GetSubject_Hunt, readable_hunt.
  destruct (GetSubject_fault E urn) as [e|].
  { eexists _, _. split; [reflexivity | discriminate]. }
  destruct (store w !! urn) as [[h|i]|]; eexists _, _;
    (split; [reflexivity|]); (discriminate || now split).
Qed.

(** The loading loop of [NewHuntDispatcher] reads the URNs in order and
    stops at the first it cannot read. *)
Lemma load_hunts_spec (E : Env) (m : gmap string Subject)
    (hunt_urns : list string) :
  forall (acc : list Hunt.t) (w : World),
    store w = m ->
    exists r w',
      load_hunts E hunt_urns acc w = Ret r w' /\
      only_read w w' /\
      match r with
      | inl _ => exists urn, In urn hunt_urns /\ readable_hunt E m urn = None
      | inr hs =>
          exists loaded,
            hs = acc ++ loaded /\
            Forall2 (fun urn h => readable_hunt E m urn = Some h)
              hunt_urns loaded
      end.
Proof.
  induction hunt_urns as [|u r IH]; intros acc w Hm.
  { exists (inr acc), w. split; [reflexivity|]. split; [reflexivity|].
    exists []. now rewrite app_nil_r. }
  cbn [load_hunts]. unfold bind at 1.
  destruct (GetSubject_Hunt_readable E u w) as (hunt & err & -> & Hread).
  rewrite Hm in Hread.
  assert (only_read w (emit (EvGetSubject u) w)) as R0
      by now apply only_read_emit.
  destruct err as [e|].
  - exists (inl e), (emit (EvGetSubject u) w). split; [reflexivity|].
    split; [exact R0|]. exists u. split; [now left|].
    destruct (readable_hunt E m u); [now destruct Hread | reflexivity].
  - destruct (readable_hunt E m u) as [h|] eqn:Hu; [|contradiction].
    destruct Hread as [-> _].
    destruct (IH (acc ++ [h]) (emit (EvGetSubject u) w) Hm)
      as (res & w' & Hrun & R1 & Hres).
    exists res, w'. split; [exact Hrun|].
    split; [now transitivity (emit (EvGetSubject u) w)|].
    destruct res as [e|hs].
    + destruct Hres as (urn & Hin & Hnone). exists urn.
      split; [now right | exact Hnone].
    + destruct Hres as (loaded & -> & Hall). exists (h :: loaded).
      split; [now rewrite <- app_assoc | now constructor].
Qed.

Lemma Update_hunts_same (E : Env) (fuel : nat) (l : list Hunt.t) :
  forall (w : World) (l' : list Hunt.t) (w' : World),
    Update_hunts E fuel l w = Ret l' w' ->
    Forall2 same_but_counters l l' /\ dispatcher w' = dispatcher w.
Proof.
  induction l as [|hunt r IH]; intros w l' w'; cbn [Update_hunts].
  { unfold ret. intros [= <- <-]. split; [constructor | reflexivity]. }
  unfold bind at 1.
  destruct (Update_hunt E fuel hunt w) as [hunt' w1| |] eqn:H1;
    [|discriminate..].
  apply (Update_hunt_frame E _ _ _ _ _ _ (no_sink_child_completed _)) in H1
    as (S1 & D1 & _).
  unfold bind at 1.
  destruct (Update_hunts E fuel r w1) as [r' w2| |] eqn:H2; [|discriminate..].
  apply IH in H2 as (S2 & D2). unfold ret. intros [= <- <-].
  split; [now constructor | congruence].
Qed.

Lemma Update_frame (E : Env) (fuel : nat)
    (self self' : HuntDispatcher) (err : option error) (w w' : World) :
  Update E fuel self w = Ret (self', err) w' ->
  err = GetDB E /\
  has_config_obj self' = has_config_obj self /\
  last_timestamp self' = last_timestamp self /\
  Forall2 same_but_counters (hunts self) (hunts self') /\
  dispatcher w' = dispatcher w /\
  extends w w'.
Proof.
  intros Hrun. pose proof (grows_Update E fuel self _ _ _ Hrun) as Hext.
  revert Hrun. unfold Update. destruct (GetDB E) as [e|].
  { unfold ret. intros [= <- <- <-]. repeat split; [|exact Hext].
    induction (hunts self); constructor; auto using same_but_counters_refl. }
  unfold bind.
  destruct (Update_hunts E fuel (hunts self) w) as [l' w1| |] eqn:H1;
    [|discriminate..].
  apply Update_hunts_same in H1 as (S1 & D1).
  unfold ret. intros [= <- <- <-]. repeat split; auto.
Qed.

(** [Update] hands back a mirror of as many hunts, each the hunt it was
    but for its four counters, and leaves the published pointer alone;
    the only error it returns is that of [GetDB]: whatever else fails
    is logged. *)
Theorem Update_changes_only_counters (E : Env) (fuel : nat)
    (self self' : HuntDispatcher) (err : option error) (w w' : World) :
  Update E fuel self w = Ret (self', err) w' ->
  err = GetDB E /\
  has_config_obj self' = has_config_obj self /\
  last_timestamp self' = last_timestamp self /\
  Forall2 same_but_counters (hunts self) (hunts self') /\
  dispatcher w' = dispatcher w /\
  extends w w'.
Proof. exact (Update_frame E fuel self self' err w w'). Qed.

Lemma Update_changes_only_counters_witness :
  let hunt := sample_hunt Hunt_RUNNING in
  let w := sample_world hunt in
  let self := mkHuntDispatcher true 0 [hunt; sample_hunt Hunt_PAUSED] in
  let run := Update sample_env 2 self w in
  let self' := fst (value_after run (self, None)) in
  let w' := world_after run w in
  (run = Ret (self', None) w' /\
   List.map Hunt.TotalClientsScheduled (hunts self') = [8; 5]) /\
  None = GetDB sample_env /\
  has_config_obj self' = has_config_obj self /\
  last_timestamp self' = last_timestamp self /\
  Forall2 same_but_counters (hunts self) (hunts self') /\
  dispatcher w' = dispatcher w /\
  extends w w'.
Proof.
  intros hunt w self run self' w'.
  assert (run = Ret (self', None) w') as Hrun by (vm_compute; reflexivity).
  split; [split; [exact Hrun | vm_compute; reflexivity]|].
  exact (Update_changes_only_counters sample_env 2 self self' None w w' Hrun).
Defined.

Lemma NewHuntDispatcher_mirror (E : Env) (fuel : nat)
    (w w' : World) (d : HuntDispatcher) :
  NewHuntDispatcher E fuel w = Ret (inr d) w' ->
  let page := takeZ 100 (dropZ 0 (children (HUNTS_URN E) (store w))) in
  has_config_obj d = true /\
  last_timestamp d = 0 /\
  (length (hunts d) <= 100)%nat /\
  Forall2
    (fun urn hunt =>
       exists stored,
         store w !! urn = Some (SubjectHunt stored) /\
         same_but_counters stored hunt)
    page (hunts d) /\
  dispatcher w' = dispatcher w.
Proof.
  intros Hrun page. revert Hrun. unfold NewHuntDispatcher.
  destruct (GetDB E); [discriminate|].
  unfold bind at 1. unfold ListChildren.
  destruct (ListChildren_fault E _); [discriminate|]. fold page.
  set (w0 := emit _ w). unfold bind at 1.
  destruct (load_hunts_spec E (store w) page [] w0 eq_refl)
    as (r & w1 & -> & (_ & D1 & _) & Hr).
  destruct r as [e|hs]; [discriminate|].
  destruct Hr as (loaded & -> & Hloaded). cbn [app].
  unfold bind at 1.
  destruct (Update E fuel _ w1) as [[result err] w2| |] eqn:Hup;
    [|discriminate..].
  apply Update_frame in Hup as (_ & C & T & S2 & D2 & _).
  destruct err; [discriminate|]. unfold ret. intros [= <- <-].
  cbn in C, T, S2. split; [exact C|]. split; [exact T|].
  assert (Forall2
            (fun urn hunt =>
               exists stored,
                 store w !! urn = Some (SubjectHunt stored) /\
                 same_but_counters stored hunt) page (hunts result)) as HF.
  { clear - Hloaded S2. revert S2. generalize (hunts result).
    induction Hloaded as [|urn h urns hs Hh _ IH]; intros l S2;
      inversion S2; subst; constructor.
    - exists h. split; [|assumption]. unfold readable_hunt in Hh.
      destruct (GetSubject_fault E urn); [discriminate|].
      destruct (store w !! urn) as [[h'|]|]; congruence.
    - now apply IH. }
  split; [|split; [exact HF | rewrite D2, D1; reflexivity]].
  apply Forall2_length in HF. rewrite <- HF. subst page.
  pose proof (takeZ_length 100
                (dropZ 0 (children (HUNTS_URN E) (store w)))) as Hl.
  unfold lenZ in Hl. lia.
Qed.

(** What [NewHuntDispatcher] builds, when it builds: the mirror of the
    first hundred children of the hunts directory, in the order of the
    listing, each the stored hunt but for counters [Update] moved on; a
    hunt past the hundredth is in no mirror. *)
Theorem NewHuntDispatcher_mirrors_first_hundred (E : Env) (fuel : nat)
    (w w' : World) (d : HuntDispatcher) :
  NewHuntDispatcher E fuel w = Ret (inr d) w' ->
  let page := takeZ 100 (dropZ 0 (children (HUNTS_URN E) (store w))) in
  has_config_obj d = true /\
  last_timestamp d = 0 /\
  (length (hunts d) <= 100)%nat /\
  Forall2
    (fun urn hunt =>
       exists stored,
         store w !! urn = Some (SubjectHunt stored) /\
         same_but_counters stored hunt)
    page (hunts d) /\
  dispatcher w' = dispatcher w.
Proof. exact (NewHuntDispatcher_mirror E fuel w w' d). Qed.

Lemma NewHuntDispatcher_mirrors_first_hundred_witness :
  let hunt := sample_hunt Hunt_PAUSED in
  let w := sample_world hunt in
  let d := mkHuntDispatcher true 0 [hunt] in
  let w' := world_after (NewHuntDispatcher sample_env 1 w) w in
  let page := takeZ 100 (dropZ 0 (children (HUNTS_URN sample_env) (store w))) in
  page = [sample_hunt_id] /\
  has_config_obj d = true /\
  last_timestamp d = 0 /\
  (length (hunts d) <= 100)%nat /\
  Forall2
    (fun urn hunt =>
       exists stored,
         store w !! urn = Some (SubjectHunt stored) /\
         same_but_counters stored hunt)
    page (hunts d) /\
  dispatcher w' = dispatcher w.
Proof.
  intros hunt w d w' page. split; [vm_compute; reflexivity|].
  apply (NewHuntDispatcher_mirrors_first_hundred sample_env 1 w w' d).
  vm_compute. reflexivity.
Defined.

(** One hunt that cannot be read among the first hundred is enough for
    [NewHuntDispatcher] to fail, before any hunt is updated and with
    nothing written; [GetHuntDispatcher], on a pointer that is still
    nil, logs that error, returns it and leaves the pointer nil, so the
    next call builds again. *)
Theorem NewHuntDispatcher_fails_on_unreadable_hunt (E : Env) (fuel : nat)
    (w : World) (urn : string) :
  GetDB E = None ->
  ListChildren_fault E (HUNTS_URN E) = None ->
  In urn (takeZ 100 (dropZ 0 (children (HUNTS_URN E) (store w)))) ->
  readable_hunt E (store w) urn = None ->
  exists e w1,
    NewHuntDispatcher E fuel w = Ret (inl e) w1 /\
    only_read w w1 /\
    (dispatcher w = None ->
     GetHuntDispatcher E fuel w =
       Ret (inl e) (emit (EvLogError "" (Some e)) w1) /\
     dispatcher (emit (EvLogError "" (Some e)) w1) = None).
Proof.
  intros Hdb Hlist Hin Hnone.
  set (page := takeZ 100 _) in *.
  set (w0 := emit (EvListChildren (HUNTS_URN E) 0 100) w).
  destruct (load_hunts_spec E (store w) page [] w0 eq_refl)
    as (r & w1 & Hload & R1 & Hr).
  destruct r as [e|hs].
  2: { exfalso. destruct Hr as (loaded & _ & Hall).
       clear - Hall Hin Hnone.
       induction Hall as [|u h urns hs Hh _ IH]; [destruct Hin|].
       destruct Hin as [<-|Hin]; [congruence | now apply IH]. }
  assert (NewHuntDispatcher E fuel w = Ret (inl e) w1) as Hnew.
  { unfold NewHuntDispatcher. rewrite Hdb. unfold bind at 1.
    unfold ListChildren. rewrite Hlist. fold page. fold w0.
    unfold bind. now rewrite Hload. }
  assert (only_read w w1) as R.
  { transitivity w0; [now apply only_read_emit | exact R1]. }
  exists e, w1. split; [exact Hnew|]. split; [exact R|].
  intros Hnil. split.
  - unfold GetHuntDispatcher, bind, get_world. rewrite Hnil, Hnew.
    reflexivity.
  - destruct R as (_ & D & _). cbn. congruence.
Qed.

Lemma NewHuntDispatcher_fails_on_unreadable_hunt_witness :
  let w := sample_world (sample_hunt Hunt_RUNNING) in
  exists e w1,
    NewHuntDispatcher sample_env_unreadable_hunt 2 w = Ret (inl e) w1 /\
    only_read w w1 /\
    (dispatcher w = None ->
     GetHuntDispatcher sample_env_unreadable_hunt 2 w =
       Ret (inl e) (emit (EvLogError "" (Some e)) w1) /\
     dispatcher (emit (EvLogError "" (Some e)) w1) = None).
Proof.
  intros w.
  apply (NewHuntDispatcher_fails_on_unreadable_hunt
           sample_env_unreadable_hunt 2 w sample_hunt_id).
  - reflexivity.
  - reflexivity.
  - vm_compute. now left.
  - vm_compute. reflexivity.
Defined.


(* ================================================================== *)
(** ** Hunt ids: one id per four bytes *)

Lemma hex_byte_round_trip (b : N) :
  (b < 256)%N ->
  (16 * hex_value (hex_digit (N.shiftr b 4))
   + hex_value (hex_digit (N.land b 15)))%N = b.
Proof.
  intros Hb.
  assert (forallb
            (fun b =>
               (16 * hex_value (hex_digit (N.shiftr b 4))
                + hex_value (hex_digit (N.land b 15)) =? b)%N)
            (List.map N.of_nat (seq 0 256)) = true) as Hall
      by (vm_compute; reflexivity).
  rewrite forallb_forall in Hall. apply N.eqb_eq, Hall.
  apply in_map_iff. exists (N.to_nat b). split; [apply N2Nat.id|].
  apply in_seq. lia.
Qed.

Lemma hex_Decode_pairs_Encode (src : list N) (n : nat) :
  Forall (fun b => (b < 256)%N) src ->
  (2 * length src <= n)%nat ->
  hex_Decode_pairs n (hex_Encode src) = src.
Proof.
  intros Hsrc. revert n.
  induction Hsrc as [|b r Hb _ IH]; intros n Hn.
  - destruct n; reflexivity.
  - destruct n as [|n]; [cbn in Hn; lia|]. cbn [hex_Encode hex_Decode_pairs].
    rewrite hex_byte_round_trip by exact Hb. f_equal. apply IH.
    cbn [length] in Hn. lia.
Qed.

Lemma hex_Decode_Encode (src : list N) :
  Forall (fun b => (b < 256)%N) src -> hex_Decode (hex_Encode src) = src.
Proof.
  intros Hsrc. unfold hex_Decode. apply hex_Decode_pairs_Encode; [exact Hsrc|].
  rewrite hex_Encode_length. lia.
Qed.

Lemma rand_Read_bytes (n : nat) (stream : list N) :
  Forall (fun b => (b < 256)%N) (rand_Read n stream).
Proof.
  revert stream. induction n as [|n IH]; intros stream; [constructor|].
  destruct stream as [|b r]; cbn [rand_Read]; constructor; auto.
  - reflexivity.
  - apply N.mod_lt. discriminate.
Qed.

(** Two hunt ids are the same exactly when the four bytes read from the
    random generator are: the hex digits of an id can be read back into
    the bytes they encode. *)
Theorem GetNewHuntId_one_id_per_four_bytes (E1 E2 : Env) :
  hex_Decode (hex_Encode (rand_Read 4 (entropy E1))) =
    rand_Read 4 (entropy E1) /\
  (GetNewHuntId E1 = GetNewHuntId E2 <->
   rand_Read 4 (entropy E1) = rand_Read 4 (entropy E2)).
Proof.
  split; [apply hex_Decode_Encode, rand_Read_bytes|]. split.
  - unfold GetNewHuntId, BuildURN. cbn [path_Join].
    intros H. do 4 apply append_inv_head in H.
    rewrite <- (hex_Decode_Encode (rand_Read 4 (entropy E1)))
      by apply rand_Read_bytes.
    rewrite <- (hex_Decode_Encode (rand_Read 4 (entropy E2)))
      by apply rand_Read_bytes.
    now rewrite H.
  - unfold GetNewHuntId. now intros ->.
Qed.

(* ================================================================== *)
(** ** [FindCollectedArtifacts] and [GetHunt]: the mirror is written
       through *)

Lemma FindCollectedArtifacts_again (E : Env) (hunt hunt' : Hunt.t) :
  FindCollectedArtifacts E hunt = Some hunt' ->
  hunt' = Hunt.set_Artifacts (Hunt.Artifacts hunt') hunt /\
  FindCollectedArtifacts E hunt' = Some hunt'.
Proof.
  unfold FindCollectedArtifacts.
  destruct hunt as [id ct ex st cr lu tw ts tr te tn sr ar].
  cbn [Hunt.StartRequest]. destruct sr as [start_request|]; [|discriminate].
  destruct (String.eqb (FlowRunnerArgs.FlowName start_request)
              "ArtifactCollector") eqn:H1.
  - destruct (UnmarshalAny_ArtifactCollectorArgs _) as [flow_args|] eqn:Hu.
    + destruct (ArtifactCollectorArgs.Artifacts flow_args) as [names|] eqn:Hn;
        [|discriminate].
      intros [= <-]. cbn. split; [reflexivity|]. now rewrite H1, Hu, Hn.
    + intros [= <-]. cbn. split; [reflexivity|]. now rewrite H1, Hu.
  - destruct (String.eqb (FlowRunnerArgs.FlowName start_request)
                "FileFinder") eqn:H2;
      intros [= <-]; cbn; (split; [reflexivity|]); now rewrite H1, H2.
Qed.

(** [FindCollectedArtifacts] changes the artifacts of a hunt and nothing
    else, and a second call changes nothing; it fails on a hunt without
    a start request, and on an artifact collector whose arguments carry
    no artifact list, and on no other hunt. *)
Theorem FindCollectedArtifacts_sets_only_artifacts (E : Env) (hunt : Hunt.t) :
  (forall hunt',
      FindCollectedArtifacts E hunt = Some hunt' ->
      hunt' = Hunt.set_Artifacts (Hunt.Artifacts hunt') hunt /\
      FindCollectedArtifacts E hunt' = Some hunt') /\
  (FindCollectedArtifacts E hunt = None <->
   Hunt.StartRequest hunt = None \/
   exists start_request flow_args,
     Hunt.StartRequest hunt = Some start_request /\
     FlowRunnerArgs.FlowName start_request = "ArtifactCollector" /\
     FlowRunnerArgs.Args start_request =
       Some (Any_ArtifactCollectorArgs flow_args) /\
     ArtifactCollectorArgs.Artifacts flow_args = None).
Proof.
  split.
  - intros hunt'. apply FindCollectedArtifacts_again.
  - unfold FindCollectedArtifacts.
    destruct (Hunt.StartRequest hunt) as [start_request|]; [|tauto].
    destruct (String.eqb_spec (FlowRunnerArgs.FlowName start_request)
                "ArtifactCollector") as [Hname|Hname].
    + unfold UnmarshalAny_ArtifactCollectorArgs.
      destruct (FlowRunnerArgs.Args start_request) as [[flow_args|url]|] eqn:Ha.
      * destruct (ArtifactCollectorArgs.Artifacts flow_args) eqn:Hn.
        -- split; [discriminate|].
           intros [[=]|(sr & fa & [= <-] & _ & Hfa & Hnone)].
           rewrite Ha in Hfa. injection Hfa as <-. congruence.
        -- split; [|reflexivity]. intros _. right.
           now exists start_request, flow_args.
      * split; [discriminate|].
        intros [[=]|(sr & fa & [= <-] & _ & Hfa & _)]. congruence.
      * split; [discriminate|].
        intros [[=]|(sr & fa & [= <-] & _ & Hfa & _)]. congruence.
    + split.
      * case_match; discriminate.
      * intros [[=]|(sr & fa & [= <-] & Hn & _)]. contradiction.
Qed.

Lemma FindCollectedArtifacts_CreateTime (E : Env) (h h' : Hunt.t) :
  FindCollectedArtifacts E h = Some h' -> Hunt.CreateTime h' = Hunt.CreateTime h.
Proof.
  unfold FindCollectedArtifacts. repeat case_match; try discriminate;
    now intros [= <-].
Qed.

Lemma GetHuntDispatcher_published (E : Env) (fuel : nat) (w : World)
    (d : HuntDispatcher) :
  dispatcher w = Some d -> GetHuntDispatcher E fuel w = Ret (inr d) w.
Proof.
  intros Hd. unfold GetHuntDispatcher, bind, get_world. now rewrite Hd.
Qed.

(** The hunt [GetHunt] finds stays the one it finds when the mirror
    holds another hunt of the same id and creation time in its place. *)
Lemma GetHunt_loop_insert (id : string) (h' : Hunt.t) (l : list Hunt.t) :
  forall (idx ptr : nat) (h : Hunt.t),
    GetHunt_loop id (GetApplicableHunts_from idx l 0) = Some (ptr, h) ->
    Hunt.HuntId h' = Hunt.HuntId h ->
    Hunt.CreateTime h' = Hunt.CreateTime h ->
    (idx <= ptr)%nat /\
    l !! (ptr - idx)%nat = Some h /\
    GetHunt_loop id
      (GetApplicableHunts_from idx (<[(ptr - idx)%nat := h']> l) 0) =
      Some (ptr, h').
Proof.
  induction l as [|x r IH]; intros idx ptr h; [discriminate|].
  cbn [GetApplicableHunts_from].
  assert (GetHunt_loop id (GetApplicableHunts_from (S idx) r 0) = Some (ptr, h) ->
          Hunt.HuntId h' = Hunt.HuntId h ->
          Hunt.CreateTime h' = Hunt.CreateTime h ->
          (idx <= ptr)%nat /\
          (x :: r) !! (ptr - idx)%nat = Some h /\
          <[(ptr - idx)%nat := h']> (x :: r) =
            x :: <[(ptr - S idx)%nat := h']> r /\
          GetHunt_loop id
            (GetApplicableHunts_from (S idx)
               (<[(ptr - S idx)%nat := h']> r) 0) = Some (ptr, h')) as Hrest.
  { intros Hl Hid Hct. destruct (IH _ _ _ Hl Hid Hct) as (Hle & Hlk & Hloop).
    replace (ptr - idx)%nat with (S (ptr - S idx)) by lia.
    split; [lia|]. split; [exact Hlk|]. split; [reflexivity | exact Hloop]. }
  destruct (0 <? Hunt.CreateTime x) eqn:Hx.
  - cbn [GetHunt_loop].
    destruct (String.eqb (path_Base (Hunt.HuntId x)) id) eqn:Hb.
    + intros [= <- <-] Hid Hct. rewrite Nat.sub_diag.
      split; [lia|]. split; [reflexivity|].
      cbn [insert list_insert GetApplicableHunts_from]. rewrite Hct, Hx.
      cbn [GetHunt_loop]. now rewrite Hid, Hb.
    + intros Hl Hid Hct.
      destruct (Hrest Hl Hid Hct) as (Hle & Hlk & Hins & Hloop).
      split; [exact Hle|]. split; [exact Hlk|]. rewrite Hins.
      cbn [GetApplicableHunts_from]. rewrite Hx. cbn [GetHunt_loop].
      now rewrite Hb.
  - intros Hl Hid Hct.
    destruct (Hrest Hl Hid Hct) as (Hle & Hlk & Hins & Hloop).
    split; [exact Hle|]. split; [exact Hlk|]. rewrite Hins.
    cbn [GetApplicableHunts_from]. now rewrite Hx.
Qed.

(** [GetHunt] on a published mirror makes no outside call and writes
    the artifacts it works out into the mirror itself: the hunt it
    returns takes the place of the hunt it found, for every later reader
    of the mirror, and asking again gives the same hunt and changes
    nothing. *)
Theorem GetHunt_writes_through_the_mirror (E : Env) (fuel : nat)
    (id : string) (w w' : World) (d : HuntDispatcher) (hunt' : Hunt.t) :
  dispatcher w = Some d ->
  GetHunt E fuel id w = Ret (inr hunt') w' ->
  exists ptr hunt,
    hunts d !! ptr = Some hunt /\
    hunt' = Hunt.set_Artifacts (Hunt.Artifacts hunt') hunt /\
    w' =
      set_dispatcher
        (Some (mkHuntDispatcher (has_config_obj d) (last_timestamp d)
                 (<[ptr := hunt']> (hunts d)))) w /\
    GetHunt E fuel id w' = Ret (inr hunt') w'.
Proof.
  intros Hd. unfold GetHunt at 1. unfold bind at 1.
  rewrite (GetHuntDispatcher_published E fuel w d Hd).
  destruct (GetHunt_loop id (GetApplicableHunts d 0)) as [[ptr hunt]|] eqn:Hl;
    [|discriminate].
  destruct (FindCollectedArtifacts E hunt) as [h1|] eqn:Hf; [|discriminate].
  unfold bind, modify_world, ret. rewrite Hd. intros [= <- <-].
  destruct (FindCollectedArtifacts_again E hunt h1 Hf) as [Hh1 Hagain].
  unfold GetApplicableHunts in Hl.
  destruct (GetHunt_loop_insert id h1 (hunts d) 0 ptr hunt Hl
              (FindCollectedArtifacts_HuntId E _ _ Hf)
              (FindCollectedArtifacts_CreateTime E _ _ Hf))
    as (_ & Hlk & Hloop).
  rewrite Nat.sub_0_r in Hlk, Hloop.
  exists ptr, hunt. split; [exact Hlk|]. split; [exact Hh1|].
  split; [reflexivity|].
  set (d1 := mkHuntDispatcher _ _ _). set (w1 := set_dispatcher _ w).
  unfold GetHunt, bind.
  rewrite (GetHuntDispatcher_published E fuel w1 d1 eq_refl).
  unfold GetApplicableHunts. subst d1. cbn [hunts]. rewrite Hloop, Hagain.
  unfold modify_world, ret. subst w1.
  cbn [dispatcher set_dispatcher hunts has_config_obj last_timestamp].
  rewrite list_insert_insert_eq. reflexivity.
Qed.

Lemma GetHunt_writes_through_the_mirror_witness :
  let hunt := sample_hunt Hunt_RUNNING in
  let w := sample_world_mirrored hunt in
  let d := mkHuntDispatcher true 0 [hunt] in
  let hunt' := Hunt.set_Artifacts ["FileFinder"] hunt in
  let w' := world_after (GetHunt sample_env 1 "H.deadbeef" w) w in
  exists ptr hunt0,
    hunts d !! ptr = Some hunt0 /\
    hunt' = Hunt.set_Artifacts (Hunt.Artifacts hunt') hunt0 /\
    w' =
      set_dispatcher
        (Some (mkHuntDispatcher (has_config_obj d) (last_timestamp d)
                 (<[ptr := hunt']> (hunts d)))) w /\
    GetHunt sample_env 1 "H.deadbeef" w' = Ret (inr hunt') w'.
Proof.
  intros hunt w d hunt' w'.
  apply (GetHunt_writes_through_the_mirror sample_env 1 "H.deadbeef" w w' d
           hunt').
  - reflexivity.
  - vm_compute. reflexivity.
Defined.


(* ================================================================== *)
(** ** The scheduler: every launch is counted once *)

Lemma _ScheduleClientsForHunt_body_outcome (E : Env) (urn : string)
    (hunt : Hunt.t) (modified : bool) (w : World) :
  exists hunt' modified' w' evs,
    _ScheduleClientsForHunt_body E urn (hunt, modified) w =
      Ret (hunt', modified') w' /\
    trace w' = trace w ++ evs /\
    count_events is_set_event evs = count_events is_launch_event evs /\
    launch_outcome hunt hunt' (count_events is_launch_event evs).
Proof.
  unfold _ScheduleClientsForHunt_body, bind, GetSubject_HuntInfo, log_error,
    time_Now,
    modify_world, LaunchFlow, SetSubject, ret.
  destruct (GetSubject_fault E urn) as [e|].
  { eexists _, _, _, [_; _]. split; [reflexivity|]. split; [trace_eq|].
    split; [counts | now constructor]. }
  destruct (store w !! urn) as [[h|summary]|].
  1, 3: eexists _, _, _, [_; _]; (split; [reflexivity|]);
    (split; [trace_eq|]); (split; [counts | now constructor]).
  destruct (MarshalAny_fault E summary) as [e|].
  { eexists _, _, _, [_; _]. split; [reflexivity|]. split; [trace_eq|].
    split; [counts | now constructor]. }
  destruct (LaunchFlow_reply E (HuntInfo.ClientId summary) "HuntRunnerFlow"
              summary) as [e|flow_id].
  - destruct (SetSubject_fault E _) as [e'|];
      eexists _, _, _, [_; _; _; _]; (split; [reflexivity|]);
      (split; [trace_eq|]); (split; [counts|]);
      now apply launch_failed.
  - destruct (SetSubject_fault E _) as [e'|];
      eexists _, _, _, [_; _; _]; (split; [reflexivity|]);
      (split; [trace_eq|]); (split; [counts|]);
      now apply launch_scheduled.
Qed.

Lemma _ScheduleClientsForHunt_loop_outcome (E : Env) (urns : list string) :
  forall (hunt : Hunt.t) (modified : bool) (w : World),
    0 <= Hunt.TotalClientsScheduled hunt ->
    0 <= Hunt.TotalClientsWithErrors hunt ->
    Hunt.TotalClientsScheduled hunt + lenZ urns < U64.modulus ->
    Hunt.TotalClientsWithErrors hunt + lenZ urns < U64.modulus ->
    exists hunt' modified' w' evs,
      for_each (_ScheduleClientsForHunt_body E) urns (hunt, modified) w =
        Ret (hunt', modified') w' /\
      trace w' = trace w ++ evs /\
      count_events is_set_event evs = count_events is_launch_event evs /\
      count_events is_launch_event evs <= lenZ urns /\
      Hunt.TotalClientsScheduled hunt <= Hunt.TotalClientsScheduled hunt' /\
      Hunt.TotalClientsWithErrors hunt <= Hunt.TotalClientsWithErrors hunt' /\
      (Hunt.TotalClientsScheduled hunt' - Hunt.TotalClientsScheduled hunt)
      + (Hunt.TotalClientsWithErrors hunt' - Hunt.TotalClientsWithErrors hunt)
      = count_events is_launch_event evs.
Proof.
  induction urns as [|urn r IH]; intros hunt modified w Hs He Hsb Heb.
  { exists hunt, modified, w, []. split; [reflexivity|].
    split; [now rewrite app_nil_r|]. repeat split; try counts; lia. }
  assert (lenZ (urn :: r) = lenZ r + 1) as Hlen
      by (unfold lenZ; cbn [length]; lia).
  rewrite Hlen in *.
  assert (0 <= lenZ r) as Hr by (unfold lenZ; lia).
  destruct (_ScheduleClientsForHunt_body_outcome E urn hunt modified w)
    as (h1 & m1 & w1 & evs1 & H1 & T1 & C1 & O1).
  assert (Hunt.TotalClientsScheduled hunt <= Hunt.TotalClientsScheduled h1 /\
          Hunt.TotalClientsWithErrors hunt <= Hunt.TotalClientsWithErrors h1 /\
          (Hunt.TotalClientsScheduled h1 - Hunt.TotalClientsScheduled hunt)
          + (Hunt.TotalClientsWithErrors h1 - Hunt.TotalClientsWithErrors hunt)
          = count_events is_launch_event evs1 /\
          count_events is_launch_event evs1 <= 1) as (Hs1 & He1 & Hsum & Hone).
  { inversion O1 as [Heq Hc|Hsch Herr Hc|Hsch Herr Hc].
    - subst h1. lia.
    - rewrite Hsch, Herr. unfold U64.add.
      rewrite U64_wrap_small by (unfold U64.in_range; lia). lia.
    - rewrite Hsch, Herr. unfold U64.add.
      rewrite U64_wrap_small by (unfold U64.in_range; lia). lia. }
  destruct (IH h1 m1 w1) as (h2 & m2 & w2 & evs2 & H2 & T2 & C2 & L2 & Hs2
                             & He2 & Hsum2); try lia.
  exists h2, m2, w2, (evs1 ++ evs2). cbn [for_each]. unfold bind.
  rewrite H1. split; [exact H2|].
  split; [now rewrite T2, T1, app_assoc|].
  rewrite !count_events_app. repeat split; lia.
Qed.

(** Every flow the scheduler launches is counted once, as a scheduled
    client or as a client with an error, and filed once, with one write;
    a pulled record that cannot be read or packed is launched, counted
    and filed nowhere. *)
Theorem scheduler_counts_each_launch_once (E : Env) (hunt : Hunt.t)
    (w : World) :
  let pending := children (Hunt.HuntId hunt +:+ "/pending") (store w) in
  0 <= Hunt.TotalClientsScheduled hunt ->
  0 <= Hunt.TotalClientsWithErrors hunt ->
  Hunt.TotalClientsScheduled hunt + lenZ pending < U64.modulus ->
  Hunt.TotalClientsWithErrors hunt + lenZ pending < U64.modulus ->
  exists hunt' modified err w' evs,
    _ScheduleClientsForHunt E hunt w = Ret (hunt', modified, err) w' /\
    trace w' = trace w ++ evs /\
    count_events is_set_event evs = count_events is_launch_event evs /\
    count_events is_launch_event evs <= count_events is_get_event evs /\
    Hunt.TotalClientsScheduled hunt <= Hunt.TotalClientsScheduled hunt' /\
    Hunt.TotalClientsWithErrors hunt <= Hunt.TotalClientsWithErrors hunt' /\
    (Hunt.TotalClientsScheduled hunt' - Hunt.TotalClientsScheduled hunt)
    + (Hunt.TotalClientsWithErrors hunt' - Hunt.TotalClientsWithErrors hunt)
    = count_events is_launch_event evs.
Proof.
  intros pending Hs He Hsb Heb. unfold _ScheduleClientsForHunt.
  assert (forall (err : option error) w0 evs0,
            trace w0 = trace w ++ evs0 ->
            count_events is_set_event evs0 = 0 ->
            count_events is_launch_event evs0 = 0 ->
            exists hunt' modified err' w' evs,
              Ret (hunt, false, err) w0 = Ret (hunt', modified, err') w' /\
              trace w' = trace w ++ evs /\
              count_events is_set_event evs = count_events is_launch_event evs /\
              count_events is_launch_event evs
                <= count_events is_get_event evs /\
              Hunt.TotalClientsScheduled hunt
                <= Hunt.TotalClientsScheduled hunt' /\
              Hunt.TotalClientsWithErrors hunt
                <= Hunt.TotalClientsWithErrors hunt' /\
              (Hunt.TotalClientsScheduled hunt'
               - Hunt.TotalClientsScheduled hunt)
              + (Hunt.TotalClientsWithErrors hunt'
                 - Hunt.TotalClientsWithErrors hunt)
              = count_events is_launch_event evs) as Hidle.
  { intros err w0 evs0 T0 C0 L0. exists hunt, false, err, w0, evs0.
    pose proof (count_events_nonneg is_get_event evs0).
    repeat split; try assumption; lia. }
  destruct (GetDB E) as [e|].
  { apply (Hidle _ w []); [now rewrite app_nil_r | reflexivity..]. }
  destruct (_ <? _).
  2: { apply (Hidle _ w []); [now rewrite app_nil_r | reflexivity..]. }
  unfold bind at 1. unfold ListChildren. fold pending.
  set (w0 := emit _ w).
  destruct (ListChildren_fault E _) as [e|].
  { eapply Hidle; [subst w0; cbn [trace emit]; reflexivity | reflexivity..]. }
  set (urns := takeZ _ _).
  destruct (is_nil urns) eqn:Hnil.
  { eapply Hidle; [subst w0; cbn [trace emit]; reflexivity | reflexivity..]. }
  assert (lenZ urns <= lenZ pending) as Hlen.
  { subst urns. unfold lenZ.
    pose proof (takeZ_length_le
                  (U64.sub (expected_clients_of E hunt)
                     (Hunt.TotalClientsScheduled hunt))
                  (dropZ 0 pending)).
    assert (length (dropZ 0 pending) <= length pending)%nat
        by (rewrite dropZ_skipn, length_skipn; lia).
    lia. }
  destruct (_ScheduleClientsForHunt_loop_spec E urns hunt false w0)
    as (h1' & m1' & w1' & evs' & H1' & T1' & _ & G1 & _).
  destruct (_ScheduleClientsForHunt_loop_outcome E urns hunt false w0)
    as (h1 & m1 & w1 & evs1 & H1 & T1 & C1 & L1 & Hs1 & He1 & Hsum);
    try lia.
  rewrite H1 in H1'. injection H1' as <- <- <-.
  assert (evs' = evs1) as -> by (rewrite T1 in T1'; now apply app_inv_head in T1').
  destruct (delete_all_spec E urns None w1)
    as (e2 & w2 & H2 & T2 & _).
  exists h1, m1, None, w2,
    (EvListChildren (Hunt.HuntId hunt +:+ "/pending") 0
       (U64.sub (expected_clients_of E hunt) (Hunt.TotalClientsScheduled hunt))
     :: evs1 ++ List.map EvDeleteSubject urns).
  unfold bind. rewrite H1, H2. split; [reflexivity|].
  split.
  { rewrite T2, T1. subst w0. cbn [trace emit].
    rewrite <- !app_assoc. reflexivity. }
  assert (forall p, (forall u, p (EvDeleteSubject u) = false) ->
                    p (EvListChildren (Hunt.HuntId hunt +:+ "/pending") 0
                         (U64.sub (expected_clients_of E hunt)
                            (Hunt.TotalClientsScheduled hunt))) = false ->
            count_events p
              (EvListChildren (Hunt.HuntId hunt +:+ "/pending") 0
                 (U64.sub (expected_clients_of E hunt)
                    (Hunt.TotalClientsScheduled hunt))
               :: evs1 ++ List.map EvDeleteSubject urns) =
            count_events p evs1) as Hcount.
  { intros p Hp Hl.
    change (?x :: ?l ++ ?r) with ([x] ++ l ++ r).
    rewrite !count_events_app.
    assert (count_events p (List.map EvDeleteSubject urns) = 0) as ->.
    { unfold count_events, lenZ. clear - Hp.
      induction urns as [|u r IH]; [reflexivity|]. cbn. now rewrite Hp. }
    unfold count_events at 1. cbn. rewrite Hl. unfold lenZ. cbn. lia. }
  rewrite !Hcount by (intros; reflexivity).
  repeat split; try lia.
Qed.

Lemma scheduler_counts_each_launch_once_witness :
  let hunt := sample_hunt Hunt_RUNNING in
  let w := sample_world hunt in
  let run := _ScheduleClientsForHunt sample_env_faulty hunt w in
  let hunt1 := fst (fst (value_after run (hunt, false, None))) in
  (Hunt.TotalClientsScheduled hunt = 5 /\
   Hunt.TotalClientsWithErrors hunt = 0 /\
   Hunt.TotalClientsScheduled hunt1 = 6 /\
   Hunt.TotalClientsWithErrors hunt1 = 1) /\
  exists hunt' modified err w' evs,
    run = Ret (hunt', modified, err) w' /\
    trace w' = trace w ++ evs /\
    count_events is_set_event evs = count_events is_launch_event evs /\
    count_events is_launch_event evs <= count_events is_get_event evs /\
    Hunt.TotalClientsScheduled hunt <= Hunt.TotalClientsScheduled hunt' /\
    Hunt.TotalClientsWithErrors hunt <= Hunt.TotalClientsWithErrors hunt' /\
    (Hunt.TotalClientsScheduled hunt' - Hunt.TotalClientsScheduled hunt)
    + (Hunt.TotalClientsWithErrors hunt' - Hunt.TotalClientsWithErrors hunt)
    = count_events is_launch_event evs.
Proof.
  intros hunt w run hunt1.
  split; [vm_compute; repeat split; reflexivity|].
  apply (scheduler_counts_each_launch_once sample_env_faulty hunt w).
  - vm_compute. discriminate.
  - vm_compute. discriminate.
  - vm_compute. reflexivity.
  - vm_compute. reflexivity.
Defined.

(* ================================================================== *)
(** ** [ModifyHunt]: what a refused request leaves behind *)

(** When [ModifyHunt] returns an error it has changed neither the
    datastore nor the mirror: there was no datastore, or the hunt could
    not be read, or the request named no state ("Modification not
    supported.", whatever other fields the request carries), or the
    write of the hunt failed. *)
Theorem ModifyHunt_failure_changes_nothing (E : Env) (fuel : nat)
    (hunt_modification : Hunt.t) (w w' : World) (e : error) :
  ModifyHunt E fuel hunt_modification w = Ret (Some e) w' ->
  store w' = store w /\
  dispatcher w' = dispatcher w /\
  (GetDB E = Some e \/
   readable_hunt E (store w) (Hunt.HuntId hunt_modification) = None \/
   (Hunt.State hunt_modification = Hunt_UNSET /\
    e = errors_New "Modification not supported.") \/
   SetSubject_fault E (Hunt.HuntId hunt_modification) = Some e).
Proof.
  unfold ModifyHunt. destruct (GetDB E) as [e0|].
  { unfold ret. intros [= <- <-]. repeat split. now left. }
  unfold bind at 1.
  destruct (GetSubject_Hunt_readable E (Hunt.HuntId hunt_modification) w)
    as (hunt_obj & err & -> & Hread).
  destruct err as [e1|].
  { unfold ret. intros [= <- <-]. repeat split. right. left.
    destruct (readable_hunt E _ _); [now destruct Hread | reflexivity]. }
  destruct (bool_decide (Hunt.State hunt_modification = Hunt_UNSET)) eqn:Hst.
  { apply bool_decide_eq_true_1 in Hst. cbn [negb]. unfold ret.
    intros [= <- <-]. repeat split. right. right. left. now split. }
  cbn [negb].
  destruct (bool_decide _ && bool_decide _);
    unfold bind at 1; unfold SetSubject;
    (destruct (SetSubject_fault E (Hunt.HuntId hunt_modification)) as [e2|];
     [unfold ret; intros [= <- <-]; repeat split; now do 3 right|]);
    unfold bind;
    match goal with
    | |- context [Refresh E fuel ?w1] =>
        destruct (Refresh E fuel w1) as [[] w2| |]; discriminate
    end.
Qed.

Lemma ModifyHunt_failure_changes_nothing_witness :
  let hunt := sample_hunt Hunt_PAUSED in
  let w := sample_world_mirrored hunt in
  let patch := Hunt.set_HuntId sample_hunt_id sample_new_hunt in
  let w' := emit (EvGetSubject sample_hunt_id) w in
  ModifyHunt sample_env 1 patch w =
    Ret (Some "Modification not supported.") w' /\
  store w' = store w /\
  dispatcher w' = dispatcher w /\
  (GetDB sample_env = Some "Modification not supported." \/
   readable_hunt sample_env (store w) (Hunt.HuntId patch) = None \/
   (Hunt.State patch = Hunt_UNSET /\
    "Modification not supported." =
      errors_New "Modification not supported.") \/
   SetSubject_fault sample_env (Hunt.HuntId patch) =
     Some "Modification not supported.").
Proof.
  intros hunt w patch w'.
  assert (ModifyHunt sample_env 1 patch w =
          Ret (Some "Modification not supported.") w') as Hrun
      by (vm_compute; reflexivity).
  split; [exact Hrun|].
  exact (ModifyHunt_failure_changes_nothing sample_env 1 patch w w'
           "Modification not supported." Hrun).
Defined.


(** A file-finder hunt gets the one artifact of the file finder; a hunt
    without a start request is one of the two that fail. *)
Lemma FindCollectedArtifacts_sets_only_artifacts_witness :
  let hunt := sample_hunt Hunt_RUNNING in
  let hunt' := Hunt.set_Artifacts ["FileFinder"] hunt in
  FindCollectedArtifacts sample_env hunt = Some hunt' /\
  (hunt' = Hunt.set_Artifacts (Hunt.Artifacts hunt') hunt /\
   FindCollectedArtifacts sample_env hunt' = Some hunt') /\
  FindCollectedArtifacts sample_env Hunt.zero = None.
Proof.
  intros hunt hunt'. split; [reflexivity|]. split.
  - exact (proj1 (FindCollectedArtifacts_sets_only_artifacts sample_env hunt)
             hunt' eq_refl).
  - apply (proj2 (FindCollectedArtifacts_sets_only_artifacts sample_env
                    Hunt.zero)).
    left. reflexivity.
Defined.


(* ================================================================== *)
(** ** The hunt runner flow: from the delegate to the triage *)

Lemma children_In (urn k : string) (m : gmap string Subject) (v : Subject) :
  m !! k = Some v -> is_child urn k = true -> In k (children urn m).
Proof.
  intros Hm Hk. unfold children. apply filter_In. split; [|exact Hk].
  apply in_map_iff. exists (k, v). split; [reflexivity|].
  now apply list_elem_of_In, elem_of_map_to_list.
Qed.

Lemma completion_urn_child (args : HuntInfo.t) :
  plain_name (HuntInfo.ClientId args) ->
  is_child (HuntInfo.HuntId args +:+ "/completed") (completion_urn args) = true.
Proof.
  intros [Hne Hns]. unfold is_child, completion_urn.
  rewrite strip_prefix_append. rewrite !append_String, append_Empty.
  cbn [strip_prefix]. cbn. now rewrite Hne, Hns.
Qed.

Lemma delegate_finished_done (delegate_err : option error)
    (context : option FlowContext.t) (w : World) :
  delegate_done delegate_err context ->
  delegate_finished delegate_err context w = Ret true w.
Proof.
  unfold delegate_finished. intros [Herr|(c & -> & Hc)].
  - destruct delegate_err; [reflexivity | contradiction].
  - destruct delegate_err; [reflexivity|].
    now rewrite bool_decide_eq_false_2 by exact Hc.
Qed.

(** Once the delegate has failed or left the running state, and the
    flow's arguments are the hunt summary, [ProcessMessage] writes the
    summary, with the flow's URN and the delegate's context in it, under
    [<hunt>/completed/<client>], copies the context onto the flow and
    returns the delegate's error.  The record is then a child of the
    completed queue of that hunt, and the next round of the triage loop
    over it files that very record under the queue its classification
    names. *)
Theorem ProcessMessage_files_completion_for_triage (E : Env)
    (delegate_ProcessMessage :
       option FlowContext.t -> M (option error * option FlowContext.t))
    (GetFlowArgs : option FlowRunnerArgs.t -> error + Message)
    (context : option FlowContext.t) (flow_obj : AFF4FlowObject.t)
    (w w1 : World) (delegate_err : option error)
    (delegate_context : option FlowContext.t) (args : HuntInfo.t) :
  let record := completion_record flow_obj args delegate_context in
  let urn := completion_urn args in
  delegate_ProcessMessage context w = Ret (delegate_err, delegate_context) w1 ->
  delegate_done delegate_err delegate_context ->
  GetFlowArgs (AFF4FlowObject.RunnerArgs flow_obj) =
    inr (Message_HuntInfo args) ->
  GetDB E = None ->
  SetSubject_fault E urn = None ->
  GetSubject_fault E urn = None ->
  plain_name (HuntInfo.ClientId args) ->
  exists w',
    ProcessMessage E delegate_ProcessMessage GetFlowArgs context flow_obj w =
      Ret (delegate_context,
           AFF4FlowObject.SetContext delegate_context flow_obj,
           delegate_err) w' /\
    store w' = <[urn := SubjectHuntInfo record]> (store w1) /\
    In urn (children (HuntInfo.HuntId args +:+ "/completed") (store w')) /\
    forall hunt q modified result_count err,
      Hunt.HuntId hunt = HuntInfo.HuntId args ->
      triage_class None record q ->
      exists hunt' err' w'',
        _SortResultsForHunt_body E urn
          (hunt, modified, result_count, err) w' =
          Ret (hunt', true, result_count + 1, err') w'' /\
        trace w'' =
          trace w' ++
          [EvGetSubject urn;
           EvSetSubject
             (queue_urn (HuntInfo.HuntId args) q (HuntInfo.ClientId args))
             (SubjectHuntInfo record)].
Proof.
  intros record urn Hdel Hdone Hargs Hdb Hset Hget Hplain.
  set (w' := set_store (<[urn := SubjectHuntInfo record]> (store w1))
               (emit (EvSetSubject urn (SubjectHuntInfo record)) w1)).
  exists w'.
  assert (store w' !! urn = Some (SubjectHuntInfo record)) as Hlk
      by (subst w'; cbn; apply lookup_insert_eq).
  split; [|split; [reflexivity|split]].
  - unfold ProcessMessage. unfold bind at 1. rewrite Hdel.
    unfold bind at 1. rewrite (delegate_finished_done _ _ _ Hdone).
    rewrite Hargs, Hdb. unfold bind, SetSubject.
    cbn [HuntInfo.HuntId HuntInfo.ClientId HuntInfo.set_FlowId].
    fold (completion_urn args). fold urn. rewrite Hset. reflexivity.
  - apply (children_In _ _ _ _ Hlk). now apply completion_urn_child.
  - intros hunt q modified result_count err Hid Hq.
    assert (GetSubject_HuntInfo E urn w' =
            Ret (record, None) (emit (EvGetSubject urn) w')) as Hread.
    { unfold GetSubject_HuntInfo. now rewrite Hget, Hlk. }
    destruct (_SortResultsForHunt_body_class E urn hunt modified result_count
                err w' _ record None q Hread Hq)
      as (hunt' & err' & w'' & Hrun & Htrace & _).
    exists hunt', err', w''. split; [exact Hrun|].
    rewrite Htrace, Hid. reflexivity.
Qed.

Lemma ProcessMessage_files_completion_for_triage_witness :
  let w := sample_world (sample_hunt Hunt_RUNNING) in
  let args := sample_info "C.4" None in
  let delegate_context :=
    Some (FlowContext.mk FlowContext_TERMINATED 4 0 "") in
  let record := completion_record sample_flow_obj args delegate_context in
  let urn := completion_urn args in
  urn = "aff4:/hunts/H.deadbeef/completed/C.4" /\
  triage_class None record QResults /\
  exists w',
    ProcessMessage sample_env sample_delegate_ended sample_GetFlowArgs None
      sample_flow_obj w =
      Ret (delegate_context,
           AFF4FlowObject.SetContext delegate_context sample_flow_obj,
           None) w' /\
    store w' = <[urn := SubjectHuntInfo record]> (store w) /\
    In urn (children (HuntInfo.HuntId args +:+ "/completed") (store w')) /\
    forall hunt q modified result_count err,
      Hunt.HuntId hunt = HuntInfo.HuntId args ->
      triage_class None record q ->
      exists hunt' err' w'',
        _SortResultsForHunt_body sample_env urn
          (hunt, modified, result_count, err) w' =
          Ret (hunt', true, result_count + 1, err') w'' /\
        trace w'' =
          trace w' ++
          [EvGetSubject urn;
           EvSetSubject
             (queue_urn (HuntInfo.HuntId args) q (HuntInfo.ClientId args))
             (SubjectHuntInfo record)].
Proof.
  intros w args delegate_context record urn.
  split; [reflexivity|]. split.
  { apply (class_results None record
             (FlowContext.mk FlowContext_TERMINATED 4 0 ""));
      [reflexivity | reflexivity | discriminate | reflexivity]. }
  apply (ProcessMessage_files_completion_for_triage sample_env
           sample_delegate_ended sample_GetFlowArgs None sample_flow_obj
           w w None delegate_context args).
  - reflexivity.
  - right. eexists. split; [reflexivity | discriminate].
  - reflexivity.
  - reflexivity.
  - reflexivity.
  - reflexivity.
  - split; reflexivity.
Defined.

(** What [ProcessMessage] returns, in every case in which it returns.
    While the delegate runs without error nothing is reported.  When a
    report is due and goes through, the flow takes the delegate's
    context and the delegate's error is returned.  When the report
    fails, in unpacking the arguments, in getting the datastore or in
    the write, the error of the report is returned in place of the
    delegate's, the flow keeps its context and nothing is stored. *)
Theorem ProcessMessage_returns_report_error_first (E : Env)
    (delegate_ProcessMessage :
       option FlowContext.t -> M (option error * option FlowContext.t))
    (GetFlowArgs : option FlowRunnerArgs.t -> error + Message)
    (context : option FlowContext.t) (flow_obj flow_obj' : AFF4FlowObject.t)
    (w w1 w' : World) (delegate_err err : option error)
    (delegate_context context' : option FlowContext.t) :
  delegate_ProcessMessage context w = Ret (delegate_err, delegate_context) w1 ->
  ProcessMessage E delegate_ProcessMessage GetFlowArgs context flow_obj w =
    Ret (context', flow_obj', err) w' ->
  context' = delegate_context /\
  ((~ delegate_done delegate_err delegate_context /\
    err = None /\ flow_obj' = flow_obj /\ w' = w1) \/
   (delegate_done delegate_err delegate_context /\
    err = delegate_err /\
    flow_obj' = AFF4FlowObject.SetContext delegate_context flow_obj /\
    exists args,
      GetFlowArgs (AFF4FlowObject.RunnerArgs flow_obj) =
        inr (Message_HuntInfo args) /\
      store w' =
        <[completion_urn args :=
            SubjectHuntInfo (completion_record flow_obj args delegate_context)]>
          (store w1)) \/
   (delegate_done delegate_err delegate_context /\
    flow_obj' = flow_obj /\
    store w' = store w1 /\
    exists e,
      err = Some e /\
      (GetFlowArgs (AFF4FlowObject.RunnerArgs flow_obj) = inl e \/
       GetDB E = Some e \/
       exists args,
         GetFlowArgs (AFF4FlowObject.RunnerArgs flow_obj) =
           inr (Message_HuntInfo args) /\
         SetSubject_fault E (completion_urn args) = Some e))).
Proof.
  intros Hdel. unfold ProcessMessage. unfold bind at 1. rewrite Hdel.
  unfold bind at 1.
  destruct (delegate_finished delegate_err delegate_context w1)
    as [finished w2| |] eqn:Hfin; [|discriminate..].
  assert (w2 = w1 /\
          (if finished then delegate_done delegate_err delegate_context
           else ~ delegate_done delegate_err delegate_context /\
                delegate_err = None)) as [-> Hdone].
  { revert Hfin. unfold delegate_finished, delegate_done, ret.
    destruct delegate_err as [e|].
    - intros [= <- <-]. split; [reflexivity|]. now left.
    - destruct delegate_context as [c|]; [|discriminate].
      intros [= <- <-]. split; [reflexivity|].
      case_bool_decide as Hc; cbn [negb].
      + split; [|reflexivity]. intros [[]|(c' & [= <-] & Hne)]; auto.
      + right. now exists c. }
  destruct finished.
  2: { unfold ret. intros [= <- <- <- <-]. split; [reflexivity|]. left.
       destruct Hdone as [Hnot ->]. now repeat split. }
  destruct (GetFlowArgs (AFF4FlowObject.RunnerArgs flow_obj))
    as [e|[args|]] eqn:Hargs; [| |discriminate].
  { unfold ret. intros [= <- <- <- <-]. split; [reflexivity|].
    right. right. repeat split; [exact Hdone|]. exists e. split; auto. }
  destruct (GetDB E) as [e|] eqn:Hdb.
  { unfold ret. intros [= <- <- <- <-]. split; [reflexivity|].
    right. right. repeat split; [exact Hdone|]. exists e. split; auto. }
  unfold bind, SetSubject.
  change (HuntInfo.HuntId (HuntInfo.set_FlowId _ args))
    with (HuntInfo.HuntId args).
  change (HuntInfo.ClientId (HuntInfo.set_FlowId _ args))
    with (HuntInfo.ClientId args).
  fold (completion_urn args).
  fold (completion_record flow_obj args delegate_context).
  destruct (SetSubject_fault E (completion_urn args)) as [e|] eqn:Hset.
  - unfold ret. intros [= <- <- <- <-]. split; [reflexivity|].
    right. right. repeat split; [exact Hdone|]. exists e.
    split; [reflexivity|]. right. right. now exists args.
  - unfold ret. intros [= <- <- <- <-]. split; [reflexivity|].
    right. left. repeat split; [exact Hdone|]. now exists args.
Qed.

Lemma ProcessMessage_returns_report_error_first_witness :
  let w := sample_world (sample_hunt Hunt_RUNNING) in
  let run :=
    ProcessMessage sample_env_read_only sample_delegate_failing
      sample_GetFlowArgs None sample_flow_obj w in
  let w' := world_after run w in
  run = Ret (None, sample_flow_obj, Some "read-only datastore") w' /\
  None = @None FlowContext.t /\
  ((~ delegate_done (Some "delegate failed") None /\
    Some "read-only datastore" = None /\
    sample_flow_obj = sample_flow_obj /\ w' = w) \/
   (delegate_done (Some "delegate failed") None /\
    Some "read-only datastore" = Some "delegate failed" /\
    sample_flow_obj = AFF4FlowObject.SetContext None sample_flow_obj /\
    exists args,
      sample_GetFlowArgs (AFF4FlowObject.RunnerArgs sample_flow_obj) =
        inr (Message_HuntInfo args) /\
      store w' =
        <[completion_urn args :=
            SubjectHuntInfo (completion_record sample_flow_obj args None)]>
          (store w)) \/
   (delegate_done (Some "delegate failed") None /\
    sample_flow_obj = sample_flow_obj /\
    store w' = store w /\
    exists e,
      Some "read-only datastore" = Some e /\
      (sample_GetFlowArgs (AFF4FlowObject.RunnerArgs sample_flow_obj) = inl e \/
       GetDB sample_env_read_only = Some e \/
       exists args,
         sample_GetFlowArgs (AFF4FlowObject.RunnerArgs sample_flow_obj) =
           inr (Message_HuntInfo args) /\
         SetSubject_fault sample_env_read_only (completion_urn args) =
           Some e))).
Proof.
  intros w run w'.
  assert (run = Ret (None, sample_flow_obj, Some "read-only datastore") w')
    as Hrun by (vm_compute; reflexivity).
  split; [exact Hrun|].
  exact (ProcessMessage_returns_report_error_first sample_env_read_only
           sample_delegate_failing sample_GetFlowArgs None sample_flow_obj
           sample_flow_obj w w w' (Some "delegate failed")
           (Some "read-only datastore") None None eq_refl Hrun).
Defined.


(* ================================================================== *)
(** ** [CreateHunt] and the mirror *)

Lemma Forall2_In_l {A B} (P : A -> B -> Prop) (l : list A) (k : list B)
    (x : A) :
  Forall2 P l k -> In x l -> exists y, In y k /\ P x y.
Proof.
  induction 1 as [|a b l k Hab _ IH]; [intros []|].
  intros [<-|Hin].
  - exists b. split; [now left | exact Hab].
  - destruct (IH Hin) as (y & Hy & Hxy). exists y. split; [now right | exact Hxy].
Qed.

(** Why [NewHuntDispatcher] fails when it does, with a datastore at
    hand: the listing failed, or a listed hunt cannot be read. *)
Lemma NewHuntDispatcher_outcome (E : Env) (fuel : nat) (w w' : World)
    (r : error + HuntDispatcher) :
  GetDB E = None ->
  NewHuntDispatcher E fuel w = Ret r w' ->
  let page := takeZ 100 (dropZ 0 (children (HUNTS_URN E) (store w))) in
  match r with
  | inl e =>
      ListChildren_fault E (HUNTS_URN E) = Some e \/
      exists urn, In urn page /\ readable_hunt E (store w) urn = None
  | inr d =>
      ListChildren_fault E (HUNTS_URN E) = None /\
      forall urn, In urn page -> readable_hunt E (store w) urn <> None
  end.
Proof.
  intros Hdb Hrun page. revert Hrun. unfold NewHuntDispatcher. rewrite Hdb.
  unfold bind at 1. unfold ListChildren.
  destruct (ListChildren_fault E (HUNTS_URN E)) as [e|].
  { unfold ret. intros [= <- <-]. now left. }
  fold page. set (w0 := emit _ w). unfold bind at 1.
  destruct (load_hunts_spec E (store w) page [] w0 eq_refl)
    as (r0 & w1 & -> & _ & Hr).
  destruct r0 as [e|hs].
  { unfold ret. intros [= <- <-]. now right. }
  destruct Hr as (loaded & -> & Hloaded). cbn [app]. unfold bind at 1.
  destruct (Update E fuel _ w1) as [[result err] w2| |] eqn:Hup;
    [|discriminate..].
  apply Update_frame in Hup as (Herr & _). rewrite Hdb in Herr. subst err.
  unfold ret. intros [= <- <-]. split; [reflexivity|].
  intros urn Hin. clear - Hloaded Hin.
  induction Hloaded as [|u h urns hs Hh _ IH]; [destruct Hin|].
  destruct Hin as [<-|Hin]; [congruence | now apply IH].
Qed.

(** The refresh at the end of [CreateHunt] rebuilds the mirror from the
    datastore as the write left it, and publishes the outcome.  When the
    rebuild failed, because the listing of the hunts directory failed or
    a hunt among the first hundred listed cannot be read, it publishes
    the empty mirror.  Otherwise it publishes the mirror built, of the
    first hundred hunts listed after the write, which holds the new hunt
    when its id is among those hundred and not when it is listed
    later. *)
Theorem CreateHunt_publishes_the_new_hunt (E : Env) (fuel : nat)
    (hunt : Hunt.t) (w w' : World) (id : string) :
  CreateHunt E fuel hunt w = Ret (inr id) w' ->
  exists stored rebuilt w2,
    Hunt.HuntId stored = id /\
    same_request hunt stored /\
    let w1 :=
      set_store (<[id := SubjectHunt stored]> (store w))
        (emit (EvSetSubject id (SubjectHunt stored)) w) in
    let page := takeZ 100 (dropZ 0 (children (HUNTS_URN E) (store w1))) in
    NewHuntDispatcher E fuel w1 = Ret rebuilt w2 /\
    store w' = store w2 /\
    trace w' = trace w2 ++ [EvNotifyClients] /\
    match rebuilt with
    | inl e =>
        dispatcher w' = Some HuntDispatcher_zero /\
        (ListChildren_fault E (HUNTS_URN E) = Some e \/
         exists urn, In urn page /\ readable_hunt E (store w1) urn = None)
    | inr d =>
        dispatcher w' = Some d /\
        ListChildren_fault E (HUNTS_URN E) = None /\
        (forall urn, In urn page -> readable_hunt E (store w1) urn <> None) /\
        length (hunts d) = length page /\
        (In id page ->
         exists h, In h (hunts d) /\ same_but_counters stored h) /\
        (~ In id page ->
         forall h, In h (hunts d) ->
           exists urn other,
             urn <> id /\
             store w !! urn = Some (SubjectHunt other) /\
             same_but_counters other h)
    end.
Proof.
  intros Hrun.
  pose proof (CreateHunt_returns_new_id E fuel hunt w w' id Hrun) as ->.
  destruct (GetDB E) as [e0|] eqn:Hdb.
  { unfold CreateHunt in Hrun. rewrite Hdb in Hrun. discriminate. }
  destruct (CreateHunt_runs E fuel hunt w Hdb)
    as (stored & Heq & Hid & _ & _ & _ & _ & Hreq).
  rewrite Heq in Hrun. clear Heq. revert Hrun.
  unfold bind at 1. unfold SetSubject.
  destruct (SetSubject_fault E (GetNewHuntId E)); [discriminate|].
  unfold ret at 1.
  set (w1 := set_store _ _).
  unfold bind at 1. unfold Refresh. unfold bind at 1.
  destruct (NewHuntDispatcher E fuel w1) as [r w2| |] eqn:Hnew;
    [|discriminate..].
  unfold bind, modify_world, ret. intros [= <-].
  exists stored, r, w2. split; [exact Hid|]. split; [exact Hreq|].
  cbv zeta. fold w1. split; [exact Hnew|]. split; [reflexivity|].
  split; [reflexivity|].
  pose proof (NewHuntDispatcher_outcome E fuel w1 w2 r Hdb Hnew) as Hout.
  cbv zeta in Hout.
  destruct r as [e|d]; [split; [reflexivity | exact Hout]|].
  destruct Hout as [Hlist Hall].
  split; [reflexivity|]. split; [exact Hlist|]. split; [exact Hall|].
  destruct (NewHuntDispatcher_mirror E fuel w1 w2 d Hnew)
    as (_ & _ & _ & HF & _).
  change (store w1)
    with (<[GetNewHuntId E := SubjectHunt stored]> (store w)) in *.
  split; [symmetry; eapply Forall2_length; exact HF|]. split.
  - intros Hin. destruct (Forall2_In_l _ _ _ _ HF Hin) as (h & Hh & st & Hst & Hs).
    rewrite lookup_insert_eq in Hst. injection Hst as <-. now exists h.
  - intros Hnot h Hh.
    assert (Forall2 (fun h urn =>
                       exists st,
                         <[GetNewHuntId E := SubjectHunt stored]> (store w)
                           !! urn = Some (SubjectHunt st) /\
                         same_but_counters st h)
              (hunts d)
              (takeZ 100
                 (dropZ 0
                    (children (HUNTS_URN E)
                       (<[GetNewHuntId E := SubjectHunt stored]> (store w))))))
      as HF'.
    { clear - HF. induction HF; constructor; auto. }
    destruct (Forall2_In_l _ _ _ _ HF' Hh) as (urn & Hurn & st & Hst & Hs).
    assert (urn <> GetNewHuntId E) as Hne by (intros ->; contradiction).
    rewrite lookup_insert_ne in Hst by (intros Heq; now apply Hne).
    now exists urn, st.
Qed.

(** On an empty datastore the rebuild goes through and the mirror
    published holds the new hunt and no other. *)
Lemma CreateHunt_publishes_the_new_hunt_witness :
  let w := sample_world_empty in
  let id := "aff4:/hunts/H.deadbeef" in
  let run := CreateHunt sample_env 1 sample_new_hunt w in
  let w' := world_after run w in
  run = Ret (inr id) w' /\
  option_map (fun d => List.map Hunt.HuntId (hunts d)) (dispatcher w') =
    Some [id] /\
  exists stored rebuilt w2,
    Hunt.HuntId stored = id /\
    same_request sample_new_hunt stored /\
    let w1 :=
      set_store (<[id := SubjectHunt stored]> (store w))
        (emit (EvSetSubject id (SubjectHunt stored)) w) in
    let page :=
      takeZ 100 (dropZ 0 (children (HUNTS_URN sample_env) (store w1))) in
    NewHuntDispatcher sample_env 1 w1 = Ret rebuilt w2 /\
    store w' = store w2 /\
    trace w' = trace w2 ++ [EvNotifyClients] /\
    match rebuilt with
    | inl e =>
        dispatcher w' = Some HuntDispatcher_zero /\
        (ListChildren_fault sample_env (HUNTS_URN sample_env) = Some e \/
         exists urn,
           In urn page /\ readable_hunt sample_env (store w1) urn = None)
    | inr d =>
        dispatcher w' = Some d /\
        ListChildren_fault sample_env (HUNTS_URN sample_env) = None /\
        (forall urn, In urn page ->
                     readable_hunt sample_env (store w1) urn <> None) /\
        length (hunts d) = length page /\
        (In id page ->
         exists h, In h (hunts d) /\ same_but_counters stored h) /\
        (~ In id page ->
         forall h, In h (hunts d) ->
           exists urn other,
             urn <> id /\
             store w !! urn = Some (SubjectHunt other) /\
             same_but_counters other h)
    end.
Proof.
  intros w id run w'.
  assert (run = Ret (inr id) w') as Hrun by (vm_compute; reflexivity).
  split; [exact Hrun|]. split; [vm_compute; reflexivity|].
  exact (CreateHunt_publishes_the_new_hunt sample_env 1 sample_new_hunt w w'
           id Hrun).
Defined.


(* ================================================================== *)
(** ** Result triage: every listed entry *)

Lemma append_Empty_r (s : string) : s +:+ EmptyString = s.
Proof.
  induction s as [|c s IH]; [reflexivity|]. rewrite append_String.
  now rewrite IH.
Qed.

(** What the read of the triage loop gives, and its class. *)
Lemma GetSubject_HuntInfo_class (E : Env) (urn : string) (w : World) :
  (forall i r, readable E (store w) urn = Some i ->
               HuntInfo.Result i = Some r ->
               0 <= FlowContext.TotalResults r) ->
  exists derr,
    GetSubject_HuntInfo E urn w =
      Ret (summary_read (readable E (store w) urn), derr)
        (emit (EvGetSubject urn) w) /\
    triage_class derr (summary_read (readable E (store w) urn))
      (spec_triage_class (readable E (store w) urn)).
Proof.
  unfold GetSubject_HuntInfo, readable. intros Hrange.
  destruct (GetSubject_fault E urn) as [e|].
  { eexists. split; [reflexivity|]. constructor. left. discriminate. }
  destruct (store w !! urn) as [[h|i]|].
  1, 3: eexists; (split; [reflexivity|]); constructor; left; discriminate.
  exists None. split; [reflexivity|]. cbn [summary_read spec_triage_class].
  destruct (HuntInfo.Result i) as [r|] eqn:Hr.
  2: { constructor. right. now left. }
  case_bool_decide as Hs.
  { constructor. right. right. now exists r. }
  specialize (Hrange i r eq_refl Hr).
  destruct (Z.ltb_spec 0 (FlowContext.TotalResults r)) as [Hpos|Hzero].
  - now apply (class_results _ _ r).
  - apply (class_no_results _ _ r); auto. lia.
Qed.

Lemma count_in_HuntId (q : Queue) (hunt : Hunt.t) :
  Hunt.HuntId (count_in q hunt) = Hunt.HuntId hunt.
Proof. now destruct q. Qed.

Lemma is_sink_queue_name (q : Queue) : is_sink_queue (queue_name q).
Proof. destruct q; unfold is_sink_queue; cbn; auto. Qed.

Lemma filed_at_not_completed (hunt_id : string)
    (read : string -> option HuntInfo.t) (urn k : string) :
  is_child (hunt_id +:+ "/completed") k = true ->
  filed_at hunt_id read urn <> k.
Proof.
  intros Hk Heq. unfold filed_at in Heq. rewrite <- queue_urn_name in Heq.
  destruct (sink_not_child hunt_id (queue_name (spec_triage_class (read urn)))
              (HuntInfo.ClientId (summary_read (read urn)))
              (is_sink_queue_name _)) as [Hc _].
  rewrite Heq in Hc. congruence.
Qed.

(** One round of the triage loop on an entry whose counts are in
    range. *)
Lemma _SortResultsForHunt_body_files (E : Env) (urn : string)
    (hunt : Hunt.t) (modified : bool) (result_count : Z) (err : option error)
    (w : World) :
  let read := readable E (store w) in
  let destination := filed_at (Hunt.HuntId hunt) read urn in
  let summary := summary_read (read urn) in
  (forall i r, read urn = Some i -> HuntInfo.Result i = Some r ->
               0 <= FlowContext.TotalResults r) ->
  exists err' w',
    _SortResultsForHunt_body E urn (hunt, modified, result_count, err) w =
      Ret (count_in (spec_triage_class (read urn)) hunt, true,
           result_count + 1, err') w' /\
    trace w' =
      trace w ++
      [EvGetSubject urn; EvSetSubject destination (SubjectHuntInfo summary)] /\
    ((SetSubject_fault E destination <> None /\ store w' = store w) \/
     (SetSubject_fault E destination = None /\
      store w' = <[destination := SubjectHuntInfo summary]> (store w))).
Proof.
  intros read destination summary Hrange.
  destruct (GetSubject_HuntInfo_class E urn w Hrange) as (derr & Hget & Hclass).
  apply triage_class_branch in Hclass.
  unfold _SortResultsForHunt_body, bind. rewrite Hget, Hclass.
  rewrite queue_urn_name. fold read. fold (filed_at (Hunt.HuntId hunt) read urn).
  fold destination. fold summary. unfold SetSubject, ret.
  destruct (SetSubject_fault E destination) as [e|] eqn:Hset;
    eexists _, _; (split; [reflexivity|]); (split; [trace_eq|]).
  - left. split; [discriminate | reflexivity].
  - right. split; reflexivity.
Qed.

Lemma filed_cons (read : string -> option HuntInfo.t) (q : Queue)
    (urn : string) (urns : list string) :
  filed read q (urn :: urns) =
    (if decide (q = spec_triage_class (read urn)) then 1 else 0)
    + filed read q urns.
Proof.
  unfold filed, lenZ. cbn [List.filter].
  destruct (decide (q = spec_triage_class (read urn))) as [->|Hne].
  - rewrite bool_decide_eq_true_2 by reflexivity. cbn [length]. lia.
  - rewrite bool_decide_eq_false_2 by congruence. lia.
Qed.

Lemma filed_nonneg (read : string -> option HuntInfo.t) (q : Queue)
    (urns : list string) : 0 <= filed read q urns <= lenZ urns.
Proof.
  unfold filed, lenZ. pose proof (filter_length_le
    (fun urn => bool_decide (spec_triage_class (read urn) = q)) urns). lia.
Qed.

Lemma filed_total (read : string -> option HuntInfo.t) (urns : list string) :
  filed read QErrors urns + filed read QResults urns
  + filed read QNoResults urns = lenZ urns.
Proof.
  induction urns as [|urn r IH]; [reflexivity|].
  rewrite !filed_cons. unfold lenZ in *. cbn [length].
  destruct (spec_triage_class (read urn)); repeat case_decide;
    try discriminate; try congruence; lia.
Qed.

(** The triage loop over listed entries: the reads see the records as
    they were when the loop began, since no record is written among the
    children of the completed queue. *)
Lemma _SortResultsForHunt_loop_files (E : Env) (hunt_id : string)
    (read : string -> option HuntInfo.t) (urns : list string) :
  forall (hunt : Hunt.t) (modified : bool) (result_count : Z)
         (err : option error) (w : World),
    Hunt.HuntId hunt = hunt_id ->
    (forall u, In u urns -> is_child (hunt_id +:+ "/completed") u = true) ->
    (forall u, In u urns -> readable E (store w) u = read u) ->
    (forall u i r, In u urns -> read u = Some i ->
                   HuntInfo.Result i = Some r ->
                   0 <= FlowContext.TotalResults r) ->
    (forall q, 0 <= queue_counter q hunt /\
               queue_counter q hunt + lenZ urns < U64.modulus) ->
    exists hunt' err' w',
      for_each (_SortResultsForHunt_body E) urns
        (hunt, modified, result_count, err) w =
        Ret (hunt', (if is_nil urns then modified else true),
             result_count + lenZ urns, err') w' /\
      trace w' = trace w ++ filing_calls hunt_id read urns /\
      (forall q, queue_counter q hunt' =
                   queue_counter q hunt + filed read q urns) /\
      Hunt.HuntId hunt' = hunt_id /\
      (forall k, is_child (hunt_id +:+ "/completed") k = true ->
                 store w' !! k = store w !! k) /\
      (forall k, is_Some (store w !! k) -> is_Some (store w' !! k)) /\
      (forall u, In u urns ->
                 SetSubject_fault E (filed_at hunt_id read u) = None ->
                 is_Some (store w' !! filed_at hunt_id read u)).
Proof.
  induction urns as [|urn rest IH];
    intros hunt modified rc err w Hid Hch Hread Hrange Hcnt.
  { exists hunt, err, w. cbn [for_each is_nil filing_calls flat_map].
    unfold ret, lenZ. cbn [length]. rewrite Z.add_0_r, app_nil_r.
    repeat split; auto.
    - intros q. unfold filed, lenZ. cbn. lia.
    - intros u []. }
  assert (lenZ (urn :: rest) = lenZ rest + 1) as Hlen
      by (unfold lenZ; cbn [length]; lia).
  assert (0 <= lenZ rest) as Hrest by (unfold lenZ; lia).
  assert (readable E (store w) urn = read urn) as Hurn
      by (apply Hread; now left).
  destruct (_SortResultsForHunt_body_files E urn hunt modified rc err w)
    as (e1 & w1 & H1 & T1 & St1).
  { rewrite Hurn. intros i r. apply Hrange. now left. }
  cbv zeta in H1, T1, St1. unfold filed_at in T1, St1.
  rewrite Hurn in H1, T1, St1. rewrite Hid in T1, St1.
  fold (filed_at hunt_id read urn) in T1, St1.
  assert (forall k, is_child (hunt_id +:+ "/completed") k = true ->
                    store w1 !! k = store w !! k) as Hsame.
  { intros k Hk. destruct St1 as [[_ ->]|[_ ->]]; [reflexivity|].
    apply lookup_insert_ne.
    exact (filed_at_not_completed hunt_id read urn k Hk). }
  assert (forall k, is_Some (store w !! k) -> is_Some (store w1 !! k))
    as Hkeep.
  { intros k Hk. destruct St1 as [[_ ->]|[_ ->]]; [exact Hk|].
    destruct (decide (filed_at hunt_id read urn = k)) as [<-|Hne].
    - rewrite lookup_insert_eq. now eexists.
    - now rewrite lookup_insert_ne. }
  set (q0 := spec_triage_class (read urn)) in *.
  destruct (IH (count_in q0 hunt) true (rc + 1) e1 w1)
    as (h2 & e2 & w2 & H2 & T2 & C2 & Hid2 & Hsame2 & Hkeep2 & Hpres2).
  { now rewrite count_in_HuntId. }
  { intros u Hu. apply Hch. now right. }
  { intros u Hu. rewrite <- (Hread u) by now right.
    unfold readable. rewrite (Hsame u) by (apply Hch; now right).
    reflexivity. }
  { intros u i r Hu. apply Hrange. now right. }
  { intros q. rewrite count_in_counter. destruct (Hcnt q) as [Hq0 Hq1].
    rewrite Hlen in Hq1. destruct (decide (q = q0)).
    - unfold U64.add. rewrite U64_wrap_small by (unfold U64.in_range; lia).
      lia.
    - lia. }
  exists h2, e2, w2. cbn [for_each is_nil]. unfold bind. rewrite H1.
  split.
  { rewrite H2, Hlen.
    replace (if is_nil rest then true else true) with true
      by now destruct rest.
    now replace (rc + 1 + lenZ rest) with (rc + (lenZ rest + 1)) by lia. }
  split.
  { rewrite T2, T1. cbn [filing_calls flat_map]. rewrite <- !app_assoc.
    reflexivity. }
  split.
  { intros q. rewrite C2, count_in_counter, filed_cons.
    destruct (Hcnt q) as [Hq0 Hq1]. rewrite Hlen in Hq1.
    fold q0. destruct (decide (q = q0)).
    - unfold U64.add. rewrite U64_wrap_small by (unfold U64.in_range; lia).
      lia.
    - lia. }
  split; [exact Hid2|].
  split; [intros k Hk; now rewrite Hsame2, Hsame|].
  split; [intros k Hk; now apply Hkeep2, Hkeep|].
  intros u [<-|Hu] Hset; [|now apply Hpres2].
  apply Hkeep2. destruct St1 as [[Hf _]|[_ ->]].
  - now exfalso.
  - rewrite lookup_insert_eq. now eexists.
Qed.

Lemma delete_all_others (E : Env) (urns : list string) :
  forall (err err' : option error) (w w' : World) (k : string),
    delete_all E urns err w = Ret err' w' ->
    ~ In k urns -> store w' !! k = store w !! k.
Proof.
  unfold delete_all. induction urns as [|x r IH]; intros err err' w w' k.
  - cbn. unfold ret. now intros [= _ <-].
  - cbn [for_each]. unfold bind at 1.
    unfold delete_urn, bind, DeleteSubject, ret.
    intros H Hk.
    assert (~ In k r) as Hr by (intros Hin; apply Hk; now right).
    destruct (DeleteSubject_fault E x); apply IH with (k := k) in H;
      try exact Hr; rewrite H; [reflexivity|].
    cbn. apply lookup_delete_ne. intros ->. apply Hk. now left.
Qed.

Lemma queue_urn_child (hunt_id : string) (q : Queue) (client_id : string) :
  plain_name client_id ->
  is_child (queue_dir hunt_id q) (queue_urn hunt_id q client_id) = true.
Proof.
  intros [Hne Hns]. unfold is_child.
  destruct q; cbn [queue_dir queue_urn]; rewrite strip_prefix_append;
    rewrite !append_String, append_Empty; cbn [strip_prefix]; cbn;
    now rewrite Hne, Hns.
Qed.



